(** * Dockerfile validator: the diagnostic engine of dockerValidator.ts

    A shallow embedding of [Validator] (src/dockerValidator.ts): the
    escape-directive resolver, the document-model checks, the raw-text
    structural scanner and the JSON-array validator used for VOLUME, with
    the diagnostic factory they share.

    Conventions.
    - JavaScript strings are [string]; offsets are [Z], because the code
      computes with [-1] ([last]) and with [text.length - 1].
    - [problems.push(d)] is [problems ++ [d]]: every function that pushes
      takes the list and returns the extended one.
    - The instruction model ([Dockerfile], [Instruction], [Argument],
      [Directive]) is produced by a parser that is not part of this file;
      it is an input, given as records holding what the getters return.
    - [TextDocument] is the text accessor of vscode-languageserver. *)

From Stdlib Require Import ZArith List String Ascii Bool Lia Sorted.
Import ListNotations.

Open Scope string_scope.
Open Scope list_scope.
Open Scope Z_scope.

(* ================================================================== *)
(** ** JavaScript string primitives used by the validator *)

Module JS.

(** [s.length] *)
Definition length (s : string) : Z := Z.of_nat (String.length s).

(** [s.charAt(i)]; [None] stands for the empty string JavaScript
    returns when [i] is out of range. *)
Definition charAt (s : string) (i : Z) : option ascii :=
  if i <? 0 then None else String.get (Z.to_nat i) s.

(** [s.charAt(i) === c] for a one-character literal [c]. *)
Definition charIs (s : string) (i : Z) (c : ascii) : bool :=
  match charAt s i with
  | Some x => Ascii.eqb x c
  | None => false
  end.

Definition clampIndex (s : string) (i : Z) : nat :=
  Z.to_nat (Z.min (Z.max i 0) (length s)).

(** [s.substring(a, b)]: both indices are clamped to [0, s.length] and
    swapped when [a > b]. *)
Definition substring (s : string) (a b : Z) : string :=
  let a' := clampIndex s a in
  let b' := clampIndex s b in
  String.substring (Nat.min a' b') (Nat.max a' b' - Nat.min a' b') s.

(** [s.substring(a)] *)
Definition substringFrom (s : string) (a : Z) : string :=
  substring s a (length s).

(** [a < b] on one-character strings: comparison of code units. *)
Definition charLt (a b : ascii) : bool :=
  (N_of_ascii a <? N_of_ascii b)%N.

(** [arr.indexOf(x) === -1] on an array of strings. *)
Definition notIn (x : string) (arr : list string) : bool :=
  negb (existsb (String.eqb x) arr).

End JS.

Definition CR : ascii := "013"%char.
Definition LF : ascii := "010"%char.
Definition TAB : ascii := "009"%char.
Definition SPACE : ascii := " "%char.
Definition BACKSLASH : ascii := "\"%char.
Definition BACKTICK : ascii := "`"%char.

(** [text.charAt(i) === '\r' || text.charAt(i) === '\n'] *)
Definition isLineBreakAt (text : string) (i : Z) : bool :=
  JS.charIs text i CR || JS.charIs text i LF.

(* ================================================================== *)
(** ** Positions, ranges and the text accessor *)

Record Position := mkPosition { line : nat; character : nat }.

Record Range := mkRange { start : Position; end_ : Position }.

(** Lexicographic order on positions: line, then character. *)
Definition pos_le (p q : Position) : Prop :=
  (line p < line q)%nat \/ (line p = line q /\ (character p <= character q)%nat).

Definition pos_leb (p q : Position) : bool :=
  (line p <? line q)%nat || ((line p =? line q)%nat && (character p <=? character q)%nat).

(** [TextDocument] belongs to the vscode-languageserver library, not to
    this repository.  Its two conversions are given here by what they
    answer: [positionAt] clamps the offset into the text and finds its
    line among the line offsets, [offsetAt] clamps the position to its
    line. *)
Module TextDocument.

(** [getLineOffsets]: the offset of the first character of every line;
    a line ends at LF, at CR LF, or at a lone CR.  The walk carries the
    offset [i] of the head of the remaining text and the flag
    [isLineStart] of the library's loop. *)
Fixpoint lineOffsetsFrom (s : string) (i : Z) (isLineStart : bool) : list Z :=
  match s with
  | EmptyString => if isLineStart && (0 <? i) then [i] else []
  | String ch rest =>
      (if isLineStart then [i] else []) ++
      match rest with
      | String ch' rest' =>
          if Ascii.eqb ch CR && Ascii.eqb ch' LF
          then lineOffsetsFrom rest' (i + 2) true
          else lineOffsetsFrom rest (i + 1) (Ascii.eqb ch CR || Ascii.eqb ch LF)
      | EmptyString =>
          lineOffsetsFrom rest (i + 1) (Ascii.eqb ch CR || Ascii.eqb ch LF)
      end
  end.

Definition getLineOffsets (text : string) : list Z :=
  lineOffsetsFrom text 0 true.

(** The number of leading line offsets that are [<= o]: on the sorted
    array of line offsets this is the index [low] the library's binary
    search stops at. *)
Fixpoint lowIndex (los : list Z) (o : Z) : nat :=
  match los with
  | [] => O
  | lo :: rest => if lo <=? o then S (lowIndex rest o) else O
  end.

(** [document.positionAt(offset)]; the offset is first clamped to
    [0, text.length]. *)
Definition positionAt (text : string) (offset : Z) : Position :=
  let o := Z.max (Z.min offset (JS.length text)) 0 in
  let los := getLineOffsets text in
  match los with
  | [] => mkPosition 0 (Z.to_nat o)
  | _ =>
      let l := (lowIndex los o - 1)%nat in
      mkPosition l (Z.to_nat (o - nth l los 0))
  end.

(** [document.offsetAt(position)] *)
Definition offsetAt (text : string) (p : Position) : Z :=
  let los := getLineOffsets text in
  if (List.length los <=? line p)%nat then JS.length text
  else
    let lineOffset := nth (line p) los 0 in
    let nextLineOffset :=
      if (line p + 1 <? List.length los)%nat
      then nth (line p + 1) los 0
      else JS.length text in
    Z.max (Z.min (lineOffset + Z.of_nat (character p)) nextLineOffset) lineOffset.

(** A position lies within the document when its line exists and its
    column does not run past the start of the next line (the end of the
    text for the last line). *)
Definition lineStart (text : string) (l : nat) : Z :=
  nth l (getLineOffsets text) 0.

Definition lineEnd (text : string) (l : nat) : Z :=
  let los := getLineOffsets text in
  if (l + 1 <? List.length los)%nat then nth (l + 1) los 0 else JS.length text.

Definition inBounds (text : string) (p : Position) : Prop :=
  (line p < Nat.max 1 (List.length (getLineOffsets text)))%nat /\
  lineStart text (line p) + Z.of_nat (character p) <= lineEnd text (line p).

End TextDocument.

(* ================================================================== *)
(** ** Diagnostics *)

Inductive ValidationCode :=
| DEFAULT
| LOWERCASE
| EXTRA_ARGUMENT
| NO_SOURCE_IMAGE
| MISSING_ARGUMENT
| INVALID_ESCAPE_DIRECTIVE
| INVALID_PORT
| INVALID_STOPSIGNAL
| UNKNOWN_DIRECTIVE
| UNKNOWN_INSTRUCTION
| DEPRECATED_MAINTAINER.

Inductive ValidationSeverity := IGNORE | WARNING | ERROR.

(** [DiagnosticSeverity] of the language-server protocol. *)
Inductive DiagnosticSeverity := Error | Warning | Information | Hint.

Record Diagnostic := mkDiagnostic {
  range : Range;
  message : option string;   (* [None] is JavaScript's [undefined] *)
  severity : DiagnosticSeverity;
  code : ValidationCode;
  source : string
}.

Record ValidatorSettings := mkSettings {
  deprecatedMaintainer : ValidationSeverity
}.

Definition ValidationCode_eqb (a b : ValidationCode) : bool :=
  match a, b with
  | DEFAULT, DEFAULT
  | LOWERCASE, LOWERCASE
  | EXTRA_ARGUMENT, EXTRA_ARGUMENT
  | NO_SOURCE_IMAGE, NO_SOURCE_IMAGE
  | MISSING_ARGUMENT, MISSING_ARGUMENT
  | INVALID_ESCAPE_DIRECTIVE, INVALID_ESCAPE_DIRECTIVE
  | INVALID_PORT, INVALID_PORT
  | INVALID_STOPSIGNAL, INVALID_STOPSIGNAL
  | UNKNOWN_DIRECTIVE, UNKNOWN_DIRECTIVE
  | UNKNOWN_INSTRUCTION, UNKNOWN_INSTRUCTION
  | DEPRECATED_MAINTAINER, DEPRECATED_MAINTAINER => true
  | _, _ => false
  end.

(** The diagnostics of a list that carry a given code. *)
Definition withCode (c : ValidationCode) (ds : list Diagnostic) : list Diagnostic :=
  filter (fun d => ValidationCode_eqb (code d) c) ds.

(* ================================================================== *)
(** ** The external instruction model *)

(** [Argument]: [getValue()], [getRange()]. *)
Record Argument := mkArgument {
  argValue : string;
  argRange : Range
}.

(** [Instruction]: [getKeyword()] (canonical upper case),
    [getInstruction()] (the keyword as written), [getInstructionRange()],
    [getTextContent()] and the escape-aware tokenisation
    [getArgments(escapeChar)]. *)
Record Instruction := mkInstruction {
  getKeyword : string;
  getInstruction : string;
  getInstructionRange : Range;
  getTextContent : string;
  getArgments : ascii -> list Argument
}.

(** [Directive]: [getDirective()], [getValue()], [getNameRange()],
    [getValueRange()], [getRange()]. *)
Record Directive := mkDirective {
  getDirectiveName : string;
  getValue : string;
  getNameRange : Range;
  getValueRange : Range;
  getRange : Range
}.

(** [Dockerfile]: [getDirective()] ([null] is [None]) and
    [getInstructions()]. *)
Record Dockerfile := mkDockerfile {
  getDirective : option Directive;
  getInstructions : list Instruction
}.

(** Modelled from the spec: the constant [DIRECTIVE_ESCAPE] of docker.ts,
    which is not among the sources; "escape" is the only directive name
    that is recognised. *)
Definition DIRECTIVE_ESCAPE : string := "escape".

(* ================================================================== *)
(** ** Bounded [for] loops

    Every inner loop of the validator has the shape
    [for (k = a; k < text.length; k++) body], where the body may advance
    [k] itself before [continue], or leave the loop.  [forLoop] runs such
    a loop: the body returns [Next s k] to go on (the loop then
    increments [k]) or [Leave r] to leave with a result; [after] is the
    code that follows the loop when its condition fails.  The counter
    [fuel] bounds the number of iterations; [forLoop_fuel] below shows
    that [text.length - k] iterations always suffice when the body never
    moves [k] backwards. *)

Inductive LoopStep (S R : Type) :=
| Next (s : S) (k : Z)
| Leave (r : R).

Arguments Next {S R} s k.
Arguments Leave {S R} r.

Fixpoint forLoop {S R : Type} (fuel : nat) (len : Z)
    (body : S -> Z -> LoopStep S R) (after : S -> Z -> R) (s : S) (k : Z) : R :=
  match fuel with
  | O => after s k
  | Datatypes.S fuel' =>
      if k <? len then
        match body s k with
        | Next s' k' => forLoop fuel' len body after s' (k' + 1)
        | Leave r => r
        end
      else after s k
  end.

(** The iterations a loop over [len] characters starting at [k] can need. *)
Definition loopFuel (len k : Z) : nat := Z.to_nat (len - k).

(* ================================================================== *)
(** ** Instances of the host functions, for evaluation on examples *)

(** Modelled from the spec: [Util.isWhitespace] of docker.ts, which is
    not among the sources; "generic whitespace" is taken to be the
    space, the tab and the two line-break characters. *)
Definition Util_isWhitespace (c : ascii) : bool :=
  Ascii.eqb c SPACE || Ascii.eqb c TAB || Ascii.eqb c CR || Ascii.eqb c LF.

(** [String.prototype.toUpperCase] on the letters a-z. *)
Definition upperChar (c : ascii) : ascii :=
  if (N.leb 97 (N_of_ascii c) && N.leb (N_of_ascii c) 122)%bool
  then ascii_of_N (N_of_ascii c - 32)
  else c.

Fixpoint asciiToUpperCase (s : string) : string :=
  match s with
  | EmptyString => EmptyString
  | String c rest => String (upperChar c) (asciiToUpperCase rest)
  end.

(** [text.replace(pattern, replacement)] for a pattern that is a plain
    string: the first occurrence is replaced. *)
Fixpoint replaceFirst (s pattern replacement : string) : string :=
  if String.prefix pattern s
  then replacement ++ String.substring (String.length pattern) (String.length s) s
  else match s with
       | EmptyString => EmptyString
       | String c rest => String c (replaceFirst rest pattern replacement)
       end.

(* ================================================================== *)
(** ** Example documents with their instruction models *)

Definition newline : string := String LF EmptyString.

Definition quote : string := String "034"%char EmptyString.

Definition dockerKeywords : list string :=
  ["ADD"; "ARG"; "CMD"; "COPY"; "ENTRYPOINT"; "ENV"; "EXPOSE"; "FROM";
   "HEALTHCHECK"; "LABEL"; "MAINTAINER"; "ONBUILD"; "RUN"; "SHELL";
   "STOPSIGNAL"; "USER"; "VOLUME"; "WORKDIR"].

Definition warnSettings : ValidatorSettings := {| deprecatedMaintainer := WARNING |}.

Definition rangeAt (l1 c1 l2 c2 : nat) : Range :=
  {| start := {| line := l1; character := c1 |};
     end_ := {| line := l2; character := c2 |} |}.

(** An instruction on one line: keyword as written at column 0 of line
    [l], then the text of the line and its tokens with their columns. *)
Definition instructionOn (l : nat) (keyword written content : string)
    (tokens : list (string * nat)) : Instruction :=
  {| getKeyword := keyword;
     getInstruction := written;
     getInstructionRange := rangeAt l 0 l (String.length written);
     getTextContent := content;
     getArgments := fun _ =>
       map (fun t => {| argValue := fst t;
                        argRange := rangeAt l (snd t) l (snd t + String.length (fst t)) |})
         tokens |}.

(** [FOO x] on line 0, [VOLUME [a]] on line 1. *)
Definition unknownThenVolume : string :=
  "FOO x" ++ newline ++ "VOLUME [a]" ++ newline.

Definition unknownThenVolumeModel : Dockerfile :=
  {| getDirective := None;
     getInstructions :=
       [ instructionOn 0 "FOO" "FOO" "FOO x" [("x", 4%nat)];
         instructionOn 1 "VOLUME" "VOLUME" "VOLUME [a]" [("[a]", 7%nat)] ] |}.



(** A VOLUME array that stops after its opening bracket. *)
Definition volumeUnclosed : string := "VOLUME [".

Definition volumeUnclosedModel : Dockerfile :=
  {| getDirective := None;
     getInstructions := [ instructionOn 0 "VOLUME" "VOLUME" "VOLUME [" [("[", 7%nat)] ] |}.

(** A line break, then a VOLUME array that stops after its bracket and a
    space. *)
Definition volumeUnclosedOnSecondLine : string := newline ++ "VOLUME [ ".

(** The empty document. *)
Definition emptyModel : Dockerfile := {| getDirective := None; getInstructions := [] |}.

(** [RUN make] *)
Definition runOnly : string := "RUN make".

Definition runOnlyModel : Dockerfile :=
  {| getDirective := None;
     getInstructions := [ instructionOn 0 "RUN" "RUN" "RUN make" [("make", 4%nat)] ] |}.

(** A directive [# scape=`] whose name is not "escape". *)
Definition misspeltDirective : Directive :=
  {| getDirectiveName := "scape"; getValue := "`";
     getNameRange := rangeAt 0 2 0 7; getValueRange := rangeAt 0 8 0 9;
     getRange := rangeAt 0 0 0 9 |}.

(** A directive [# escape=x]. *)
Definition invalidEscapeDirective : Directive :=
  {| getDirectiveName := "escape"; getValue := "x";
     getNameRange := rangeAt 0 2 0 8; getValueRange := rangeAt 0 9 0 10;
     getRange := rangeAt 0 0 0 10 |}.





(** [EXPOSE 8080 -80 9090] *)
Definition exposeThreePorts : Instruction :=
  instructionOn 0 "EXPOSE" "EXPOSE" "EXPOSE 8080 -80 9090"
    [("8080", 7%nat); ("-80", 12%nat); ("9090", 16%nat)].

(** [MAINTAINER me] *)
Definition maintainerLine : Instruction :=
  instructionOn 0 "MAINTAINER" "MAINTAINER" "MAINTAINER me" [("me", 11%nat)].

(* ================================================================== *)
(** ** Flags of an instruction (parser/instructions/modifiableInstruction.ts) *)

(** [s.indexOf(c)] for a one-character string [c]: the offset of its
    first occurrence, or [-1]. *)
Fixpoint indexOfFrom (c : ascii) (s : string) (i : Z) : Z :=
  match s with
  | EmptyString => -1
  | String x rest => if Ascii.eqb x c then i else indexOfFrom c rest (i + 1)
  end.

Definition indexOfChar (s : string) (c : ascii) : Z := indexOfFrom c s 0.

(** [Range.create(startLine, startCharacter, endLine, endCharacter)] on
    numbers that the code computes by addition and subtraction. *)
Record NumberRange := mkNumberRange {
  startLine : Z;
  startCharacter : Z;
  endLine : Z;
  endCharacter : Z
}.

(** [new Flag(content, range, name, nameRange, value, valueRange)];
    [null] is [None]. *)
Record Flag := mkFlag {
  flagContent : string;
  flagRange : Range;
  flagName : string;
  flagNameRange : NumberRange;
  flagValue : option string;
  flagValueRange : option NumberRange
}.

(** The three [new Flag(...)] of [getFlags], for an argument whose value
    starts with two dashes. *)
Definition createFlag (arg : Argument) : Flag :=
  let value := argValue arg in
  let range := argRange arg in
  let sl := Z.of_nat (line (start range)) in
  let sc := Z.of_nat (character (start range)) in
  let el := Z.of_nat (line (end_ range)) in
  let ec := Z.of_nat (character (end_ range)) in
  let index := indexOfChar value "="%char in
  if index =? -1 then
    {| flagContent := value; flagRange := range;
       flagName := JS.substringFrom value 2;
       flagNameRange := mkNumberRange sl (sc + 2) el ec;
       flagValue := None; flagValueRange := None |}
  else if index =? JS.length value - 1 then
    {| flagContent := value; flagRange := range;
       flagName := JS.substring value 2 index;
       flagNameRange := mkNumberRange sl (sc + 2) el (ec - 1);
       flagValue := Some EmptyString;
       flagValueRange := Some (mkNumberRange el ec el ec) |}
  else
    {| flagContent := value; flagRange := range;
       flagName := JS.substring value 2 index;
       flagNameRange := mkNumberRange sl (sc + 2) sl (sc + index);
       flagValue := Some (JS.substringFrom value (index + 1));
       flagValueRange := Some (mkNumberRange sl (sc + index + 1) el ec) |}.

(** The loop of [getFlags] over the arguments, pushing onto
    [this.flags]; it returns at the first argument for which
    [stopSearchingForFlags] holds. *)
Fixpoint collectFlags (stopSearchingForFlags : string -> bool)
    (args : list Argument) (flags : list Flag) : list Flag :=
  match args with
  | [] => flags
  | arg :: rest =>
      let value := argValue arg in
      if stopSearchingForFlags value then flags
      else if String.prefix "--" value
      then collectFlags stopSearchingForFlags rest (flags ++ [createFlag arg])
      else collectFlags stopSearchingForFlags rest flags
  end.

(** The arguments the loop of [getFlags] looks at: those before the
    first one that stops the search. *)
Fixpoint searched (stopSearchingForFlags : string -> bool)
    (args : list Argument) : list Argument :=
  match args with
  | [] => []
  | arg :: rest =>
      if stopSearchingForFlags (argValue arg) then []
      else arg :: searched stopSearchingForFlags rest
  end.

Definition startsWithDashes (arg : Argument) : bool :=
  String.prefix "--" (argValue arg).

(** How a flag is written: two dashes, its name and, when it has a
    value, an equals sign and the value. *)
Definition renderFlag (flag : Flag) : string :=
  ("--" ++ flagName flag ++
   match flagValue flag with
   | None => EmptyString
   | Some value => String "="%char value
   end)%string.

(** [args.shift()], [n] times. *)
Fixpoint shiftTimes {A : Type} (n : nat) (args : list A) : list A :=
  match n with
  | O => args
  | S n' => shiftTimes n' (tl args)
  end.

(** [getFlags] and [getArguments] of [ModifiableInstruction] call each
    other.  [this] is the field [this.flags] ([None] while it is not
    set); [superArguments] is what [super.getArguments()] returns;
    [stopSearchingForFlags] is the abstract method.  [depth] bounds the
    nesting of the calls: [None] is a call that does not return within
    it (or that pushes onto a field that is not set). *)
Fixpoint getFlags (depth : nat) (stopSearchingForFlags : string -> bool)
    (superArguments : list Argument) (this : option (list Flag))
    : option (list Flag * option (list Flag)) :=
  match depth with
  | O => None
  | S depth' =>
      match this with
      | Some flags => Some (flags, this)
      | None =>
          match getArguments depth' stopSearchingForFlags superArguments (Some []) with
          | Some (args, Some flags) =>
              let flags := collectFlags stopSearchingForFlags args flags in
              Some (flags, Some flags)
          | _ => None
          end
      end
  end
with getArguments (depth : nat) (stopSearchingForFlags : string -> bool)
    (superArguments : list Argument) (this : option (list Flag))
    : option (list Argument * option (list Flag)) :=
  match depth with
  | O => None
  | S depth' =>
      let args := superArguments in
      match getFlags depth' stopSearchingForFlags superArguments this with
      | Some (flags, this) =>
          if (List.length flags =? 0)%nat then Some (args, this)
          else Some (shiftTimes (List.length flags) args, this)
      | None => None
      end
  end.

(* ================================================================== *)
(** ** Signature help for FROM (DockerSignatures, dockerValidator.ts) *)

(** [ParameterInformation] and [SignatureInformation] of the protocol;
    a parameter written without documentation has [None]. *)
Record ParameterInformation := mkParameterInformation {
  parameterLabel : string;
  parameterDocumentation : option string
}.

Record SignatureInformation := mkSignatureInformation {
  label : string;
  documentation : string;
  parameters : list ParameterInformation
}.

(** [SignatureHelp].  An entry [None] of [signatures] is [undefined],
    what indexing an array outside its bounds gives. *)
Record SignatureHelp := mkSignatureHelp {
  signatures : list (option SignatureInformation);
  activeSignature : Z;
  activeParameter : Z
}.

(** The [From] instruction as the signature code reads it:
    [getArguments()], [getImageTagRange()], [getImageDigestRange()];
    a range that is [null] is [None]. *)
Record FromInstruction := mkFromInstruction {
  fromArguments : list Argument;
  getImageTagRange : option Range;
  getImageDigestRange : option Range
}.

Section Signatures.

(** [this.documentation.getDocumentation(key)], [argument.isBefore(position)]
    and [Util.isInsideRange(position, range)] are defined outside these
    sources. *)
Variable getDocumentation : string -> string.
Variable isBefore : Argument -> Position -> bool.
Variable isInsideRange : Position -> option Range -> bool.

Definition documented (name key : string) : ParameterInformation :=
  mkParameterInformation name (Some (getDocumentation key)).

Definition undocumented (name : string) : ParameterInformation :=
  mkParameterInformation name None.

Definition baseImage : SignatureInformation :=
  mkSignatureInformation "FROM baseImage"
    (getDocumentation "signatureFrom_Signature0")
    [documented "baseImage" "signatureFrom_Signature0_Param"].

Definition baseImageTag : SignatureInformation :=
  mkSignatureInformation "FROM baseImage:tag"
    (getDocumentation "signatureFrom_Signature1")
    [documented "baseImage" "signatureFrom_Signature1_Param0";
     documented "tag" "signatureFrom_Signature1_Param1"].

Definition baseImageDigest : SignatureInformation :=
  mkSignatureInformation "FROM baseImage@digest"
    (getDocumentation "signatureFrom_Signature2")
    [documented "baseImage" "signatureFrom_Signature2_Param0";
     documented "digest" "signatureFrom_Signature2_Param1"].

Definition baseImageStage : SignatureInformation :=
  mkSignatureInformation "FROM baseImage AS stage"
    (getDocumentation "signatureFrom_Signature3")
    [documented "baseImage" "signatureFrom_Signature3_Param0";
     undocumented "AS";
     documented "stage" "signatureFrom_Signature3_Param2"].

Definition baseImageTagStage : SignatureInformation :=
  mkSignatureInformation "FROM baseImage:tag AS stage"
    (getDocumentation "signatureFrom_Signature4")
    [documented "baseImage" "signatureFrom_Signature4_Param0";
     documented "tag" "signatureFrom_Signature4_Param1";
     undocumented "AS";
     documented "stage" "signatureFrom_Signature4_Param3"].

Definition baseImageDigestStage : SignatureInformation :=
  mkSignatureInformation "FROM baseImage@digest AS stage"
    (getDocumentation "signatureFrom_Signature5")
    [documented "baseImage" "signatureFrom_Signature5_Param0";
     documented "digest" "signatureFrom_Signature5_Param1";
     undocumented "AS";
     documented "stage" "signatureFrom_Signature5_Param3"].

Definition fromSignatures : list SignatureInformation :=
  [baseImage; baseImageTag; baseImageDigest;
   baseImageStage; baseImageTagStage; baseImageDigestStage].

Definition getFromSignatures (fromSignatures : list SignatureInformation)
    (tag digest stagesOnly : bool) : list (option SignatureInformation) :=
  if digest then
    if stagesOnly then [nth_error fromSignatures 5]
    else [nth_error fromSignatures 2; nth_error fromSignatures 5]
  else if tag then
    if stagesOnly then [nth_error fromSignatures 4]
    else [nth_error fromSignatures 1; nth_error fromSignatures 4]
  else
    if stagesOnly
    then [nth_error fromSignatures 3; nth_error fromSignatures 4;
          nth_error fromSignatures 5]
    else map Some fromSignatures.

(** [args[k]] followed by a method call: a [TypeError] when the array
    is too short, written [None]. *)
Definition withArgument {A : Type} (args : list Argument) (k : nat)
    (use : Argument -> option A) : option A :=
  match nth_error args k with
  | Some arg => use arg
  | None => None
  end.

Definition getFromActiveParameter (position : Position) (from : FromInstruction)
    (tag digest : bool) (args : list Argument) : option Z :=
  let inTag := tag && isInsideRange position (getImageTagRange from) in
  let inDigest := digest && isInsideRange position (getImageDigestRange from) in
  if (List.length args =? 1)%nat then
    withArgument args 0 (fun arg0 =>
      if isBefore arg0 position
      then Some (if tag || digest then 2 else 1)
      else Some (if inTag || inDigest then 1 else 0))
  else if (List.length args =? 2)%nat then
    withArgument args 1 (fun arg1 =>
      if isBefore arg1 position
      then Some (if tag || digest then 3 else 2)
      else
        if isInsideRange position (Some (argRange arg1))
        then Some (if tag || digest then 2 else 1)
        else
          withArgument args 0 (fun arg0 =>
            if isBefore arg0 position
            then Some (if tag || digest then 2 else 1)
            else Some (if inTag || inDigest then 1 else 0)))
  else
    withArgument args 2 (fun arg2 =>
      let otherwise :=
        withArgument args 1 (fun arg1 =>
          if isInsideRange position (Some (argRange arg1))
          then Some (if tag || digest then 2 else 1)
          else
            withArgument args 0 (fun arg0 =>
              if isBefore arg0 position
              then Some (if tag || digest then 2 else 1)
              else Some (if inTag || inDigest then 1 else 0))) in
      if isInsideRange position (Some (argRange arg2))
      then Some (if tag || digest then 3 else 2)
      else
        withArgument args 1 (fun arg1 =>
          if isBefore arg1 position
          then Some (if tag || digest then 3 else 2)
          else otherwise)).

(** [getFromSignatureHelp]: [Some None] is the result [null], [None] a
    [TypeError]. *)
Definition getFromSignatureHelp (position : Position) (from : FromInstruction)
    : option (option SignatureHelp) :=
  let args := fromArguments from in
  let third :=
    if (3 <=? List.length args)%nat
    then withArgument args 2 (fun arg2 => Some (isBefore arg2 position))
    else Some false in
  match third with
  | None => None
  | Some true => Some None
  | Some false =>
      if (List.length args =? 0)%nat
      then Some (Some (mkSignatureHelp (map Some fromSignatures) 0 0))
      else
        withArgument args 0 (fun arg0 =>
          let image := argValue arg0 in
          let digest := negb (indexOfChar image "@" =? -1) in
          let tag := negb digest && negb (indexOfChar image ":" =? -1) in
          let stagesOnly := (1 <? List.length args)%nat || isBefore arg0 position in
          match getFromActiveParameter position from tag digest args with
          | Some active =>
              Some (Some (mkSignatureHelp
                            (getFromSignatures fromSignatures tag digest stagesOnly)
                            0 active))
          | None => None
          end)
  end.

(** The descending loop of [getSignatureActiveParameter], entered with
    [i = n - 1].  [Some (Some r)] is [return r], [Some None] the end of
    the loop, [None] a [TypeError]. *)
Fixpoint repeatedArgument (position : Position) (max flagsOffset : Z)
    (args : list Argument) (n : nat) : option (option Z) :=
  match n with
  | O => Some None
  | S i =>
      withArgument args i (fun arg =>
        if isBefore arg position
        then Some (Some (Z.min (Z.of_nat i + 1) max + flagsOffset))
        else if isInsideRange position (Some (argRange arg))
        then Some (Some (Z.min (Z.of_nat i) max + flagsOffset))
        else repeatedArgument position max flagsOffset args i)
  end.

(** [args[k]] for a computed index, which is [undefined] when [k] is
    negative. *)
Definition withArgumentAt {A : Type} (args : list Argument) (k : Z)
    (use : Argument -> option A) : option A :=
  if k <? 0 then None else withArgument args (Z.to_nat k) use.

(** [getSignatureActiveParameter]; [args] is what
    [instruction.getArguments()] returns. *)
Definition getSignatureActiveParameter (args : list Argument)
    (position : Position) (hasFlags : bool) (max : Z) (finalRepeats : bool)
    : option Z :=
  let flagsOffset := if hasFlags then 1 else 0 in
  let switch :=
    if (List.length args =? 1)%nat then
      withArgument args 0 (fun arg0 =>
        if isBefore arg0 position then Some (2 + flagsOffset)
        else Some (0 + flagsOffset))
    else
      withArgumentAt args (Z.of_nat (List.length args) - 1) (fun final =>
        if isBefore final position
           || isInsideRange position (Some (argRange final))
        then Some (2 + flagsOffset)
        else
          withArgument args 0 (fun arg0 =>
            if isBefore arg0 position then Some (1 + flagsOffset)
            else Some (0 + flagsOffset))) in
  if finalRepeats then
    match repeatedArgument position max flagsOffset args (List.length args) with
    | Some (Some result) => Some result
    | Some None => switch
    | None => None
    end
  else switch.

(** The position is after the argument or inside it. *)
Definition reached (position : Position) (arg : Argument) : bool :=
  isBefore arg position || isInsideRange position (Some (argRange arg)).

(** The label of the active parameter of the active signature. *)
Definition parameterAt (help : SignatureHelp) (signature parameter : Z)
    : option string :=
  if (signature <? 0) || (parameter <? 0) then None
  else
    match nth_error (signatures help) (Z.to_nat signature) with
    | Some (Some information) =>
        option_map parameterLabel
          (nth_error (parameters information) (Z.to_nat parameter))
    | _ => None
    end.

Definition activeLabel (help : SignatureHelp) : option string :=
  parameterAt help (activeSignature help) (activeParameter help).

End Signatures.

(* ================================================================== *)
(** ** Further example inputs *)

(** [STOPSIGNAL abc] *)
Definition stopsignalWord : Instruction :=
  instructionOn 0 "STOPSIGNAL" "STOPSIGNAL" "STOPSIGNAL abc" [("abc", 11%nat)].

Definition ignoreSettings : ValidatorSettings := {| deprecatedMaintainer := IGNORE |}.

(** [FROM node / MAINTAINER me] *)
Definition fromThenMaintainer : string := "FROM node" ++ newline ++ "MAINTAINER me".

Definition fromThenMaintainerModel : Dockerfile :=
  {| getDirective := None;
     getInstructions :=
       [ instructionOn 0 "FROM" "FROM" "FROM node" [("node", 5%nat)];
         instructionOn 1 "MAINTAINER" "MAINTAINER" "MAINTAINER me" [("me", 11%nat)] ] |}.

(** A VOLUME array that is closed but holds only blanks after the
    bracket is [VOLUME [  ]; here the text stops after the blanks. *)
Definition volumeBlankArray : string := "VOLUME [  ".

(** Shell form with a bracket later on the line. *)
Definition volumeShellForm : string := "VOLUME  /data [x".

(** An argument on line 0 that starts at [column]. *)
Definition argumentAt (value : string) (column : nat) : Argument :=
  {| argValue := value;
     argRange := rangeAt 0 column 0 (column + String.length value) |}.

(** A search for flags that stops at [CMD] and at [NONE]. *)
Definition stopAtCommand (value : string) : bool :=
  String.eqb value "CMD" || String.eqb value "NONE".

(** An argument is before a position when it ends before it; a position
    is inside a range when it is between its ends; both on one line. *)
Definition endsBefore (arg : Argument) (position : Position) : bool :=
  (character (end_ (argRange arg)) <? character position)%nat.

Definition insideRange (position : Position) (range : option Range) : bool :=
  match range with
  | Some r =>
      (character (start r) <=? character position)%nat
      && (character position <=? character (end_ r))%nat
  | None => false
  end.

(** [FROM node:8], with the range of the tag. *)
Definition fromTagged : FromInstruction :=
  {| fromArguments := [argumentAt "node:8" 5];
     getImageTagRange := Some (rangeAt 0 10 0 11);
     getImageDigestRange := None |}.



(* ================================================================== *)
(** ** The validator *)

(** What one pass of the body of the [lineCheck] loop decides. *)
Inductive LineOutcome :=
| Resume (i : Z) (problems : list Diagnostic)   (* [i = ...; continue lineCheck] *)
| Return (problems : list Diagnostic).          (* [return problems] or [break lineCheck] *)

(** How the loop that collects the first word of a line ends: at the
    whitespace at [j] that closes the word, with [return problems] at the
    last character of the text, or without having run. *)
Inductive WordScan :=
| Word (j : Z) (uppercaseInstruction : string)
| EndOfText
| NoWord.

(** The result of [parseDirective]. *)
Record ParsedDirective := mkParsed { escape : ascii; dc : Z }.

(** The local variables of [parseJSON]. *)
Record JSONState := mkJSONState {
  inString : bool;
  end_seen : bool;       (* [end] *)
  last : Z;
  expectComma : bool;
  flagged : bool;
  reported : list Diagnostic   (* [problems] *)
}.

(** How a call of [validate] can end. *)
Inductive Completion :=
| Returned (problems : list Diagnostic)
| Thrown          (* a call of an undefined function *)
| OutOfFuel.      (* the scanner was still running when the fuel ran out *)

Section Validator.

(** [Util.isWhitespace] (docker.ts), [String.prototype.toUpperCase] and
    [String.prototype.replace] are taken as given. *)
Variable isWhitespace : ascii -> bool.
Variable toUpperCase : string -> string.
Variable replace : string -> string -> string -> string.

(** [this.settings] and the text of [this.document]. *)
Variable settings : ValidatorSettings.
Variable document : string.

Definition positionAt (offset : Z) : Position := TextDocument.positionAt document offset.
Definition offsetAt (p : Position) : Z := TextDocument.offsetAt document p.

(** [Util.isWhitespace(s.charAt(i))]; the validator only asks this for
    [i] inside [s]. *)
Definition isWhitespaceAt (s : string) (i : Z) : bool :=
  match JS.charAt s i with
  | Some c => isWhitespace c
  | None => false
  end.

Definition shouldSkipNewline (text : string) (offset : Z) (escape : ascii) : bool :=
  JS.charIs text offset escape
  && negb (offset =? JS.length text - 1)
  && (JS.charIs text (offset + 1) CR || JS.charIs text (offset + 1) LF).

(** *** Diagnostic factory *)

Definition dockerProblems : list (string * string) :=
  [ ("directiveUnknown", "Unknown directive: ${0}");
    ("directiveEscapeInvalid", "invalid ESCAPE '${0}'. Must be ` or \");
    ("noSourceImage", "No source image provided with `FROM`");
    ("invalidPort", "Invalid containerPort: ${0}");
    ("invalidStopSignal", "Invalid stop signal");
    ("instructionExtraArgument", "Instruction has an extra argument");
    ("instructionMissingArgument", "Instruction has no arguments");
    ("instructionUnknown", "Unknown instruction: ${0}");
    ("instructionCasing", "Instructions should be written in uppercase letters");
    ("deprecatedMaintainer", "MAINTAINER has been deprecated");
    ("unexpectedToken", "Unexpected token") ].

(** [dockerProblems[key]]; a missing key gives [undefined]. *)
Fixpoint property (table : list (string * string)) (key : string) : option string :=
  match table with
  | [] => None
  | (k, v) :: rest => if String.eqb k key then Some v else property rest key
  end.

Definition formatMessage (text variable : string) : string :=
  replace text "${0}" variable.

Definition getDiagnosticMessage_DirectiveUnknown (directive : string) : option string :=
  option_map (fun t => formatMessage t directive) (property dockerProblems "directiveUnknown").

Definition getDiagnosticMessage_DirectiveEscapeInvalid (value : string) : option string :=
  option_map (fun t => formatMessage t value) (property dockerProblems "directiveEscapeInvalid").

Definition getDiagnosticMessage_NoSourceImage : option string :=
  property dockerProblems "noSourceImage".

Definition getDiagnosticMessage_InvalidPort (port : string) : option string :=
  option_map (fun t => formatMessage t port) (property dockerProblems "invalidPort").

Definition getDiagnosticMessage_InvalidStopsignal : option string :=
  property dockerProblems "invalidStopsignal".

Definition getDiagnosticMessage_InstructionExtraArgument : option string :=
  property dockerProblems "instructionExtraArgument".

Definition getDiagnosticMessage_InstructionMissingArgument : option string :=
  property dockerProblems "instructionMissingArgument".

Definition getDiagnosticMessage_InstructionUnknown (instruction : string) : option string :=
  option_map (fun t => formatMessage t instruction) (property dockerProblems "instructionUnknown").

Definition getDiagnosticMessage_InstructionCasing : option string :=
  property dockerProblems "instructionCasing".

Definition getDiagnosticMessage_DeprecatedMaintainer : option string :=
  property dockerProblems "deprecatedMaintainer".

Definition getDiagnosticMessage_UnexpectedToken : option string :=
  property dockerProblems "unexpectedToken".

(** [code] is optional; [!code] also holds for [DEFAULT], which is 0. *)
Definition createDiagnostic (severity : DiagnosticSeverity) (start end_ : Z)
    (description : option string) (code : option ValidationCode) : Diagnostic :=
  let code := match code with Some c => c | None => DEFAULT end in
  {| range := {| start := positionAt start; end_ := positionAt end_ |};
     message := description;
     severity := severity;
     code := code;
     source := "dockerfile-lsp" |}.

Definition createError (start end_ : Z) (description : option string)
    (code : option ValidationCode) : Diagnostic :=
  createDiagnostic Error start end_ description code.

Definition createWarning (start end_ : Z) (description : option string)
    (code : option ValidationCode) : Diagnostic :=
  createDiagnostic Warning start end_ description code.

Definition createUnknownDirective (start end_ : Z) (directive : string) : Diagnostic :=
  createError start end_ (getDiagnosticMessage_DirectiveUnknown directive) (Some UNKNOWN_DIRECTIVE).

Definition createInvalidEscapeDirective (start end_ : Z) (value : string) : Diagnostic :=
  createError start end_ (getDiagnosticMessage_DirectiveEscapeInvalid value) (Some INVALID_ESCAPE_DIRECTIVE).

Definition createInvalidPort (start end_ : Z) (port : string) : Diagnostic :=
  createError start end_ (getDiagnosticMessage_InvalidPort port) (Some INVALID_PORT).

Definition createInvalidStopSignal (start end_ : Z) : Diagnostic :=
  createError start end_ getDiagnosticMessage_InvalidStopsignal (Some INVALID_STOPSIGNAL).

Definition createMissingArgument (start end_ : Z) : Diagnostic :=
  createError start end_ getDiagnosticMessage_InstructionMissingArgument (Some MISSING_ARGUMENT).

Definition createExtraArgument (start end_ : Z) : Diagnostic :=
  createError start end_ getDiagnosticMessage_InstructionExtraArgument (Some EXTRA_ARGUMENT).

Definition createUnexpectedToken (start end_ : Z) : Diagnostic :=
  createError start end_ getDiagnosticMessage_UnexpectedToken None.

Definition createNoSourceImage (start end_ : Z) : Diagnostic :=
  createError start end_ getDiagnosticMessage_NoSourceImage (Some NO_SOURCE_IMAGE).

Definition createUnknownInstruction (start end_ : Z) (instruction : string) : Diagnostic :=
  createError start end_ (getDiagnosticMessage_InstructionUnknown instruction) (Some UNKNOWN_INSTRUCTION).

Definition createUppercaseInstruction (start end_ : Z) : Diagnostic :=
  createWarning start end_ getDiagnosticMessage_InstructionCasing (Some LOWERCASE).

(** [null] is [None]. *)
Definition createMaintainerDeprecated (start end_ : Z) : option Diagnostic :=
  let severity :=
    match deprecatedMaintainer settings with
    | ERROR => Some Error
    | WARNING => Some Warning
    | IGNORE => None
    end in
  match severity with
  | Some severity =>
      Some (createDiagnostic severity start end_
              getDiagnosticMessage_DeprecatedMaintainer (Some DEPRECATED_MAINTAINER))
  | None => None
  end.

(** *** Escape directive *)

Definition parseDirective (dockerfile : Dockerfile) (problems : list Diagnostic)
    : ParsedDirective * list Diagnostic :=
  match getDirective dockerfile with
  | None => ({| escape := BACKSLASH; dc := 0 |}, problems)
  | Some directive =>
      let directiveName := getDirectiveName directive in
      let value := getValue directive in
      let problems :=
        if negb (String.eqb directiveName DIRECTIVE_ESCAPE) then
          let range := getNameRange directive in
          problems ++ [createUnknownDirective (offsetAt (start range)) (offsetAt (end_ range)) directiveName]
        else if negb (String.eqb value "\") && negb (String.eqb value "`")
                && negb (String.eqb value EmptyString) then
          let range := getValueRange directive in
          problems ++ [createInvalidEscapeDirective (offsetAt (start range)) (offsetAt (end_ range)) value]
        else problems in
      ({| escape := if String.eqb value "\" then BACKSLASH
                    else if String.eqb value "`" then BACKTICK
                    else BACKSLASH;
          dc := offsetAt (end_ (getRange directive)) |},
       problems)
  end.

(** *** Argument presence *)

(** The body of the loop of [checkArguments]; the loop leaves with the
    value of [missing]. *)
Definition checkArgumentsBody (args : string) (escapeChar : ascii)
    (_ : unit) (i : Z) : LoopStep unit bool :=
  if isWhitespaceAt args i then Next tt i
  else if JS.charIs args i escapeChar then
    if JS.charIs args (i + 1) CR || JS.charIs args (i + 1) LF
    then Next tt (i + 1)
    else Leave false
  else Leave false.

(** The final value of [missing]. *)
Definition argumentsMissing (args : string) (escapeChar : ascii) : bool :=
  forLoop (loopFuel (JS.length args) 0) (JS.length args)
    (checkArgumentsBody args escapeChar) (fun _ _ => true) tt 0.

Definition checkArguments (escapeChar : ascii) (instruction : Instruction)
    (problems : list Diagnostic) : bool * list Diagnostic :=
  let range := getInstructionRange instruction in
  let args := JS.substringFrom (getTextContent instruction)
                (JS.length (getInstruction instruction)) in
  if argumentsMissing args escapeChar then
    (false, problems ++ [createMissingArgument (offsetAt (start range)) (offsetAt (end_ range))])
  else (true, problems).

(** *** Single and multiple arguments *)

(** The loop [for (let arg of args)] of the multi-argument mode.
    [createDiagnostic] is optional in the source; calling it when it is
    [undefined] throws, which is [None] here. *)
Fixpoint checkEachArgument (args : list Argument) (problems : list Diagnostic)
    (validate : string -> bool)
    (createDiagnostic : option (Z -> Z -> option string -> Diagnostic))
    : option (list Diagnostic) :=
  match args with
  | [] => Some problems
  | arg :: rest =>
      if negb (validate (argValue arg)) then
        let range := argRange arg in
        match createDiagnostic with
        | Some create =>
            checkEachArgument rest
              (problems ++ [create (offsetAt (start range)) (offsetAt (end_ range)) (Some (argValue arg))])
              validate createDiagnostic
        | None => None
        end
      else checkEachArgument rest problems validate createDiagnostic
  end.

Definition checkSingleArgument (escapeChar : ascii) (instruction : Instruction)
    (problems : list Diagnostic) (singleOnly : bool) (validate : string -> bool)
    (createDiagnostic : option (Z -> Z -> option string -> Diagnostic))
    : option (list Diagnostic) :=
  let args := getArgments instruction escapeChar in
  match args with
  | [] => Some problems
  | arg0 :: others =>
      if singleOnly then
        let first :=
          if negb (validate (argValue arg0)) then
            let range := argRange arg0 in
            match createDiagnostic with
            | Some create =>
                Some (problems ++ [create (offsetAt (start range)) (offsetAt (end_ range)) None])
            | None => None
            end
          else Some problems in
        match first with
        | Some problems =>
            match others with
            | arg1 :: _ =>
                let range := argRange arg1 in
                Some (problems ++ [createExtraArgument (offsetAt (start range)) (offsetAt (end_ range))])
            | [] => Some problems
            end
        | None => None
        end
      else checkEachArgument args problems validate createDiagnostic
  end.

(** [for (i = 0; i < argument.length; i++) if (bad(argument.charAt(i))) return false]:
    [true] when the loop runs to its end. *)
Fixpoint noCharacter (bad : ascii -> bool) (argument : string) : bool :=
  match argument with
  | EmptyString => true
  | String c rest => if bad c then false else noCharacter bad rest
  end.

(** ['0' > c || '9' < c] *)
Definition notDigit (c : ascii) : bool :=
  JS.charLt c "0"%char || JS.charLt "9"%char c.

(** The predicate passed for FROM, WORKDIR and USER. *)
Definition validateAny (argument : string) : bool := true.

(** The predicate passed for STOPSIGNAL; [argument.indexOf("SIG") === 0]
    says that the argument starts with SIG. *)
Definition validateStopSignal (argument : string) : bool :=
  if String.prefix "SIG" argument then true
  else noCharacter notDigit argument.

(** The predicate passed for EXPOSE. *)
Definition validatePort (argument : string) : bool :=
  if noCharacter (fun c => negb (Ascii.eqb c "-"%char) && notDigit c) argument
  then negb (JS.charIs argument 0 "-"%char)
       && negb (JS.charIs argument (JS.length argument - 1) "-"%char)
  else false.

(** [this.createInvalidStopSignal.bind(this)], [this.createInvalidPort.bind(this)]
    as they are called by [checkSingleArgument]; [undefined] as third
    argument of [createInvalidPort] cannot happen, EXPOSE uses the
    multi-argument mode. *)
Definition invalidStopSignalAt (start end_ : Z) (_ : option string) : Diagnostic :=
  createInvalidStopSignal start end_.

Definition invalidPortAt (start end_ : Z) (port : option string) : Diagnostic :=
  createInvalidPort start end_
    (match port with Some port => port | None => "undefined" end).

(** *** Document-model pass *)

Definition isSingleKeyword (keyword : string) : bool :=
  String.eqb keyword "FROM" || String.eqb keyword "WORKDIR" || String.eqb keyword "USER".

(** The body of [for (let instruction of dockerfile.getInstructions())]. *)
Definition checkInstruction (keywords : list string) (escape : ascii)
    (instruction : Instruction) (problems : list Diagnostic) : option (list Diagnostic) :=
  let keyword := getKeyword instruction in
  let range := getInstructionRange instruction in
  if JS.notIn keyword keywords then
    Some (problems ++ [createUnknownInstruction (offsetAt (start range)) (offsetAt (end_ range)) keyword])
  else if negb (String.eqb keyword (getInstruction instruction)) then
    Some (problems ++ [createUppercaseInstruction (offsetAt (start range)) (offsetAt (end_ range))])
  else
    let problems :=
      if String.eqb keyword "MAINTAINER" then
        match createMaintainerDeprecated (offsetAt (start range)) (offsetAt (start range)) with
        | Some diagnostic => problems ++ [diagnostic]
        | None => problems
        end
      else problems in
    let (present, problems) := checkArguments escape instruction problems in
    if present then
      if isSingleKeyword keyword then
        checkSingleArgument escape instruction problems true validateAny None
      else if String.eqb keyword "STOPSIGNAL" then
        checkSingleArgument escape instruction problems true validateStopSignal
          (Some invalidStopSignalAt)
      else if String.eqb keyword "EXPOSE" then
        checkSingleArgument escape instruction problems false validatePort
          (Some invalidPortAt)
      else Some problems
    else Some problems.

Fixpoint checkInstructions (keywords : list string) (escape : ascii)
    (instructions : list Instruction) (problems : list Diagnostic)
    : option (list Diagnostic) :=
  match instructions with
  | [] => Some problems
  | instruction :: rest =>
      match checkInstruction keywords escape instruction problems with
      | Some problems => checkInstructions keywords escape rest problems
      | None => None
      end
  end.

(** The check that the first instruction is a FROM. *)
Definition checkSourceImage (instructions : list Instruction)
    (problems : list Diagnostic) : list Diagnostic :=
  match instructions with
  | [] => problems ++ [createNoSourceImage 0 0]
  | first :: _ =>
      if negb (String.eqb (getKeyword first) "FROM") then
        let range := getInstructionRange first in
        problems ++ [createNoSourceImage (offsetAt (start range)) (offsetAt (end_ range))]
      else problems
  end.

(** *** JSON arrays (VOLUME) *)

(** [i++; if (text.charAt(i) === '\r' && text.charAt(i + 1) === '\n') i++;]
    the value of [i] with which the loop continues after a continuation. *)
Definition skipContinuation (text : string) (i : Z) : Z :=
  let i := i + 1 in
  if JS.charIs text i CR && JS.charIs text (i + 1) LF then i + 1 else i.

Definition QUOTE : ascii := "034"%char.

(** The body of the loop of [parseJSON]. *)
Definition parseJSONBody (escape : ascii) (text : string)
    (st : JSONState) (i : Z) : LoopStep JSONState (Z * list Diagnostic) :=
  if negb (inString st) && shouldSkipNewline text i escape then
    Next st (skipContinuation text i)
  else if JS.charIs text i QUOTE then
    if expectComma st && negb (flagged st) then
      Leave (i, reported st ++ [createUnexpectedToken i (i + 1)])
    else
      let inString' := negb (inString st) in
      Next {| inString := inString'; end_seen := end_seen st; last := i;
              expectComma := negb inString'; flagged := flagged st;
              reported := reported st |} i
  else if JS.charIs text i SPACE || JS.charIs text i TAB then
    Next st i
  else if JS.charIs text i "]"%char then
    Next {| inString := inString st;
            end_seen := if negb (inString st) then true else end_seen st;
            last := i; expectComma := expectComma st; flagged := flagged st;
            reported := reported st |} i
  else if JS.charIs text i CR || JS.charIs text i LF then
    Leave (i, if negb (end_seen st) && negb (flagged st)
              then reported st ++ [createUnexpectedToken (last st) (last st + 1)]
              else reported st)
  else if JS.charIs text i ","%char then
    Next {| inString := inString st; end_seen := end_seen st; last := i;
            expectComma := if expectComma st then false else expectComma st;
            flagged := flagged st; reported := reported st |} i
  else
    if negb (inString st) && negb (flagged st) then
      Next {| inString := inString st; end_seen := end_seen st; last := i;
              expectComma := expectComma st; flagged := true;
              reported := reported st ++ [createUnexpectedToken i (i + 1)] |} i
    else
      Next {| inString := inString st; end_seen := end_seen st; last := i;
              expectComma := expectComma st; flagged := flagged st;
              reported := reported st |} i.

(** The code of [parseJSON] that follows its loop. *)
Definition parseJSONAfter (st : JSONState) (_ : Z) : Z * list Diagnostic :=
  (last st + 1,
   if negb (flagged st) && (inString st || negb (end_seen st))
   then reported st ++ [createUnexpectedToken (last st) (last st + 1)]
   else reported st).

Definition parseJSONInit (problems : list Diagnostic) : JSONState :=
  {| inString := false; end_seen := false; last := -1;
     expectComma := false; flagged := false; reported := problems |}.

(** The loop of [parseJSON] from a given state and offset. *)
Definition parseJSONFrom (escape : ascii) (text : string) (st : JSONState) (i : Z)
    : Z * list Diagnostic :=
  forLoop (loopFuel (JS.length text) i) (JS.length text)
    (parseJSONBody escape text) parseJSONAfter st i.

Definition parseJSON (escape : ascii) (offset : Z) (text : string)
    (problems : list Diagnostic) : Z * list Diagnostic :=
  parseJSONFrom escape text (parseJSONInit problems) (offset + 1).

(** The body of the loop of [parseVOLUME]; the loop state is [json]. *)
Definition parseVOLUMEBody (escape : ascii) (text : string) (problems : list Diagnostic)
    (json : bool) (i : Z) : LoopStep bool (Z * list Diagnostic) :=
  if shouldSkipNewline text i escape then Next json (skipContinuation text i)
  else if JS.charIs text i CR || JS.charIs text i LF then Leave (i, problems)
  else if JS.charIs text i "["%char && json then Leave (parseJSON escape i text problems)
  else if negb (JS.charIs text i SPACE) && negb (JS.charIs text i TAB) then Next false i
  else Next json i.

Definition parseVOLUME (escape : ascii) (lineStart offset : Z) (text : string)
    (problems : list Diagnostic) : Z * list Diagnostic :=
  forLoop (loopFuel (JS.length text) (offset + 1)) (JS.length text)
    (parseVOLUMEBody escape text problems)
    (fun _ _ => (JS.length text, problems)) true (offset + 1).

(** *** Structural scanner *)

(** The loop that skips a comment: from [i + 1] to the next line break. *)
Definition skipCommentBody (text : string) (problems : list Diagnostic)
    (_ : unit) (j : Z) : LoopStep unit LineOutcome :=
  if JS.charIs text j CR || JS.charIs text j LF
  then Leave (Resume j problems)
  else Next tt j.

Definition skipComment (text : string) (i : Z) (problems : list Diagnostic) : LineOutcome :=
  forLoop (loopFuel (JS.length text) (i + 1)) (JS.length text)
    (skipCommentBody text problems) (fun _ _ => Return problems) tt (i + 1).

(** The loop run for MAINTAINER, FROM, EXPOSE, STOPSIGNAL, USER and
    WORKDIR, and again for a word that is not a keyword: to the next line
    break that is not part of a continuation. *)
Definition skipInstructionBody (escape : ascii) (text : string)
    (problems : list Diagnostic) (_ : unit) (k : Z) : LoopStep unit LineOutcome :=
  if shouldSkipNewline text k escape then Next tt (k + 1)
  else if JS.charIs text k CR || JS.charIs text k LF
  then Leave (Resume k problems)
  else Next tt k.

Definition skipInstruction (escape : ascii) (text : string) (j : Z)
    (problems : list Diagnostic) : LineOutcome :=
  forLoop (loopFuel (JS.length text) (j + 1)) (JS.length text)
    (skipInstructionBody escape text problems) (fun _ _ => Return problems) tt (j + 1).

(** The loop run for the other keywords; the loop state is [check]. *)
Definition checkInstructionLineBody (escape : ascii) (text : string)
    (problems : list Diagnostic) (check : bool) (k : Z) : LoopStep bool LineOutcome :=
  if shouldSkipNewline text k escape then Next check (skipContinuation text k)
  else if JS.charIs text k CR || JS.charIs text k LF then Leave (Resume k problems)
  else if negb (JS.charIs text k SPACE) && negb (JS.charIs text k TAB) then Next true k
  else Next check k.

Definition checkInstructionLine (escape : ascii) (text : string) (j : Z)
    (problems : list Diagnostic) : LineOutcome :=
  forLoop (loopFuel (JS.length text) (j + 1)) (JS.length text)
    (checkInstructionLineBody escape text problems) (fun _ _ => Return problems)
    false (j + 1).

Definition plainKeywords : list string :=
  ["MAINTAINER"; "FROM"; "EXPOSE"; "STOPSIGNAL"; "USER"; "WORKDIR"].

(** [switch (uppercaseInstruction)] with the jump that follows it. *)
Definition dispatch (keywords : list string) (escape : ascii) (text : string)
    (i j : Z) (uppercaseInstruction : string) (problems : list Diagnostic) : LineOutcome :=
  if existsb (String.eqb uppercaseInstruction) plainKeywords then
    skipInstruction escape text j problems
  else if String.eqb uppercaseInstruction "VOLUME" then
    let (jump, problems) := parseVOLUME escape i j text problems in
    Resume jump problems
  else if JS.notIn uppercaseInstruction keywords then
    skipInstruction escape text j problems
  else
    checkInstructionLine escape text j problems.

(** The body of the loop that collects the first word of a line; the
    loop state is [(instruction, start)].  The loop leaves with the
    offset [j] and [uppercaseInstruction] on which the [switch] is run,
    or at the end of the text. *)
Definition wordBody (escape : ascii) (text : string)
    (st : string * Z) (j : Z) : LoopStep (string * Z) WordScan :=
  let (instruction, start) := st in
  if shouldSkipNewline text j escape then
    let instruction := (instruction ++ JS.substring text start j)%string in
    let j := skipContinuation text j in
    if j =? JS.length text - 1 then Leave EndOfText
    else Next (instruction, j + 1) j
  else if isWhitespaceAt text j || (j =? JS.length text - 1) then
    let instruction :=
      if (j =? JS.length text - 1) && negb (isWhitespaceAt text j)
      then (instruction ++ JS.substring text start (j + 1))%string
      else (instruction ++ JS.substring text start j)%string in
    let uppercaseInstruction := toUpperCase instruction in
    if j =? JS.length text - 1 then Leave EndOfText
    else Leave (Word j uppercaseInstruction)
  else Next (instruction, start) j.

Definition scanWord (escape : ascii) (text : string) (i : Z) : WordScan :=
  forLoop (loopFuel (JS.length text) (i + 1)) (JS.length text)
    (wordBody escape text) (fun _ _ => NoWord) (EmptyString, i) (i + 1).

(** The body of the [lineCheck] loop. *)
Definition lineStep (keywords : list string) (escape : ascii) (text : string)
    (i : Z) (problems : list Diagnostic) : LineOutcome :=
  if isWhitespaceAt text i then Resume i problems
  else if JS.charIs text i "#"%char then skipComment text i problems
  else
    match scanWord escape text i with
    | Word j uppercaseInstruction =>
        dispatch keywords escape text i j uppercaseInstruction problems
    | EndOfText => Return problems
    | NoWord => Resume i problems
    end.

(** The [lineCheck] loop.  Its body can set [i] to an earlier offset, so
    the number of its iterations is not bounded by the text: [None] says
    that [fuel] iterations did not finish the scan. *)
Fixpoint lineCheck (fuel : nat) (keywords : list string) (escape : ascii)
    (text : string) (i : Z) (problems : list Diagnostic) : option (list Diagnostic) :=
  match fuel with
  | O => None
  | S fuel' =>
      if i <? JS.length text then
        match lineStep keywords escape text i problems with
        | Resume i' problems' => lineCheck fuel' keywords escape text (i' + 1) problems'
        | Return problems' => Some problems'
        end
      else Some problems
  end.

(** *** [validate] *)

(** [dockerfile] is what [parser.parse(document)] returns. *)
Definition validate (fuel : nat) (keywords : list string) (dockerfile : Dockerfile)
    : Completion :=
  let text := document in
  let (parsed, problems) := parseDirective dockerfile [] in
  let escape := escape parsed in
  let dc := dc parsed in
  let instructions := getInstructions dockerfile in
  let problems := checkSourceImage instructions problems in
  match checkInstructions keywords escape instructions problems with
  | None => Thrown
  | Some problems =>
      match lineCheck fuel keywords escape text dc problems with
      | Some problems => Returned problems
      | None => OutOfFuel
      end
  end.

(* ================================================================== *)
(** ** Vocabulary of the statements *)

(** The escape character is the backslash or the backtick. *)
Definition isEscapeChar (c : ascii) : Prop := c = BACKSLASH \/ c = BACKTICK.

(** A range is well formed in the document: its ends are ordered and
    both lie within the document. *)
Definition rangeOk (r : Range) : Prop :=
  pos_le (start r) (end_ r)
  /\ TextDocument.inBounds document (start r)
  /\ TextDocument.inBounds document (end_ r).

(** The range of the document between two offsets, as [createDiagnostic]
    builds it. *)
Definition rangeOf (start end_ : Z) : Range :=
  {| start := positionAt start; end_ := positionAt end_ |}.

(** The range a diagnostic gets when the validator reports it at a range
    [r] of the instruction model: both ends go through [offsetAt] and
    back through [positionAt]. *)
Definition reportedAt (r : Range) : Range :=
  rangeOf (offsetAt (start r)) (offsetAt (end_ r)).

(** The ranges of the instruction model that the validator reads have
    ordered ends. *)
Definition instructionRangesOrdered (instruction : Instruction) : Prop :=
  pos_le (start (getInstructionRange instruction)) (end_ (getInstructionRange instruction))
  /\ forall escape, Forall (fun arg => pos_le (start (argRange arg)) (end_ (argRange arg)))
                      (getArgments instruction escape).

Definition directiveRangesOrdered (directive : Directive) : Prop :=
  pos_le (start (getNameRange directive)) (end_ (getNameRange directive))
  /\ pos_le (start (getValueRange directive)) (end_ (getValueRange directive)).

Definition modelRangesOrdered (dockerfile : Dockerfile) : Prop :=
  match getDirective dockerfile with
  | Some directive => directiveRangesOrdered directive
  | None => True
  end
  /\ Forall instructionRangesOrdered (getInstructions dockerfile).

(** [ps'] is [ps] followed by diagnostics that all satisfy [P]. *)
Definition extends (P : Diagnostic -> Prop) (ps ps' : list Diagnostic) : Prop :=
  exists new, ps' = ps ++ new /\ Forall P new.

(** The diagnostics the document-model pass can push for one instruction. *)
Inductive emittedFor (escape : ascii) (instruction : Instruction) : Diagnostic -> Prop :=
| emitted_unknown :
    emittedFor escape instruction
      (createUnknownInstruction
         (offsetAt (start (getInstructionRange instruction)))
         (offsetAt (end_ (getInstructionRange instruction)))
         (getKeyword instruction))
| emitted_casing :
    emittedFor escape instruction
      (createUppercaseInstruction
         (offsetAt (start (getInstructionRange instruction)))
         (offsetAt (end_ (getInstructionRange instruction))))
| emitted_maintainer d :
    createMaintainerDeprecated
      (offsetAt (start (getInstructionRange instruction)))
      (offsetAt (start (getInstructionRange instruction))) = Some d ->
    emittedFor escape instruction d
| emitted_missing :
    emittedFor escape instruction
      (createMissingArgument
         (offsetAt (start (getInstructionRange instruction)))
         (offsetAt (end_ (getInstructionRange instruction))))
| emitted_extra arg :
    In arg (getArgments instruction escape) ->
    emittedFor escape instruction
      (createExtraArgument (offsetAt (start (argRange arg))) (offsetAt (end_ (argRange arg))))
| emitted_stopsignal arg :
    In arg (getArgments instruction escape) ->
    emittedFor escape instruction
      (createInvalidStopSignal (offsetAt (start (argRange arg))) (offsetAt (end_ (argRange arg))))
| emitted_port arg :
    In arg (getArgments instruction escape) ->
    emittedFor escape instruction
      (createInvalidPort (offsetAt (start (argRange arg))) (offsetAt (end_ (argRange arg)))
         (argValue arg)).

(** A diagnostic of the structural scanner: an unexpected token one
    character wide. *)
Definition isUnexpectedToken (d : Diagnostic) : Prop :=
  exists a, d = createUnexpectedToken a (a + 1).


(** The diagnostics an outcome of the [lineCheck] body carries. *)
Definition problemsOf (o : LineOutcome) : list Diagnostic :=
  match o with
  | Resume _ problems => problems
  | Return problems => problems
  end.

(** What an invocation of a reporting function adds to [problems]:
    diagnostics of the scanner, at most one of them. *)
Definition addsAtMostOne (problems problems' : list Diagnostic) : Prop :=
  exists new, problems' = problems ++ new
              /\ Forall isUnexpectedToken new /\ (List.length new <= 1)%nat.

(** The invariant of the loop of [parseJSON] on what it has reported
    since it was called with [problems]: nothing before [flagged] is
    set, one diagnostic after. *)
Definition jsonInv (problems : list Diagnostic) (st : JSONState) : Prop :=
  exists new, reported st = problems ++ new
              /\ Forall isUnexpectedToken new
              /\ (if flagged st then (List.length new <= 1)%nat else new = []).

(** Every turn of [lineCheck] resumes at or after the offset it started
    from. *)
Definition progresses (keywords : list string) (escape : ascii) (text : string) : Prop :=
  forall i problems,
    match lineStep keywords escape text i problems with
    | Resume i' _ => i <= i'
    | Return _ => True
    end.

(** A body never moves the loop index backwards. *)
Definition advancing {S R : Type} (body : S -> Z -> LoopStep S R) : Prop :=
  forall s k s' k', body s k = Next s' k' -> k <= k'.

(** [c] is an ASCII digit: ['0' <= c] and [c <= '9']. *)
Definition isDigit (c : ascii) : Prop :=
  (N_of_ascii "0"%char <= N_of_ascii c <= N_of_ascii "9"%char)%N.

(** The characters of a string. *)
Fixpoint characters (s : string) : list ascii :=
  match s with
  | EmptyString => []
  | String c rest => c :: characters rest
  end.

(** Two results of a reporting function that differ by a prefix [pre] of
    the diagnostics. *)
Definition framedResult (pre : list Diagnostic) (r r' : Z * list Diagnostic) : Prop :=
  fst r = fst r' /\ snd r = pre ++ snd r'.

Definition framedOutcome (pre : list Diagnostic) (o o' : LineOutcome) : Prop :=
  match o, o' with
  | Resume i ps, Resume i' ps' => i = i' /\ ps = pre ++ ps'
  | Return ps, Return ps' => ps = pre ++ ps'
  | _, _ => False
  end.

Definition framedState (pre : list Diagnostic) (st st' : JSONState) : Prop :=
  inString st = inString st' /\ end_seen st = end_seen st' /\ last st = last st'
  /\ expectComma st = expectComma st' /\ flagged st = flagged st'
  /\ reported st = pre ++ reported st'.

(** The text of an array of strings as it is usually written, with a
    comma and a space between the strings. *)
Fixpoint renderStrings (strings : list string) : string :=
  match strings with
  | [] => EmptyString
  | s :: rest =>
      match rest with
      | [] => quote ++ s ++ quote
      | _ :: _ => quote ++ s ++ quote ++ ", " ++ renderStrings rest
      end
  end.

Definition renderArray (strings : list string) : string :=
  "[" ++ renderStrings strings ++ "]".

(** The text between the quotes of a string of an array: no double
    quote and no line break. *)
Definition stringBody (s : string) : Prop :=
  Forall (fun c => c <> QUOTE /\ c <> CR /\ c <> LF) (characters s).

(** The state of [parseJSON] after the quote at [l] that closes a string. *)
Definition closedAt (st : JSONState) (l : Z) : JSONState :=
  {| inString := false; end_seen := end_seen st; last := l;
     expectComma := true; flagged := flagged st; reported := reported st |}.

(** A word of the scanner: no whitespace and no escape character. *)
Definition plainWord (escape : ascii) (w : string) : Prop :=
  Forall (fun x => isWhitespace x = false /\ x <> escape) (characters w).

(** A continuation: the escape character and a line break, a line feed
    with or without a carriage return before it. *)
Definition continuation (escape : ascii) (carriageReturn : bool) : string :=
  String escape
    (if carriageReturn then String CR (String LF EmptyString)
     else String LF EmptyString).

(** Pieces of a word, each after a continuation, as they stand in the
    text and as they read. *)
Fixpoint continuedWord (escape : ascii) (pieces : list (bool * string)) : string :=
  match pieces with
  | [] => EmptyString
  | (carriageReturn, w) :: rest =>
      (continuation escape carriageReturn ++ w ++ continuedWord escape rest)%string
  end.

Fixpoint joinedWord (pieces : list (bool * string)) : string :=
  match pieces with
  | [] => EmptyString
  | (_, w) :: rest => (w ++ joinedWord rest)%string
  end.










(* ================================================================== *)
(** ** Bounded loops: fuel and invariants *)

Lemma loopFuel_ge (len k : Z) : len <= k -> loopFuel len k = O.
Proof. unfold loopFuel. lia. Qed.

Lemma loopFuel_lt (len k : Z) : k < len -> loopFuel len k = S (loopFuel len (k + 1)).
Proof. unfold loopFuel. lia. Qed.

Lemma loopFuel_mono (len k k' : Z) : k <= k' -> (loopFuel len k' <= loopFuel len k)%nat.
Proof. unfold loopFuel. lia. Qed.

(** Two amounts of fuel that both cover the rest of the text give the
    same result. *)
Lemma forLoop_fuel {S R : Type} (len : Z) (body : S -> Z -> LoopStep S R)
    (after : S -> Z -> R) :
  advancing body ->
  forall f1 f2 s k,
    (loopFuel len k <= f1)%nat -> (loopFuel len k <= f2)%nat ->
    forLoop f1 len body after s k = forLoop f2 len body after s k.
Proof.
  intros Hadv f1.
  induction f1 as [|f1 IH]; intros f2 s k H1 H2.
  - assert (Hk : len <= k) by (unfold loopFuel in H1; lia).
    destruct f2 as [|f2]; simpl; [reflexivity|].
    destruct (Z.ltb_spec k len); [lia|reflexivity].
  - simpl. destruct (Z.ltb_spec k len) as [Hlt|Hge].
    + destruct f2 as [|f2]; [rewrite (loopFuel_lt _ _ Hlt) in H2; lia|].
      simpl. destruct (Z.ltb_spec k len); [|lia].
      destruct (body s k) as [s' k'|r] eqn:Hb; [|reflexivity].
      apply Hadv in Hb.
      rewrite (loopFuel_lt _ _ Hlt) in H1, H2.
      pose proof (loopFuel_mono len (k + 1) (k' + 1) ltac:(lia)).
      apply IH; lia.
    + destruct f2 as [|f2]; simpl; [reflexivity|].
      destruct (Z.ltb_spec k len); [lia|reflexivity].
Qed.

(** One turn of a loop that is given the fuel of the remaining text. *)
Lemma forLoop_step {S R : Type} (len : Z) (body : S -> Z -> LoopStep S R)
    (after : S -> Z -> R) (s : S) (k : Z) :
  advancing body -> k < len ->
  forLoop (loopFuel len k) len body after s k =
  match body s k with
  | Next s' k' => forLoop (loopFuel len (k' + 1)) len body after s' (k' + 1)
  | Leave r => r
  end.
Proof.
  intros Hadv Hlt. rewrite (loopFuel_lt _ _ Hlt). simpl.
  destruct (Z.ltb_spec k len); [|lia].
  destruct (body s k) as [s' k'|r] eqn:Hb; [|reflexivity].
  apply Hadv in Hb.
  apply forLoop_fuel; [assumption| |lia].
  apply loopFuel_mono. lia.
Qed.

Lemma forLoop_done {S R : Type} (fuel : nat) (len : Z) (body : S -> Z -> LoopStep S R)
    (after : S -> Z -> R) (s : S) (k : Z) :
  len <= k -> forLoop fuel len body after s k = after s k.
Proof.
  intros Hge. destruct fuel; simpl; [reflexivity|].
  destruct (Z.ltb_spec k len); [lia|reflexivity].
Qed.

(** Invariant rule: [P] holds of the loop state on entry and is kept by
    every turn; [Q] holds of whatever the loop leaves with. *)
Lemma forLoop_invariant {S R : Type} (P : S -> Z -> Prop) (Q : R -> Prop)
    (len : Z) (body : S -> Z -> LoopStep S R) (after : S -> Z -> R) :
  (forall s k, P s k -> k < len ->
     match body s k with
     | Next s' k' => P s' (k' + 1)
     | Leave r => Q r
     end) ->
  (forall s k, P s k -> Q (after s k)) ->
  forall fuel s k, P s k -> Q (forLoop fuel len body after s k).
Proof.
  intros Hbody Hafter fuel.
  induction fuel as [|fuel IH]; intros s k HP; simpl.
  - apply Hafter, HP.
  - destruct (Z.ltb_spec k len) as [Hlt|Hge]; [|apply Hafter, HP].
    specialize (Hbody s k HP Hlt).
    destruct (body s k) as [s' k'|r]; [apply IH, Hbody|exact Hbody].
Qed.

(* ================================================================== *)
(** ** The text accessor *)

Lemma JS_length_String (c : ascii) (s : string) :
  JS.length (String c s) = JS.length s + 1.
Proof. unfold JS.length. simpl String.length. lia. Qed.

Lemma JS_length_nonneg (s : string) : 0 <= JS.length s.
Proof. unfold JS.length. lia. Qed.

(** Line offsets are sorted and lie within the part of the text they
    are computed from. *)
Lemma lineOffsetsFrom_sorted (n : nat) :
  forall s i b, (String.length s <= n)%nat ->
    StronglySorted Z.le (TextDocument.lineOffsetsFrom s i b) /\
    Forall (fun x => i <= x <= i + JS.length s) (TextDocument.lineOffsetsFrom s i b).
Proof.
  induction n as [|n IH]; intros s i b Hlen.
  - destruct s; [|simpl in Hlen; lia].
    simpl. destruct (b && (0 <? i)); split; repeat constructor; cbn; lia.
  - destruct s as [|ch rest].
    + simpl. destruct (b && (0 <? i)); split; repeat constructor; cbn; lia.
    + simpl in Hlen.
      assert (Htail : exists tl,
                 TextDocument.lineOffsetsFrom (String ch rest) i b =
                 (if b then [i] else []) ++ tl /\
                 StronglySorted Z.le tl /\
                 Forall (fun x => i + 1 <= x <= i + JS.length (String ch rest)) tl).
      { simpl. destruct rest as [|ch' rest'].
        - eexists; split; [reflexivity|].
          destruct (IH EmptyString (i + 1) (Ascii.eqb ch CR || Ascii.eqb ch LF)
                      ltac:(simpl; lia)) as [Hs Hb].
          split; [exact Hs|].
          eapply Forall_impl; [|exact Hb]. cbn. intros; lia.
        - destruct (Ascii.eqb ch CR && Ascii.eqb ch' LF).
          + eexists; split; [reflexivity|].
            destruct (IH rest' (i + 2) true ltac:(simpl in Hlen; lia)) as [Hs Hb].
            split; [exact Hs|].
            eapply Forall_impl; [|exact Hb].
            intros x Hx. rewrite !JS_length_String. cbn beta in Hx. lia.
          + eexists; split; [reflexivity|].
            destruct (IH (String ch' rest') (i + 1) (Ascii.eqb ch CR || Ascii.eqb ch LF)
                        ltac:(lia)) as [Hs Hb].
            split; [exact Hs|].
            eapply Forall_impl; [|exact Hb].
            intros x Hx. rewrite JS_length_String. cbn beta in Hx. lia. }
      destruct Htail as (tl & -> & Hs & Hb).
      pose proof (JS_length_nonneg (String ch rest)) as Hnn.
      destruct b; simpl.
      * split.
        -- constructor; [exact Hs|].
           eapply Forall_impl; [|exact Hb]. cbn. intros; lia.
        -- constructor; [lia|].
           eapply Forall_impl; [|exact Hb]. cbn. intros; lia.
      * split; [exact Hs|].
        eapply Forall_impl; [|exact Hb]. cbn. intros; lia.
Qed.

Lemma getLineOffsets_sorted (text : string) :
  StronglySorted Z.le (TextDocument.getLineOffsets text).
Proof. apply (lineOffsetsFrom_sorted (String.length text) text 0 true). lia. Qed.

Lemma getLineOffsets_bounds (text : string) :
  Forall (fun x => 0 <= x <= JS.length text) (TextDocument.getLineOffsets text).
Proof.
  destruct (lineOffsetsFrom_sorted (String.length text) text 0 true ltac:(lia)) as [_ H].
  exact H.
Qed.

(** The first line starts at offset 0; only the empty text has no line
    offsets. *)
Lemma getLineOffsets_head (text : string) :
  (text = EmptyString /\ TextDocument.getLineOffsets text = [])
  \/ exists rest, TextDocument.getLineOffsets text = 0 :: rest.
Proof.
  destruct text as [|ch rest]; [left; split; reflexivity|right].
  unfold TextDocument.getLineOffsets. simpl.
  destruct rest as [|ch' rest']; [eexists; reflexivity|].
  destruct (Ascii.eqb ch CR && Ascii.eqb ch' LF); eexists; reflexivity.
Qed.

Lemma sorted_nth (los : list Z) :
  StronglySorted Z.le los ->
  forall a b, (a <= b)%nat -> (b < List.length los)%nat -> nth a los 0 <= nth b los 0.
Proof.
  induction 1 as [|x l Hs IH Hall]; intros a b Hab Hb; [simpl in Hb; lia|].
  destruct a as [|a], b as [|b]; simpl in *; try lia.
  - rewrite Forall_forall in Hall. apply Hall, nth_In. lia.
  - apply IH; lia.
Qed.

Lemma lowIndex_le_length (los : list Z) (o : Z) :
  (TextDocument.lowIndex los o <= List.length los)%nat.
Proof.
  induction los as [|x l IH]; simpl; [lia|].
  destruct (x <=? o); simpl; lia.
Qed.

Lemma lowIndex_below (los : list Z) (o : Z) :
  forall n, (n < TextDocument.lowIndex los o)%nat -> nth n los 0 <= o.
Proof.
  induction los as [|x l IH]; simpl; intros n Hn; [lia|].
  destruct (Z.leb_spec x o); [|lia].
  destruct n as [|n]; [assumption|]. apply IH. lia.
Qed.

Lemma lowIndex_above (los : list Z) (o : Z) :
  (TextDocument.lowIndex los o < List.length los)%nat ->
  o < nth (TextDocument.lowIndex los o) los 0.
Proof.
  induction los as [|x l IH]; simpl; intros Hn; [lia|].
  destruct (Z.leb_spec x o); [|assumption].
  apply IH. lia.
Qed.

Lemma lowIndex_mono (los : list Z) (o1 o2 : Z) :
  o1 <= o2 -> (TextDocument.lowIndex los o1 <= TextDocument.lowIndex los o2)%nat.
Proof.
  intros Ho. induction los as [|x l IH]; simpl; [lia|].
  destruct (Z.leb_spec x o1), (Z.leb_spec x o2); lia.
Qed.

Lemma lowIndex_head (rest : list Z) (o : Z) :
  0 <= o -> (1 <= TextDocument.lowIndex (0%Z :: rest) o)%nat.
Proof. intros Ho. simpl. destruct (Z.leb_spec 0 o); lia. Qed.

(** [positionAt] answers with a position of the document, whatever the
    offset. *)
Lemma positionAt_inBounds (text : string) (o : Z) :
  TextDocument.inBounds text (TextDocument.positionAt text o).
Proof.
  unfold TextDocument.inBounds, TextDocument.positionAt,
    TextDocument.lineStart, TextDocument.lineEnd.
  pose proof (JS_length_nonneg text) as Hnn.
  set (o' := Z.max (Z.min o (JS.length text)) 0).
  assert (Ho' : 0 <= o' <= JS.length text) by (subst o'; lia).
  destruct (getLineOffsets_head text) as [[_ Hlos]|[rest Hlos]]; rewrite Hlos.
  - simpl. split; [lia|]. lia.
  - set (los := 0 :: rest).
    pose proof (lowIndex_head rest o' ltac:(lia)) as H1.
    pose proof (lowIndex_le_length los o') as H2.
    pose proof (lowIndex_below los o' (TextDocument.lowIndex los o' - 1) ltac:(fold los in H1; lia)) as H3.
    fold los in H1.
    cbn [line character].
    split; [lia|].
    rewrite Z2Nat.id by lia.
    destruct (Nat.ltb_spec (TextDocument.lowIndex los o' - 1 + 1) (List.length los)) as [Hlt|Hge].
    + pose proof (lowIndex_above los o' ltac:(lia)) as H4.
      replace (TextDocument.lowIndex los o' - 1 + 1)%nat with (TextDocument.lowIndex los o') by lia.
      lia.
    + lia.
Qed.

(** [positionAt] is monotone. *)
Lemma positionAt_mono (text : string) (o1 o2 : Z) :
  o1 <= o2 ->
  pos_le (TextDocument.positionAt text o1) (TextDocument.positionAt text o2).
Proof.
  intros Ho. unfold pos_le, TextDocument.positionAt.
  pose proof (JS_length_nonneg text) as Hnn.
  set (a := Z.max (Z.min o1 (JS.length text)) 0).
  set (b := Z.max (Z.min o2 (JS.length text)) 0).
  assert (Hab : a <= b) by (subst a b; lia).
  assert (Ha : 0 <= a) by (subst a; lia).
  destruct (getLineOffsets_head text) as [[_ Hlos]|[rest Hlos]]; rewrite Hlos.
  - simpl. right. split; [reflexivity|lia].
  - set (los := 0 :: rest).
    pose proof (lowIndex_head rest a ltac:(lia)) as H1. fold los in H1.
    pose proof (lowIndex_mono los a b Hab) as H2.
    cbn [line character].
    destruct (Nat.eq_dec (TextDocument.lowIndex los a) (TextDocument.lowIndex los b)) as [Heq|Hne].
    + right. rewrite Heq. split; [reflexivity|].
      pose proof (lowIndex_below los b (TextDocument.lowIndex los b - 1) ltac:(lia)).
      pose proof (lowIndex_below los a (TextDocument.lowIndex los b - 1) ltac:(lia)).
      lia.
    + left. lia.
Qed.

(** [offsetAt] is monotone for the lexicographic order. *)
Lemma offsetAt_mono (text : string) (p q : Position) :
  pos_le p q -> TextDocument.offsetAt text p <= TextDocument.offsetAt text q.
Proof.
  intros Hpq. unfold TextDocument.offsetAt.
  pose proof (getLineOffsets_sorted text) as Hs.
  pose proof (getLineOffsets_bounds text) as Hb.
  rewrite Forall_forall in Hb.
  set (los := TextDocument.getLineOffsets text) in *.
  assert (Hnth : forall n, (n < List.length los)%nat -> 0 <= nth n los 0 <= JS.length text).
  { intros n Hn. apply Hb, nth_In, Hn. }
  destruct (Nat.leb_spec (List.length los) (line q)) as [Hq|Hq].
  - destruct (Nat.leb_spec (List.length los) (line p)) as [Hp|Hp]; [lia|].
    pose proof (Hnth (line p) Hp).
    destruct (Nat.ltb_spec (line p + 1) (List.length los)) as [Hn|Hn].
    + pose proof (Hnth (line p + 1)%nat Hn). lia.
    + lia.
  - destruct Hpq as [Hlt|[Heq Hch]].
    + destruct (Nat.leb_spec (List.length los) (line p)) as [Hp|Hp]; [lia|].
      destruct (Nat.ltb_spec (line p + 1) (List.length los)) as [Hn|Hn]; [|lia].
      pose proof (sorted_nth los Hs (line p) (line p + 1) ltac:(lia) Hn).
      pose proof (sorted_nth los Hs (line p + 1) (line q) ltac:(lia) Hq).
      lia.
    + rewrite Heq.
      destruct (Nat.leb_spec (List.length los) (line q)) as [Hp|Hp]; [lia|].
      destruct (Nat.ltb_spec (line q + 1) (List.length los)) as [Hn|Hn]; lia.
Qed.

(** Every line offset after the first one is at least 1. *)
Lemma lineOffsetsFrom_tail (ch : ascii) (rest : string) (i : Z) (b : bool) :
  exists tl,
    TextDocument.lineOffsetsFrom (String ch rest) i b = (if b then [i] else []) ++ tl
    /\ Forall (fun x => i + 1 <= x) tl.
Proof.
  assert (Hall : forall s j c, Forall (fun y => j <= y) (TextDocument.lineOffsetsFrom s j c)).
  { intros s j c.
    destruct (lineOffsetsFrom_sorted (String.length s) s j c ltac:(lia)) as [_ H].
    eapply Forall_impl; [|exact H]. cbn. intros; lia. }
  simpl. destruct rest as [|ch' rest'].
  - eexists; split; [reflexivity|]. apply Hall.
  - destruct (Ascii.eqb ch CR && Ascii.eqb ch' LF).
    + eexists; split; [reflexivity|].
      eapply Forall_impl; [|apply Hall]. cbn. intros; lia.
    + eexists; split; [reflexivity|]. apply Hall.
Qed.

(** Offset 0 is the position (0, 0). *)
Lemma positionAt_zero (text : string) :
  TextDocument.positionAt text 0 = {| line := 0; character := 0 |}.
Proof.
  unfold TextDocument.positionAt.
  pose proof (JS_length_nonneg text) as Hnn.
  replace (Z.max (Z.min 0 (JS.length text)) 0) with 0 by lia.
  destruct text as [|ch r]; [reflexivity|].
  unfold TextDocument.getLineOffsets.
  destruct (lineOffsetsFrom_tail ch r 0 true) as (tl & -> & Htl).
  simpl app.
  destruct tl as [|x tl]; [reflexivity|].
  inversion Htl; subst.
  cbn [TextDocument.lowIndex].
  destruct (Z.leb_spec 0 0); [|lia].
  destruct (Z.leb_spec x 0); [lia|]. reflexivity.
Qed.

(** Converting a position of the document to an offset and back. *)
Lemma offsetAt_positionAt (text : string) (o : Z) :
  TextDocument.offsetAt text (TextDocument.positionAt text o)
  = Z.max (Z.min o (JS.length text)) 0.
Proof.
  unfold TextDocument.offsetAt, TextDocument.positionAt.
  pose proof (JS_length_nonneg text) as Hnn.
  set (o' := Z.max (Z.min o (JS.length text)) 0).
  assert (Ho' : 0 <= o' <= JS.length text) by (subst o'; lia).
  destruct (getLineOffsets_head text) as [[Ht Hlos]|[rest Hlos]]; rewrite Hlos.
  - subst text. cbn in *. lia.
  - set (los := 0 :: rest).
    pose proof (lowIndex_head rest o' ltac:(lia)) as H1. fold los in H1.
    pose proof (lowIndex_le_length los o') as H2.
    pose proof (lowIndex_below los o' (TextDocument.lowIndex los o' - 1) ltac:(lia)) as H3.
    cbn [line character].
    destruct (Nat.leb_spec (List.length los) (TextDocument.lowIndex los o' - 1)); [lia|].
    rewrite Z2Nat.id by lia.
    destruct (Nat.ltb_spec (TextDocument.lowIndex los o' - 1 + 1) (List.length los)) as [Hlt|Hge].
    + pose proof (lowIndex_above los o' ltac:(lia)) as H4.
      replace (TextDocument.lowIndex los o' - 1 + 1)%nat with (TextDocument.lowIndex los o') by lia.
      lia.
    + lia.
Qed.

Lemma positionAt_clamp (text : string) (o : Z) :
  TextDocument.positionAt text (Z.max (Z.min o (JS.length text)) 0)
  = TextDocument.positionAt text o.
Proof.
  unfold TextDocument.positionAt.
  pose proof (JS_length_nonneg text).
  replace (Z.max (Z.min (Z.max (Z.min o (JS.length text)) 0) (JS.length text)) 0)
    with (Z.max (Z.min o (JS.length text)) 0) by lia.
  reflexivity.
Qed.

(** A position that [positionAt] can answer with is reported unchanged. *)
Lemma positionAt_offsetAt (o : Z) :
  positionAt (offsetAt (positionAt o)) = positionAt o.
Proof.
  unfold positionAt, offsetAt.
  rewrite offsetAt_positionAt. apply positionAt_clamp.
Qed.

(* ================================================================== *)
(** ** Ranges of the diagnostics *)

Lemma rangeOf_ok (a b : Z) : a <= b -> rangeOk (rangeOf a b).
Proof.
  intros Hab. unfold rangeOk, rangeOf, positionAt. cbn [start end_].
  split; [apply positionAt_mono, Hab|].
  split; apply positionAt_inBounds.
Qed.

Lemma reportedAt_ok (r : Range) : pos_le (start r) (end_ r) -> rangeOk (reportedAt r).
Proof. intros H. apply rangeOf_ok, offsetAt_mono, H. Qed.

Lemma createDiagnostic_range sev a b msg c :
  range (createDiagnostic sev a b msg c) = rangeOf a b.
Proof. reflexivity. Qed.

Lemma isUnexpectedToken_code (d : Diagnostic) : isUnexpectedToken d -> code d = DEFAULT.
Proof. intros (a & ->). reflexivity. Qed.

Lemma isUnexpectedToken_range (d : Diagnostic) : isUnexpectedToken d -> rangeOk (range d).
Proof. intros (a & ->). apply rangeOf_ok. lia. Qed.

(* ================================================================== *)
(** ** Lists of diagnostics that only grow *)

Lemma extends_refl (P : Diagnostic -> Prop) (ps : list Diagnostic) : extends P ps ps.
Proof. exists []. split; [symmetry; apply app_nil_r|constructor]. Qed.

Lemma extends_trans (P : Diagnostic -> Prop) (ps1 ps2 ps3 : list Diagnostic) :
  extends P ps1 ps2 -> extends P ps2 ps3 -> extends P ps1 ps3.
Proof.
  intros (n1 & -> & H1) (n2 & -> & H2). exists (n1 ++ n2).
  split; [symmetry; apply app_assoc|apply Forall_app; split; assumption].
Qed.

Lemma extends_push (P : Diagnostic -> Prop) (ps : list Diagnostic) (d : Diagnostic) :
  P d -> extends P ps (ps ++ [d]).
Proof. intros Hd. exists [d]. split; [reflexivity|repeat constructor; exact Hd]. Qed.

Lemma extends_impl (P Q : Diagnostic -> Prop) (ps ps' : list Diagnostic) :
  (forall d, P d -> Q d) -> extends P ps ps' -> extends Q ps ps'.
Proof.
  intros HPQ (n & -> & Hn). exists n. split; [reflexivity|].
  eapply Forall_impl; [exact HPQ|exact Hn].
Qed.

Lemma addsAtMostOne_extends (ps ps' : list Diagnostic) :
  addsAtMostOne ps ps' -> extends isUnexpectedToken ps ps'.
Proof. intros (n & -> & Hn & _). exists n. split; [reflexivity|exact Hn]. Qed.

Lemma addsAtMostOne_refl (ps : list Diagnostic) : addsAtMostOne ps ps.
Proof. exists []. rewrite app_nil_r. repeat split; [constructor|simpl; lia]. Qed.

Lemma addsAtMostOne_push (ps : list Diagnostic) (a : Z) :
  addsAtMostOne ps (ps ++ [createUnexpectedToken a (a + 1)]).
Proof.
  exists [createUnexpectedToken a (a + 1)].
  repeat split; [|simpl; lia].
  repeat constructor. exists a. reflexivity.
Qed.

(* ================================================================== *)
(** ** The JSON-array validator *)

Ltac split_ifs :=
  repeat match goal with
         | |- context [if ?c then _ else _] => destruct c eqn:?
         end.

Lemma skipContinuation_bounds (text : string) (i : Z) :
  i + 1 <= skipContinuation text i <= i + 2.
Proof.
  unfold skipContinuation.
  destruct (JS.charIs text (i + 1) CR && JS.charIs text (i + 1 + 1) LF); lia.
Qed.

Lemma parseJSONBody_advancing (escape : ascii) (text : string) :
  advancing (parseJSONBody escape text).
Proof.
  intros st k st' k'. unfold parseJSONBody.
  pose proof (skipContinuation_bounds text k).
  split_ifs; intros H'; inversion H'; subst; lia.
Qed.

Lemma jsonInv_init (problems : list Diagnostic) : jsonInv problems (parseJSONInit problems).
Proof. exists []. simpl. rewrite app_nil_r. repeat split. constructor. Qed.

Lemma jsonInv_adds (problems : list Diagnostic) (st : JSONState) :
  jsonInv problems st -> addsAtMostOne problems (reported st).
Proof.
  intros (new & Hr & Hall & Hf). exists new. repeat split; try assumption.
  destruct (flagged st); [exact Hf|subst new; simpl; lia].
Qed.

Lemma jsonInv_push (problems : list Diagnostic) (st : JSONState) (a : Z) :
  jsonInv problems st -> flagged st = false ->
  addsAtMostOne problems (reported st ++ [createUnexpectedToken a (a + 1)]).
Proof.
  intros (new & Hr & Hall & Hf) Hfl. rewrite Hfl in Hf. subst new.
  rewrite Hr, app_nil_r. apply addsAtMostOne_push.
Qed.

(** One turn of the loop keeps the invariant, or leaves with at most
    one diagnostic added. *)
Lemma parseJSONBody_inv (escape : ascii) (text : string) (problems : list Diagnostic)
    (st : JSONState) (i : Z) :
  jsonInv problems st ->
  match parseJSONBody escape text st i with
  | Next st' _ => jsonInv problems st'
  | Leave r => addsAtMostOne problems (snd r)
  end.
Proof.
  intros Hinv. unfold parseJSONBody.
  split_ifs; cbn [snd];
    try exact Hinv;
    try (apply jsonInv_adds; exact Hinv);
    try (apply jsonInv_push; [exact Hinv|];
         repeat match goal with
                | H : (_ && _)%bool = true |- _ => apply andb_prop in H; destruct H
                | H : negb _ = true |- _ => apply negb_true_iff in H
                end; assumption);
    try (destruct Hinv as (new & Hr & Hall & Hf); exists new;
         cbn [reported flagged]; repeat split; assumption).
Qed.

Lemma parseJSONAfter_inv (problems : list Diagnostic) (st : JSONState) (k : Z) :
  jsonInv problems st -> addsAtMostOne problems (snd (parseJSONAfter st k)).
Proof.
  intros Hinv. unfold parseJSONAfter. cbn [snd].
  destruct (negb (flagged st) && (inString st || negb (end_seen st))) eqn:Hc.
  - apply andb_prop in Hc. destruct Hc as [Hfl _]. apply negb_true_iff in Hfl.
    apply jsonInv_push; assumption.
  - apply jsonInv_adds, Hinv.
Qed.

(** From a state that satisfies the invariant, the rest of the loop adds
    at most one diagnostic to what [parseJSON] was called with. *)
Lemma parseJSONFrom_adds (escape : ascii) (text : string) (problems : list Diagnostic)
    (st : JSONState) (i : Z) :
  jsonInv problems st ->
  addsAtMostOne problems (snd (parseJSONFrom escape text st i)).
Proof.
  intros Hinv. unfold parseJSONFrom.
  apply (forLoop_invariant (fun st _ => jsonInv problems st)
           (fun r => addsAtMostOne problems (snd r))).
  - intros s k Hs _. apply parseJSONBody_inv, Hs.
  - intros s k Hs. apply parseJSONAfter_inv, Hs.
  - exact Hinv.
Qed.

Lemma parseJSON_adds (escape : ascii) (offset : Z) (text : string)
    (problems : list Diagnostic) :
  addsAtMostOne problems (snd (parseJSON escape offset text problems)).
Proof. apply parseJSONFrom_adds, jsonInv_init. Qed.


Lemma get_Some_lt (s : string) :
  forall n c, String.get n s = Some c -> (n < String.length s)%nat.
Proof.
  induction s as [|a s IH]; intros n c H; [destruct n; discriminate|].
  destruct n as [|n]; simpl in *; [lia|].
  apply IH in H. lia.
Qed.

Lemma charAt_Some_range (s : string) (i : Z) (c : ascii) :
  JS.charAt s i = Some c -> 0 <= i < JS.length s.
Proof.
  unfold JS.charAt, JS.length. destruct (Z.ltb_spec i 0) as [Hneg|Hpos]; [discriminate|].
  intros Hget%get_Some_lt. lia.
Qed.

Lemma charIs_charAt (s : string) (i : Z) (c : ascii) :
  JS.charIs s i c = true <-> JS.charAt s i = Some c.
Proof.
  unfold JS.charIs. destruct (JS.charAt s i) as [x|]; [|split; discriminate].
  split; [intros H%Ascii.eqb_eq; congruence|].
  intros [= ->]. apply Ascii.eqb_refl.
Qed.

Lemma charIs_range (s : string) (i : Z) (c : ascii) :
  JS.charIs s i c = true -> 0 <= i < JS.length s.
Proof. intros H%charIs_charAt. eapply charAt_Some_range, H. Qed.

Lemma get_In (s : string) :
  forall n c, String.get n s = Some c -> In c (characters s).
Proof.
  induction s as [|a s IH]; intros n c H; [destruct n; discriminate|].
  destruct n as [|n]; simpl in *; [left; congruence|].
  right. eapply IH, H.
Qed.

(** A character that does not occur in a text is found at no offset. *)
Lemma charIs_absent (text : string) (c : ascii) :
  existsb (Ascii.eqb c) (characters text) = false ->
  forall k, JS.charIs text k c = false.
Proof.
  intros Habs k. destruct (JS.charIs text k c) eqn:Hc; [|reflexivity].
  apply charIs_charAt in Hc. unfold JS.charAt in Hc.
  destruct (k <? 0); [discriminate|].
  apply get_In in Hc.
  assert (Hex : existsb (Ascii.eqb c) (characters text) = true).
  { apply existsb_exists. exists c. split; [exact Hc|apply Ascii.eqb_refl]. }
  congruence.
Qed.

(** The character at an offset decides every comparison made there. *)
Lemma charIs_other (s : string) (i : Z) (a b : ascii) :
  JS.charIs s i a = true -> JS.charIs s i b = Ascii.eqb a b.
Proof.
  intros H%charIs_charAt. unfold JS.charIs. rewrite H. reflexivity.
Qed.



(* ================================================================== *)
(** ** The structural scanner *)

Lemma parseVOLUME_adds (escape : ascii) (lineStart offset : Z) (text : string)
    (problems : list Diagnostic) :
  addsAtMostOne problems (snd (parseVOLUME escape lineStart offset text problems)).
Proof.
  unfold parseVOLUME.
  apply (forLoop_invariant (fun _ _ => True)
           (fun r => addsAtMostOne problems (snd r))); [| |exact I].
  - intros json k _ _. unfold parseVOLUMEBody.
    split_ifs; try exact I; cbn [snd];
      [apply addsAtMostOne_refl|apply parseJSON_adds].
  - intros _ _ _. apply addsAtMostOne_refl.
Qed.

(** The loop that skips an instruction ends the scan, or resumes it at a
    line break after [j]; it reports nothing. *)
Lemma skipInstruction_outcome (escape : ascii) (text : string) (j : Z)
    (problems : list Diagnostic) :
  skipInstruction escape text j problems = Return problems
  \/ exists k, skipInstruction escape text j problems = Resume k problems
               /\ j < k < JS.length text /\ isLineBreakAt text k = true.
Proof.
  unfold skipInstruction.
  apply (forLoop_invariant (fun (_ : unit) k => j < k)
           (fun o => o = Return problems
                     \/ exists k, o = Resume k problems
                                  /\ j < k < JS.length text
                                  /\ isLineBreakAt text k = true)); [| |lia].
  - intros [] k Hk Hlt. unfold skipInstructionBody, isLineBreakAt.
    destruct (shouldSkipNewline text k escape); [lia|].
    destruct (JS.charIs text k CR || JS.charIs text k LF) eqn:Hnl; [|lia].
    right. exists k. repeat split; try lia. exact Hnl.
  - intros _ _ _. left. reflexivity.
Qed.

Lemma skipInstruction_problems (escape : ascii) (text : string) (j : Z)
    (problems : list Diagnostic) :
  problemsOf (skipInstruction escape text j problems) = problems.
Proof.
  destruct (skipInstruction_outcome escape text j problems) as [->|(k & -> & _)];
    reflexivity.
Qed.

Lemma skipComment_problems (text : string) (i : Z) (problems : list Diagnostic) :
  problemsOf (skipComment text i problems) = problems.
Proof.
  unfold skipComment.
  apply (forLoop_invariant (fun (_ : unit) _ => True)
           (fun o => problemsOf o = problems)); [| |exact I].
  - intros [] k _ _. unfold skipCommentBody. split_ifs; [reflexivity|exact I].
  - reflexivity.
Qed.

Lemma checkInstructionLine_problems (escape : ascii) (text : string) (j : Z)
    (problems : list Diagnostic) :
  problemsOf (checkInstructionLine escape text j problems) = problems.
Proof.
  unfold checkInstructionLine.
  apply (forLoop_invariant (fun (_ : bool) _ => True)
           (fun o => problemsOf o = problems)); [| |exact I].
  - intros check k _ _. unfold checkInstructionLineBody.
    split_ifs; try exact I. reflexivity.
  - reflexivity.
Qed.

Lemma dispatch_adds (keywords : list string) (escape : ascii) (text : string)
    (i j : Z) (word : string) (problems : list Diagnostic) :
  addsAtMostOne problems (problemsOf (dispatch keywords escape text i j word problems)).
Proof.
  unfold dispatch.
  destruct (existsb (String.eqb word) plainKeywords).
  { rewrite skipInstruction_problems. apply addsAtMostOne_refl. }
  destruct (String.eqb word "VOLUME").
  { pose proof (parseVOLUME_adds escape i j text problems) as H.
    destruct (parseVOLUME escape i j text problems) as [jump ps]. exact H. }
  destruct (JS.notIn word keywords).
  - rewrite skipInstruction_problems. apply addsAtMostOne_refl.
  - rewrite checkInstructionLine_problems. apply addsAtMostOne_refl.
Qed.

(** One turn of [lineCheck] adds at most one diagnostic. *)
Lemma lineStep_adds (keywords : list string) (escape : ascii) (text : string)
    (i : Z) (problems : list Diagnostic) :
  addsAtMostOne problems (problemsOf (lineStep keywords escape text i problems)).
Proof.
  unfold lineStep.
  destruct (isWhitespaceAt text i); [apply addsAtMostOne_refl|].
  destruct (JS.charIs text i "#"%char).
  { rewrite skipComment_problems. apply addsAtMostOne_refl. }
  destruct (scanWord escape text i) as [j word| |].
  - apply dispatch_adds.
  - apply addsAtMostOne_refl.
  - apply addsAtMostOne_refl.
Qed.

(** The scanner only appends "Unexpected token" diagnostics. *)
Lemma lineCheck_extends (fuel : nat) (keywords : list string) (escape : ascii)
    (text : string) :
  forall i problems problems',
    lineCheck fuel keywords escape text i problems = Some problems' ->
    extends isUnexpectedToken problems problems'.
Proof.
  induction fuel as [|fuel IH]; intros i problems problems' H; [discriminate|].
  simpl in H. destruct (i <? JS.length text).
  - pose proof (lineStep_adds keywords escape text i problems) as Hstep.
    apply addsAtMostOne_extends in Hstep.
    destruct (lineStep keywords escape text i problems) as [i' ps|ps]; cbn in Hstep.
    + eapply extends_trans; [exact Hstep|]. eapply IH, H.
    + injection H as <-. exact Hstep.
  - injection H as <-. apply extends_refl.
Qed.

(* ================================================================== *)
(** ** The escape directive *)

Lemma parseDirective_escape (dockerfile : Dockerfile) (problems : list Diagnostic) :
  isEscapeChar (escape (fst (parseDirective dockerfile problems))).
Proof.
  unfold parseDirective, isEscapeChar.
  destruct (getDirective dockerfile) as [directive|]; cbn; [|auto].
  destruct (String.eqb (getValue directive) "\"); [auto|].
  destruct (String.eqb (getValue directive) "`"); auto.
Qed.

(** What [parseDirective] pushes. *)
Lemma parseDirective_problems (dockerfile : Dockerfile) (problems : list Diagnostic) :
  snd (parseDirective dockerfile problems) = problems
  \/ exists directive,
       getDirective dockerfile = Some directive
       /\ (snd (parseDirective dockerfile problems)
           = problems ++ [createUnknownDirective
                            (offsetAt (start (getNameRange directive)))
                            (offsetAt (end_ (getNameRange directive)))
                            (getDirectiveName directive)]
           \/ snd (parseDirective dockerfile problems)
              = problems ++ [createInvalidEscapeDirective
                               (offsetAt (start (getValueRange directive)))
                               (offsetAt (end_ (getValueRange directive)))
                               (getValue directive)]).
Proof.
  unfold parseDirective.
  destruct (getDirective dockerfile) as [directive|]; [|left; reflexivity].
  cbn [snd].
  destruct (negb (String.eqb (getDirectiveName directive) DIRECTIVE_ESCAPE)).
  - right. exists directive. split; [reflexivity|left; reflexivity].
  - destruct (negb (String.eqb (getValue directive) "\")
              && negb (String.eqb (getValue directive) "`")
              && negb (String.eqb (getValue directive) EmptyString)).
    + right. exists directive. split; [reflexivity|right; reflexivity].
    + left. reflexivity.
Qed.

(** C2.  For a directive whose name is not "escape", [parseDirective]
    pushes exactly one diagnostic, an UNKNOWN_DIRECTIVE error at the
    range of the directive's name, and the escape character is still read
    from the directive's value: the backslash or the backtick when the
    value is exactly that, the backslash otherwise.  For a directive
    named "escape" whose value is neither the backslash, the backtick nor
    the empty string, it pushes exactly one INVALID_ESCAPE_DIRECTIVE
    error at the range of the value, and the escape character is the
    backslash. *)
Theorem C2_parseDirective_directive
    (dockerfile : Dockerfile) (directive : Directive) (problems : list Diagnostic) :
  getDirective dockerfile = Some directive ->
  let name := getDirectiveName directive in
  let value := getValue directive in
  let parsed := fst (parseDirective dockerfile problems) in
  let pushed := snd (parseDirective dockerfile problems) in
  (name <> DIRECTIVE_ESCAPE ->
   (exists d, pushed = problems ++ [d]
              /\ code d = UNKNOWN_DIRECTIVE /\ severity d = Error
              /\ range d = reportedAt (getNameRange directive)
              /\ message d = getDiagnosticMessage_DirectiveUnknown name)
   /\ (value = "\" -> escape parsed = BACKSLASH)
   /\ (value = "`" -> escape parsed = BACKTICK)
   /\ (value <> "\" -> value <> "`" -> escape parsed = BACKSLASH))
  /\ (name = DIRECTIVE_ESCAPE -> value <> "\" -> value <> "`" -> value <> EmptyString ->
      (exists d, pushed = problems ++ [d]
                 /\ code d = INVALID_ESCAPE_DIRECTIVE /\ severity d = Error
                 /\ range d = reportedAt (getValueRange directive)
                 /\ message d = getDiagnosticMessage_DirectiveEscapeInvalid value)
      /\ escape parsed = BACKSLASH).
Proof.
  intros Hdir name value parsed pushed.
  subst parsed pushed. unfold parseDirective. rewrite Hdir.
  fold name value. cbn [fst snd escape].
  split.
  - intros Hname. apply String.eqb_neq in Hname. rewrite Hname. cbn [negb].
    split; [|split; [|split]].
    + eexists. split; [reflexivity|]. repeat split.
    + intros ->. reflexivity.
    + intros ->. reflexivity.
    + intros H1%String.eqb_neq H2%String.eqb_neq. rewrite H1, H2. reflexivity.
  - intros Hname H1%String.eqb_neq H2%String.eqb_neq H3%String.eqb_neq.
    apply String.eqb_eq in Hname. rewrite Hname, H1, H2, H3. cbn [negb andb].
    split; [|reflexivity].
    eexists. split; [reflexivity|]. repeat split.
Qed.

(* ================================================================== *)
(** ** The document-model pass *)

Lemma checkEachArgument_emits (escape : ascii) (instruction : Instruction)
    (validate : string -> bool)
    (create : option (Z -> Z -> option string -> Diagnostic)) :
  forall args problems problems',
    (forall arg f, In arg args -> create = Some f ->
       emittedFor escape instruction
         (f (offsetAt (start (argRange arg))) (offsetAt (end_ (argRange arg)))
            (Some (argValue arg)))) ->
    checkEachArgument args problems validate create = Some problems' ->
    extends (emittedFor escape instruction) problems problems'.
Proof.
  induction args as [|arg rest IH]; intros problems problems' Hc H; simpl in H.
  - injection H as <-. apply extends_refl.
  - assert (Hrest : forall a f, In a rest -> create = Some f ->
                      emittedFor escape instruction
                        (f (offsetAt (start (argRange a))) (offsetAt (end_ (argRange a)))
                           (Some (argValue a))))
      by (intros a f Ha; apply Hc; right; exact Ha).
    destruct (negb (validate (argValue arg))).
    + destruct create as [f|] eqn:Hf; [|discriminate].
      eapply extends_trans; [|eapply IH; [exact Hrest|exact H]].
      apply extends_push. apply Hc; [left; reflexivity|reflexivity].
    + eapply IH; [exact Hrest|exact H].
Qed.

Lemma checkSingleArgument_emits (escape : ascii) (instruction : Instruction)
    (singleOnly : bool) (validate : string -> bool)
    (create : option (Z -> Z -> option string -> Diagnostic))
    (problems problems' : list Diagnostic) :
  (forall arg f, In arg (getArgments instruction escape) -> create = Some f ->
     emittedFor escape instruction
       (f (offsetAt (start (argRange arg))) (offsetAt (end_ (argRange arg)))
          (if singleOnly then None else Some (argValue arg)))) ->
  checkSingleArgument escape instruction problems singleOnly validate create
  = Some problems' ->
  extends (emittedFor escape instruction) problems problems'.
Proof.
  unfold checkSingleArgument. intros Hc H.
  destruct (getArgments instruction escape) as [|arg0 others] eqn:Hargs.
  { injection H as <-. apply extends_refl. }
  destruct singleOnly.
  - assert (Hfirst : forall ps1,
               (if negb (validate (argValue arg0))
                then match create with
                     | Some f => Some (problems ++
                                   [f (offsetAt (start (argRange arg0)))
                                      (offsetAt (end_ (argRange arg0))) None])
                     | None => None
                     end
                else Some problems) = Some ps1 ->
               extends (emittedFor escape instruction) problems ps1).
    { intros ps1 H1. destruct (negb (validate (argValue arg0))).
      - destruct create as [f|] eqn:Hf; [|discriminate].
        injection H1 as <-. apply extends_push.
        apply (Hc arg0 f); [left; reflexivity|reflexivity].
      - injection H1 as <-. apply extends_refl. }
    destruct (if negb (validate (argValue arg0)) then _ else _) as [ps1|]; [|discriminate].
    specialize (Hfirst ps1 eq_refl).
    destruct others as [|arg1 others'].
    + injection H as <-. exact Hfirst.
    + injection H as <-. eapply extends_trans; [exact Hfirst|].
      apply extends_push.
      apply emitted_extra. rewrite Hargs. right. left. reflexivity.
  - eapply checkEachArgument_emits; [|exact H].
    intros arg f Ha Hf. apply Hc; [exact Ha|exact Hf].
Qed.

(** Every diagnostic pushed for an instruction is one of [emittedFor]. *)
Lemma checkInstruction_emits (keywords : list string) (escape : ascii)
    (instruction : Instruction) (problems problems' : list Diagnostic) :
  checkInstruction keywords escape instruction problems = Some problems' ->
  extends (emittedFor escape instruction) problems problems'.
Proof.
  unfold checkInstruction. intros H.
  destruct (JS.notIn (getKeyword instruction) keywords).
  { injection H as <-. apply extends_push. apply emitted_unknown. }
  destruct (negb (String.eqb (getKeyword instruction) (getInstruction instruction))).
  { injection H as <-. apply extends_push. apply emitted_casing. }
  set (ps1 := if String.eqb (getKeyword instruction) "MAINTAINER" then _ else _) in H.
  assert (H1 : extends (emittedFor escape instruction) problems ps1).
  { subst ps1. destruct (String.eqb (getKeyword instruction) "MAINTAINER");
      [|apply extends_refl].
    destruct (createMaintainerDeprecated _ _) as [d|] eqn:Hd; [|apply extends_refl].
    apply extends_push. apply emitted_maintainer. exact Hd. }
  eapply extends_trans; [exact H1|].
  unfold checkArguments in H.
  destruct (argumentsMissing _ escape).
  { injection H as <-. apply extends_push. apply emitted_missing. }
  destruct (isSingleKeyword (getKeyword instruction)).
  { eapply checkSingleArgument_emits; [|exact H]. intros arg f _ Hf. discriminate. }
  destruct (String.eqb (getKeyword instruction) "STOPSIGNAL").
  { eapply checkSingleArgument_emits; [|exact H]. intros arg f Ha [= <-].
    apply emitted_stopsignal, Ha. }
  destruct (String.eqb (getKeyword instruction) "EXPOSE").
  { eapply checkSingleArgument_emits; [|exact H]. intros arg f Ha [= <-].
    apply emitted_port, Ha. }
  injection H as <-. apply extends_refl.
Qed.

Lemma checkInstructions_emits (keywords : list string) (escape : ascii) :
  forall instructions problems problems',
    checkInstructions keywords escape instructions problems = Some problems' ->
    extends (fun d => exists instruction,
                        In instruction instructions
                        /\ emittedFor escape instruction d)
      problems problems'.
Proof.
  induction instructions as [|instruction rest IH]; intros problems problems' H;
    simpl in H.
  - injection H as <-. apply extends_refl.
  - destruct (checkInstruction keywords escape instruction problems) as [ps1|] eqn:H1;
      [|discriminate].
    apply checkInstruction_emits in H1. apply IH in H.
    eapply extends_trans.
    + eapply extends_impl; [|exact H1].
      intros d Hd. exists instruction. split; [left; reflexivity|exact Hd].
    + eapply extends_impl; [|exact H].
      intros d (ins & Hin & Hd). exists ins. split; [right; exact Hin|exact Hd].
Qed.

Lemma createMaintainerDeprecated_Some (a b : Z) (d : Diagnostic) :
  createMaintainerDeprecated a b = Some d ->
  code d = DEPRECATED_MAINTAINER /\ range d = rangeOf a b.
Proof.
  unfold createMaintainerDeprecated.
  destruct (deprecatedMaintainer settings); intros [= <-]; split; reflexivity.
Qed.

Lemma emittedFor_code (escape : ascii) (instruction : Instruction) (d : Diagnostic) :
  emittedFor escape instruction d -> code d <> NO_SOURCE_IMAGE.
Proof.
  intros H. destruct H; try discriminate.
  apply createMaintainerDeprecated_Some in H. destruct H as [-> _]. discriminate.
Qed.

Lemma emittedFor_range (escape : ascii) (instruction : Instruction) (d : Diagnostic) :
  instructionRangesOrdered instruction ->
  emittedFor escape instruction d -> rangeOk (range d).
Proof.
  intros [Hins Hargs] H.
  assert (Harg : forall arg, In arg (getArgments instruction escape) ->
                   rangeOk (reportedAt (argRange arg))).
  { intros arg Ha. apply reportedAt_ok.
    specialize (Hargs escape). rewrite Forall_forall in Hargs. apply Hargs, Ha. }
  destruct H; try (apply reportedAt_ok; exact Hins); try (apply Harg; assumption).
  apply createMaintainerDeprecated_Some in H. destruct H as [_ ->].
  apply rangeOf_ok. lia.
Qed.

(* ================================================================== *)
(** ** [validate] as a whole *)

Lemma withCode_app (c : ValidationCode) (a b : list Diagnostic) :
  withCode c (a ++ b) = withCode c a ++ withCode c b.
Proof. apply filter_app. Qed.

Lemma withCode_none (c : ValidationCode) (ds : list Diagnostic) :
  Forall (fun d => code d <> c) ds -> withCode c ds = [].
Proof.
  induction 1 as [|d ds Hd _ IH]; [reflexivity|].
  simpl. destruct (ValidationCode_eqb (code d) c) eqn:E; [|exact IH].
  exfalso. apply Hd. destruct (code d), c; try discriminate; reflexivity.
Qed.

(** The list [validate] returns: what the directive and the FROM check
    pushed, then diagnostics of the instructions, then diagnostics of
    the scanner. *)
Lemma validate_returned (fuel : nat) (keywords : list string) (dockerfile : Dockerfile)
    (ds : list Diagnostic) :
  validate fuel keywords dockerfile = Returned ds ->
  exists model scan,
    ds = checkSourceImage (getInstructions dockerfile)
           (snd (parseDirective dockerfile [])) ++ model ++ scan
    /\ Forall (fun d => exists instruction,
                 In instruction (getInstructions dockerfile)
                 /\ emittedFor (escape (fst (parseDirective dockerfile []))) instruction d)
         model
    /\ Forall isUnexpectedToken scan.
Proof.
  unfold validate.
  destruct (parseDirective dockerfile []) as [parsed ps0]. cbn [fst snd].
  destruct (checkInstructions keywords (escape parsed) (getInstructions dockerfile)
              (checkSourceImage (getInstructions dockerfile) ps0)) as [ps1|] eqn:H1;
    [|discriminate].
  destruct (lineCheck fuel keywords (escape parsed) document (dc parsed) ps1) as [ps2|] eqn:H2;
    [|discriminate].
  intros [= <-].
  apply checkInstructions_emits in H1. destruct H1 as (model & -> & Hmodel).
  apply lineCheck_extends in H2. destruct H2 as (scan & -> & Hscan).
  exists model, scan. split; [symmetry; apply app_assoc|]. split; assumption.
Qed.

Lemma parseDirective_no_source_image (dockerfile : Dockerfile) :
  withCode NO_SOURCE_IMAGE (snd (parseDirective dockerfile [])) = [].
Proof.
  destruct (parseDirective_problems dockerfile []) as [->|(directive & _ & [-> | ->])];
    reflexivity.
Qed.

(** C9.  When the ranges of the instruction model have ordered ends,
    every diagnostic of the list [validate] returns has a range whose
    start is not after its end and whose two ends lie within the
    document.  This covers the "Unexpected token" diagnostics built from
    [last] while it is still [-1]: [positionAt] answers (0,0) for an
    offset below 0. *)
Theorem C9_ranges_ordered_and_in_bounds
    (fuel : nat) (keywords : list string) (dockerfile : Dockerfile)
    (ds : list Diagnostic) :
  modelRangesOrdered dockerfile ->
  validate fuel keywords dockerfile = Returned ds ->
  Forall (fun d => rangeOk (range d)) ds.
Proof.
  intros [Hdir Hins] Hv. apply validate_returned in Hv.
  destruct Hv as (model & scan & -> & Hmodel & Hscan).
  rewrite Forall_forall in Hins.
  apply Forall_app. split; [|apply Forall_app; split].
  - assert (H0 : Forall (fun d => rangeOk (range d)) (snd (parseDirective dockerfile []))).
    { destruct (parseDirective_problems dockerfile [])
        as [->|(directive & Hd & [-> | ->])]; [apply Forall_nil| |];
        rewrite Hd in Hdir; destruct Hdir as [Hn Hval];
        (apply Forall_cons; [|apply Forall_nil]); apply reportedAt_ok; assumption. }
    unfold checkSourceImage.
    destruct (getInstructions dockerfile) as [|first rest] eqn:Hi.
    + apply Forall_app. split; [exact H0|].
      apply Forall_cons; [|apply Forall_nil]. apply rangeOf_ok. lia.
    + destruct (negb (String.eqb (getKeyword first) "FROM")); [|exact H0].
      apply Forall_app. split; [exact H0|].
      apply Forall_cons; [|apply Forall_nil]. apply reportedAt_ok.
      apply (Hins first); left; reflexivity.
  - eapply Forall_impl; [|exact Hmodel].
    intros d (ins & Hin & Hd). eapply emittedFor_range; [|exact Hd].
    apply Hins, Hin.
  - eapply Forall_impl; [|exact Hscan]. apply isUnexpectedToken_range.
Qed.

(** C10.  For a MAINTAINER instruction written in upper case and in the
    whitelist, when the setting is Warning or Error, one
    DEPRECATED_MAINTAINER diagnostic is pushed, with the severity of the
    setting; its range is empty: its start and its end are both the start
    of the instruction's range as the document reports it (and that
    start itself when it is a position of the document). *)
Theorem C10_maintainer_range_is_empty
    (keywords : list string) (escape : ascii) (instruction : Instruction)
    (problems : list Diagnostic) :
  getKeyword instruction = "MAINTAINER" ->
  getInstruction instruction = "MAINTAINER" ->
  JS.notIn "MAINTAINER" keywords = false ->
  deprecatedMaintainer settings <> IGNORE ->
  exists d rest,
    checkInstruction keywords escape instruction problems = Some (problems ++ d :: rest)
    /\ code d = DEPRECATED_MAINTAINER
    /\ severity d = match deprecatedMaintainer settings with
                    | ERROR => Error
                    | _ => Warning
                    end
    /\ start (range d) = positionAt (offsetAt (start (getInstructionRange instruction)))
    /\ end_ (range d) = start (range d)
    /\ withCode DEPRECATED_MAINTAINER rest = []
    /\ (forall o, start (getInstructionRange instruction) = positionAt o ->
          start (range d) = start (getInstructionRange instruction)
          /\ end_ (range d) = start (getInstructionRange instruction)).
Proof.
  intros Hkw Hins Hin Hset.
  unfold checkInstruction. rewrite Hkw, Hins, Hin. cbn [String.eqb negb].
  rewrite !Ascii.eqb_refl. cbn [isSingleKeyword String.eqb Ascii.eqb Bool.eqb orb].
  set (o := offsetAt (start (getInstructionRange instruction))).
  assert (Hd : exists d, createMaintainerDeprecated o o = Some d
                         /\ code d = DEPRECATED_MAINTAINER
                         /\ severity d = match deprecatedMaintainer settings with
                                         | ERROR => Error
                                         | _ => Warning
                                         end
                         /\ range d = rangeOf o o).
  { unfold createMaintainerDeprecated.
    destruct (deprecatedMaintainer settings); [congruence| |];
      eexists; repeat split. }
  destruct Hd as (d & Hcreate & Hcode & Hsev & Hrange).
  rewrite Hcreate. unfold checkArguments.
  assert (Hround : forall p, start (getInstructionRange instruction) = positionAt p ->
                     start (range d) = start (getInstructionRange instruction)
                     /\ end_ (range d) = start (getInstructionRange instruction)).
  { intros p Hp. rewrite Hrange. cbn [rangeOf start end_]. subst o.
    rewrite Hp, positionAt_offsetAt. split; reflexivity. }
  destruct (argumentsMissing _ escape).
  - exists d, [createMissingArgument o
                 (offsetAt (end_ (getInstructionRange instruction)))].
    rewrite <- app_assoc. cbn [app].
    split; [reflexivity|]. split; [exact Hcode|]. split; [exact Hsev|].
    split; [rewrite Hrange; reflexivity|]. split; [rewrite Hrange; reflexivity|].
    split; [reflexivity|exact Hround].
  - exists d, [].
    split; [reflexivity|]. split; [exact Hcode|]. split; [exact Hsev|].
    split; [rewrite Hrange; reflexivity|]. split; [rewrite Hrange; reflexivity|].
    split; [reflexivity|exact Hround].
Qed.

(* ================================================================== *)
(** ** Argument presence *)

Lemma charAt_String (c : ascii) (rest : string) (k : Z) :
  0 <= k -> JS.charAt (String c rest) (k + 1) = JS.charAt rest k.
Proof.
  intros Hk. unfold JS.charAt.
  destruct (Z.ltb_spec (k + 1) 0); [lia|].
  destruct (Z.ltb_spec k 0); [lia|].
  replace (Z.to_nat (k + 1)) with (S (Z.to_nat k)) by lia. reflexivity.
Qed.


Lemma checkArgumentsBody_advancing (args : string) (escapeChar : ascii) :
  advancing (checkArgumentsBody args escapeChar).
Proof.
  intros s k s' k'. unfold checkArgumentsBody.
  split_ifs; intros H'; inversion H'; lia.
Qed.




Lemma argumentsMissing_empty (escapeChar : ascii) :
  argumentsMissing EmptyString escapeChar = true.
Proof. reflexivity. Qed.






Lemma checkArguments_present (escapeChar : ascii) (instruction : Instruction)
    (problems : list Diagnostic) :
  fst (checkArguments escapeChar instruction problems) = true ->
  checkArguments escapeChar instruction problems = (true, problems).
Proof.
  unfold checkArguments.
  destruct (argumentsMissing _ escapeChar); [discriminate|reflexivity].
Qed.


(* ================================================================== *)
(** ** Single and multiple arguments *)



Lemma checkEachArgument_all (validate : string -> bool)
    (f : Z -> Z -> option string -> Diagnostic) :
  forall args problems,
    checkEachArgument args problems validate (Some f)
    = Some (problems ++
            map (fun arg => f (offsetAt (start (argRange arg)))
                              (offsetAt (end_ (argRange arg))) (Some (argValue arg)))
              (filter (fun arg => negb (validate (argValue arg))) args)).
Proof.
  induction args as [|arg rest IH]; intros problems; simpl.
  - rewrite app_nil_r. reflexivity.
  - destruct (negb (validate (argValue arg))).
    + rewrite IH. simpl. rewrite <- app_assoc. reflexivity.
    + apply IH.
Qed.

Lemma noCharacter_Forall (bad : ascii -> bool) (s : string) :
  noCharacter bad s = true <-> Forall (fun c => bad c = false) (characters s).
Proof.
  induction s as [|c rest IH]; simpl.
  - split; [constructor|reflexivity].
  - destruct (bad c) eqn:Hc.
    + split; [discriminate|]. intros H. inversion H; congruence.
    + rewrite IH. split; [intros H; constructor; assumption|].
      intros H. inversion H; assumption.
Qed.

Lemma notDigit_isDigit (c : ascii) : notDigit c = false <-> isDigit c.
Proof.
  unfold notDigit, isDigit, JS.charLt. rewrite orb_false_iff, !N.ltb_ge. reflexivity.
Qed.

Lemma charIs_first (s : string) (c : ascii) :
  JS.charIs s 0 c = false <-> String.get 0 s <> Some c.
Proof.
  unfold JS.charIs, JS.charAt. cbn.
  destruct (String.get 0 s) as [x|]; [|split; [discriminate|reflexivity]].
  rewrite Ascii.eqb_neq. split; congruence.
Qed.

Lemma charIs_last (s : string) (c : ascii) :
  JS.charIs s (JS.length s - 1) c = false
  <-> String.get (String.length s - 1) s <> Some c.
Proof.
  unfold JS.charIs, JS.charAt, JS.length.
  destruct s as [|a rest].
  - cbn. split; [discriminate|reflexivity].
  - destruct (Z.ltb_spec (Z.of_nat (String.length (String a rest)) - 1) 0) as [Hlt|Hge];
      [simpl String.length in Hlt; lia|].
    replace (Z.to_nat (Z.of_nat (String.length (String a rest)) - 1))
      with (String.length (String a rest) - 1)%nat by lia.
    destruct (String.get _ _) as [x|]; [|split; [discriminate|reflexivity]].
    rewrite Ascii.eqb_neq. split; congruence.
Qed.

(** The predicate of EXPOSE: digits and dashes only, no dash at either
    end. *)
Lemma validatePort_spec (token : string) :
  validatePort token = true
  <-> Forall (fun c => isDigit c \/ c = "-"%char) (characters token)
      /\ String.get 0 token <> Some "-"%char
      /\ String.get (String.length token - 1) token <> Some "-"%char.
Proof.
  unfold validatePort.
  assert (Hall : noCharacter (fun c => negb (Ascii.eqb c "-"%char) && notDigit c) token = true
                 <-> Forall (fun c => isDigit c \/ c = "-"%char) (characters token)).
  { rewrite noCharacter_Forall. split; intros H; (eapply Forall_impl; [|exact H]);
      intros c Hc; cbn beta in *.
    - apply andb_false_iff in Hc. destruct Hc as [Hc|Hc].
      + right. apply negb_false_iff, Ascii.eqb_eq in Hc. exact Hc.
      + left. apply notDigit_isDigit, Hc.
    - apply andb_false_iff. destruct Hc as [Hc|Hc].
      + right. apply notDigit_isDigit, Hc.
      + left. apply negb_false_iff, Ascii.eqb_eq, Hc. }
  rewrite <- charIs_first, <- charIs_last.
  destruct (noCharacter _ token).
  - rewrite andb_true_iff, !negb_true_iff. split.
    + intros [H1 H2]. split; [apply Hall; reflexivity|split; assumption].
    + intros (_ & H1 & H2). split; assumption.
  - split; [discriminate|]. intros (H & _). apply Hall in H. discriminate.
Qed.

(** C8.  For an EXPOSE instruction that is in the whitelist, written in
    upper case and has an argument, every token is validated on its own:
    the diagnostics pushed are one INVALID_PORT error per invalid token,
    in order, at the range of that token and citing it; a token is valid
    exactly when all its characters are digits or dashes and neither its
    first nor its last character is a dash.  So "8080" and "9090" are
    valid, "-80" and "80-" are not. *)
Theorem C8_expose_ports
    (keywords : list string) (escape : ascii) (instruction : Instruction)
    (problems : list Diagnostic) :
  getKeyword instruction = "EXPOSE" ->
  getInstruction instruction = "EXPOSE" ->
  JS.notIn "EXPOSE" keywords = false ->
  fst (checkArguments escape instruction problems) = true ->
  let invalid := filter (fun arg => negb (validatePort (argValue arg)))
                   (getArgments instruction escape) in
  let report arg := createInvalidPort (offsetAt (start (argRange arg)))
                      (offsetAt (end_ (argRange arg))) (argValue arg) in
  checkInstruction keywords escape instruction problems
  = Some (problems ++ map report invalid)
  /\ (forall arg, code (report arg) = INVALID_PORT /\ severity (report arg) = Error
                  /\ range (report arg) = reportedAt (argRange arg)
                  /\ message (report arg) = getDiagnosticMessage_InvalidPort (argValue arg))
  /\ (forall token,
        validatePort token = true
        <-> Forall (fun c => isDigit c \/ c = "-"%char) (characters token)
            /\ String.get 0 token <> Some "-"%char
            /\ String.get (String.length token - 1) token <> Some "-"%char)
  /\ validatePort "8080" = true /\ validatePort "9090" = true
  /\ validatePort "-80" = false /\ validatePort "80-" = false.
Proof.
  intros Hkw Hins Hin Hargs invalid report.
  split; [|split; [|split; [exact validatePort_spec|]]].
  - unfold checkInstruction. rewrite Hkw, Hins, Hin.
    cbn [isSingleKeyword String.eqb Ascii.eqb Bool.eqb orb andb negb].
    rewrite (checkArguments_present _ _ _ Hargs).
    unfold checkSingleArgument. subst invalid report.
    destruct (getArgments instruction escape) as [|arg0 others] eqn:Ha.
    + rewrite app_nil_r. reflexivity.
    + rewrite checkEachArgument_all. reflexivity.
  - intros arg. repeat split.
  - repeat split.
Qed.

(* ================================================================== *)
(** ** Termination *)

(** No inner loop moves its index backwards: by [forLoop_fuel], each of
    them runs to the end of the text or to the point where it leaves,
    with the fuel it is given. *)
Lemma loop_bodies_advancing (escape : ascii) (text : string)
    (problems : list Diagnostic) :
  advancing (checkArgumentsBody text escape)
  /\ advancing (parseJSONBody escape text)
  /\ advancing (parseVOLUMEBody escape text problems)
  /\ advancing (skipCommentBody text problems)
  /\ advancing (skipInstructionBody escape text problems)
  /\ advancing (checkInstructionLineBody escape text problems)
  /\ advancing (wordBody escape text).
Proof.
  split; [apply checkArgumentsBody_advancing|].
  split; [apply parseJSONBody_advancing|].
  split; [|split; [|split; [|split]]]; intros s k s' k';
    pose proof (skipContinuation_bounds text k).
  - unfold parseVOLUMEBody. split_ifs; intros H'; inversion H'; subst; lia.
  - unfold skipCommentBody. split_ifs; intros H'; inversion H'; subst; lia.
  - unfold skipInstructionBody. split_ifs; intros H'; inversion H'; subst; lia.
  - unfold checkInstructionLineBody. split_ifs; intros H'; inversion H'; subst; lia.
  - unfold wordBody. destruct s as [instruction start].
    split_ifs; intros H'; inversion H'; subst; lia.
Qed.

(** The word loop leaves with a word only at an offset after [i] and
    inside the text. *)
Lemma scanWord_Word (escape : ascii) (text : string) (i j : Z) (word : string) :
  scanWord escape text i = Word j word -> i < j < JS.length text.
Proof.
  unfold scanWord.
  apply (forLoop_invariant (fun (_ : string * Z) k => i < k)
           (fun r => r = Word j word -> i < j < JS.length text)); [| |lia].
  - intros [instruction start] k Hk Hlt. unfold wordBody.
    pose proof (skipContinuation_bounds text k).
    split_ifs; try lia; try discriminate.
    intros [= <- _]. lia.
  - discriminate.
Qed.

Lemma skipComment_outcome (text : string) (i : Z) (problems : list Diagnostic) :
  match skipComment text i problems with
  | Resume i' _ => i <= i'
  | Return _ => True
  end.
Proof.
  unfold skipComment.
  apply (forLoop_invariant (fun (_ : unit) k => i < k)
           (fun o => match o with Resume i' _ => i <= i' | Return _ => True end));
    [| |lia].
  - intros [] k Hk _. unfold skipCommentBody. split_ifs; lia.
  - intros; exact I.
Qed.

Lemma checkInstructionLine_outcome (escape : ascii) (text : string) (j : Z)
    (problems : list Diagnostic) :
  match checkInstructionLine escape text j problems with
  | Resume i' _ => j <= i'
  | Return _ => True
  end.
Proof.
  unfold checkInstructionLine.
  apply (forLoop_invariant (fun (_ : bool) k => j < k)
           (fun o => match o with Resume i' _ => j <= i' | Return _ => True end));
    [| |lia].
  - intros check k Hk _. unfold checkInstructionLineBody.
    pose proof (skipContinuation_bounds text k). split_ifs; lia.
  - intros; exact I.
Qed.

(** Without an opening bracket in the text, [parseVOLUME] returns an
    offset after the one it was called with. *)
Lemma parseVOLUME_forward (escape : ascii) (lineStart offset : Z) (text : string)
    (problems : list Diagnostic) :
  (forall k, JS.charIs text k "["%char = false) ->
  offset < JS.length text ->
  offset <= fst (parseVOLUME escape lineStart offset text problems).
Proof.
  intros Hno Hlen. unfold parseVOLUME.
  apply (forLoop_invariant (fun (_ : bool) k => offset < k)
           (fun r => offset <= fst r)); [| |lia].
  - intros json k Hk _. unfold parseVOLUMEBody. rewrite Hno.
    pose proof (skipContinuation_bounds text k).
    cbn [andb]. split_ifs; cbn [fst]; lia.
  - intros json k Hk. cbn [fst]. lia.
Qed.

Lemma no_bracket_progresses (keywords : list string) (escape : ascii) (text : string) :
  (forall k, JS.charIs text k "["%char = false) ->
  progresses keywords escape text.
Proof.
  intros Hno i problems. unfold lineStep.
  destruct (isWhitespaceAt text i); [lia|].
  destruct (JS.charIs text i "#"%char); [apply skipComment_outcome|].
  destruct (scanWord escape text i) as [j word| |] eqn:Hw; [|exact I|lia].
  apply scanWord_Word in Hw. unfold dispatch.
  assert (Hskip : match skipInstruction escape text j problems with
                  | Resume i' _ => i <= i'
                  | Return _ => True
                  end).
  { destruct (skipInstruction_outcome escape text j problems) as [->|(k & -> & Hk & _)];
      [exact I|lia]. }
  destruct (existsb (String.eqb word) plainKeywords); [exact Hskip|].
  destruct (String.eqb word "VOLUME").
  { pose proof (parseVOLUME_forward escape i j text problems Hno ltac:(lia)) as Hv.
    destruct (parseVOLUME escape i j text problems) as [jump ps]. cbn [fst] in Hv. lia. }
  destruct (JS.notIn word keywords); [exact Hskip|].
  pose proof (checkInstructionLine_outcome escape text j problems) as Hc.
  destruct (checkInstructionLine escape text j problems); [lia|exact I].
Qed.

(** A scan that always moves forward returns. *)
Lemma lineCheck_returns (keywords : list string) (escape : ascii) (text : string) :
  progresses keywords escape text ->
  forall fuel i problems,
    (loopFuel (JS.length text) i < fuel)%nat ->
    exists problems', lineCheck fuel keywords escape text i problems = Some problems'.
Proof.
  intros Hprog fuel.
  induction fuel as [|fuel IH]; intros i problems Hfuel; [lia|].
  cbn [lineCheck]. destruct (Z.ltb_spec i (JS.length text)) as [Hlt|Hge];
    [|eexists; reflexivity].
  specialize (Hprog i problems).
  destruct (lineStep keywords escape text i problems) as [i' ps|ps];
    [|eexists; reflexivity].
  apply IH. rewrite (loopFuel_lt _ _ Hlt) in Hfuel.
  pose proof (loopFuel_mono (JS.length text) (i + 1) (i' + 1) ltac:(lia)). lia.
Qed.

(** The document-model pass never calls an undefined function. *)
Lemma checkInstruction_defined (keywords : list string) (escape : ascii)
    (instruction : Instruction) (problems : list Diagnostic) :
  exists problems', checkInstruction keywords escape instruction problems = Some problems'.
Proof.
  unfold checkInstruction.
  destruct (JS.notIn _ keywords); [eexists; reflexivity|].
  destruct (negb (String.eqb _ _)); [eexists; reflexivity|].
  destruct (checkArguments escape instruction _) as [present ps].
  destruct present; [|eexists; reflexivity].
  destruct (isSingleKeyword _).
  { unfold checkSingleArgument.
    destruct (getArgments instruction escape) as [|arg0 [|arg1 others]];
      cbn [validateAny negb]; eexists; reflexivity. }
  destruct (String.eqb _ "STOPSIGNAL").
  { unfold checkSingleArgument.
    destruct (getArgments instruction escape) as [|arg0 [|arg1 others]];
      [eexists; reflexivity| |];
      destruct (negb (validateStopSignal (argValue arg0))); eexists; reflexivity. }
  destruct (String.eqb _ "EXPOSE"); [|eexists; reflexivity].
  unfold checkSingleArgument.
  destruct (getArgments instruction escape) as [|arg0 others]; [eexists; reflexivity|].
  rewrite checkEachArgument_all. eexists; reflexivity.
Qed.

Lemma checkInstructions_defined (keywords : list string) (escape : ascii) :
  forall instructions problems,
    exists problems',
      checkInstructions keywords escape instructions problems = Some problems'.
Proof.
  induction instructions as [|instruction rest IH]; intros problems; simpl.
  - eexists; reflexivity.
  - destruct (checkInstruction_defined keywords escape instruction problems) as [ps ->].
    apply IH.
Qed.

Lemma offsetAt_nonneg (p : Position) : 0 <= offsetAt p.
Proof.
  unfold offsetAt, TextDocument.offsetAt.
  pose proof (JS_length_nonneg document).
  destruct (Nat.leb_spec (List.length (TextDocument.getLineOffsets document)) (line p))
    as [Hge|Hlt]; [assumption|].
  pose proof (getLineOffsets_bounds document) as Hb. rewrite Forall_forall in Hb.
  pose proof (Hb _ (nth_In (TextDocument.getLineOffsets document) 0 Hlt)).
  lia.
Qed.

(** [validate] never throws; and on a document without an opening
    bracket it returns, as soon as the fuel exceeds the length of the
    document. *)
Lemma validate_returns (fuel : nat) (keywords : list string) (dockerfile : Dockerfile) :
  validate fuel keywords dockerfile <> Thrown
  /\ ((forall k, JS.charIs document k "["%char = false) ->
      (String.length document < fuel)%nat ->
      exists ds, validate fuel keywords dockerfile = Returned ds).
Proof.
  unfold validate.
  destruct (parseDirective dockerfile []) as [parsed ps0] eqn:Hp.
  destruct (checkInstructions_defined keywords (escape parsed)
              (getInstructions dockerfile)
              (checkSourceImage (getInstructions dockerfile) ps0)) as [ps1 ->].
  split.
  - destruct (lineCheck fuel keywords (escape parsed) document (dc parsed) ps1); discriminate.
  - intros Hno Hfuel.
    destruct (lineCheck_returns keywords (escape parsed) document
                (no_bracket_progresses keywords (escape parsed) document Hno)
                fuel (dc parsed) ps1) as [ps2 ->]; [|eexists; reflexivity].
    assert (Hdc : 0 <= dc parsed).
    { replace parsed with (fst (parseDirective dockerfile [])) by (rewrite Hp; reflexivity).
      unfold parseDirective. destruct (getDirective dockerfile); cbn [fst dc];
        [apply offsetAt_nonneg|lia]. }
    unfold loopFuel, JS.length. lia.
Qed.

(** Whenever [validate] returns: if the instruction list is empty,
    the list returned holds exactly one NO_SOURCE_IMAGE diagnostic, and
    its range is (0,0)-(0,0); if the list is not empty and the keyword of
    its first instruction is not FROM, the list returned holds exactly
    one NO_SOURCE_IMAGE diagnostic, reported at the range of that
    instruction.  And [validate] does return, with fuel above the length
    of the document, when the document has no opening bracket (with one,
    the scanner may run forever, see [lineCheck_can_run_forever]). *)
Theorem no_source_image_exactly_once
    (fuel : nat) (keywords : list string) (dockerfile : Dockerfile) :
  (forall ds,
     validate fuel keywords dockerfile = Returned ds ->
     (getInstructions dockerfile = [] ->
      exists d, withCode NO_SOURCE_IMAGE ds = [d]
                /\ severity d = Error
                /\ range d = {| start := {| line := 0; character := 0 |};
                                end_ := {| line := 0; character := 0 |} |})
     /\ (forall first rest,
           getInstructions dockerfile = first :: rest ->
           getKeyword first <> "FROM" ->
           exists d, withCode NO_SOURCE_IMAGE ds = [d]
                     /\ severity d = Error
                     /\ range d = reportedAt (getInstructionRange first)))
  /\ ((forall k, JS.charIs document k "["%char = false) ->
      (String.length document < fuel)%nat ->
      exists ds, validate fuel keywords dockerfile = Returned ds).
Proof.
  split; [|apply validate_returns].
  intros ds Hv. apply validate_returned in Hv.
  destruct Hv as (model & scan & -> & Hmodel & Hscan).
  assert (Hm : withCode NO_SOURCE_IMAGE model = []).
  { apply withCode_none. eapply Forall_impl; [|exact Hmodel].
    intros d (ins & _ & Hd). eapply emittedFor_code, Hd. }
  assert (Hs : withCode NO_SOURCE_IMAGE scan = []).
  { apply withCode_none. eapply Forall_impl; [|exact Hscan].
    intros d Hd. rewrite (isUnexpectedToken_code d Hd). discriminate. }
  rewrite !withCode_app, Hm, Hs, !app_nil_r.
  split.
  - intros ->. cbn [checkSourceImage].
    rewrite withCode_app, parseDirective_no_source_image.
    eexists. split; [reflexivity|]. split; [reflexivity|].
    cbn [range createNoSourceImage createError createDiagnostic].
    unfold positionAt. rewrite positionAt_zero. reflexivity.
  - intros first rest -> Hkw. cbn [checkSourceImage].
    apply String.eqb_neq in Hkw. rewrite Hkw. cbn [negb].
    rewrite withCode_app, parseDirective_no_source_image.
    eexists. split; [reflexivity|]. split; reflexivity.
Qed.

(* ================================================================== *)
(** ** Further properties of the document-model pass *)

(** X2.  The predicate of STOPSIGNAL: a token is valid exactly when it
    starts with SIG or all its characters are digits; the empty token is
    valid. *)
Theorem X2_stop_signal_predicate (token : string) :
  (validateStopSignal token = true
   <-> String.prefix "SIG" token = true \/ Forall isDigit (characters token))
  /\ validateStopSignal EmptyString = true.
Proof.
  split; [|reflexivity].
  unfold validateStopSignal.
  destruct (String.prefix "SIG" token).
  - split; [intros _; left; reflexivity|reflexivity].
  - rewrite noCharacter_Forall. split.
    + intros H. right. eapply Forall_impl; [|exact H].
      intros c Hc. apply notDigit_isDigit, Hc.
    + intros [H|H]; [discriminate|].
      eapply Forall_impl; [|exact H]. intros c Hc. apply notDigit_isDigit, Hc.
Qed.

(** X3.  The message of an INVALID_STOPSIGNAL diagnostic is undefined:
    its getter reads the key "invalidStopsignal", while the table holds
    the text under "invalidStopSignal".  Every other diagnostic of the
    document-model pass carries a message. *)
Theorem X3_invalid_stop_signal_has_no_message
    (keywords : list string) (escape : ascii) (instruction : Instruction)
    (problems problems' : list Diagnostic) :
  checkInstruction keywords escape instruction problems = Some problems' ->
  exists new,
    problems' = problems ++ new
    /\ Forall (fun d => message d = None <-> code d = INVALID_STOPSIGNAL) new
    /\ property dockerProblems "invalidStopSignal" = Some "Invalid stop signal"
    /\ property dockerProblems "invalidStopsignal" = None.
Proof.
  intros H. apply checkInstruction_emits in H. destruct H as (new & -> & Hnew).
  exists new. split; [reflexivity|]. split; [|split; reflexivity].
  eapply Forall_impl; [|exact Hnew].
  intros d Hd. destruct Hd; try (split; discriminate); try (split; reflexivity).
  unfold createMaintainerDeprecated in H.
  destruct (deprecatedMaintainer settings); try discriminate;
    injection H as <-; split; discriminate.
Qed.

(** X4.  Under the Ignore setting, no list [validate] returns holds a
    DEPRECATED_MAINTAINER diagnostic, whatever the document. *)
Theorem X4_ignore_silences_maintainer
    (fuel : nat) (keywords : list string) (dockerfile : Dockerfile)
    (ds : list Diagnostic) :
  deprecatedMaintainer settings = IGNORE ->
  validate fuel keywords dockerfile = Returned ds ->
  withCode DEPRECATED_MAINTAINER ds = [].
Proof.
  intros Hset Hv. apply validate_returned in Hv.
  destruct Hv as (model & scan & -> & Hmodel & Hscan).
  rewrite !withCode_app.
  assert (H0 : withCode DEPRECATED_MAINTAINER
                 (checkSourceImage (getInstructions dockerfile)
                    (snd (parseDirective dockerfile []))) = []).
  { unfold checkSourceImage.
    assert (Hd : withCode DEPRECATED_MAINTAINER (snd (parseDirective dockerfile [])) = []).
    { destruct (parseDirective_problems dockerfile [])
        as [->|(directive & _ & [-> | ->])]; reflexivity. }
    destruct (getInstructions dockerfile) as [|first rest].
    - rewrite withCode_app, Hd. reflexivity.
    - destruct (negb (String.eqb (getKeyword first) "FROM")); [|exact Hd].
      rewrite withCode_app, Hd. reflexivity. }
  rewrite H0.
  rewrite (withCode_none DEPRECATED_MAINTAINER model).
  - rewrite (withCode_none DEPRECATED_MAINTAINER scan); [reflexivity|].
    eapply Forall_impl; [|exact Hscan].
    intros d Hd. rewrite (isUnexpectedToken_code d Hd). discriminate.
  - eapply Forall_impl; [|exact Hmodel].
    intros d (ins & _ & Hd). destruct Hd; try discriminate.
    unfold createMaintainerDeprecated in H. rewrite Hset in H. discriminate.
Qed.

(** X5.  Every diagnostic of a list [validate] returns carries the
    source tag "dockerfile-lsp"; it is an error, unless it is the casing
    warning or the MAINTAINER deprecation (whose severity is the
    setting); and the code DEFAULT is the code of the scanner's
    "Unexpected token" only. *)
Theorem X5_diagnostics_are_tagged
    (fuel : nat) (keywords : list string) (dockerfile : Dockerfile)
    (ds : list Diagnostic) :
  validate fuel keywords dockerfile = Returned ds ->
  Forall (fun d =>
            source d = "dockerfile-lsp"
            /\ (severity d = Error
                \/ (severity d = Warning
                    /\ (code d = LOWERCASE \/ code d = DEPRECATED_MAINTAINER)))
            /\ (code d = DEFAULT -> isUnexpectedToken d)) ds.
Proof.
  intros Hv. apply validate_returned in Hv.
  destruct Hv as (model & scan & -> & Hmodel & Hscan).
  apply Forall_app. split; [|apply Forall_app; split].
  - assert (H0 : Forall (fun d =>
                   source d = "dockerfile-lsp"
                   /\ (severity d = Error
                       \/ (severity d = Warning
                           /\ (code d = LOWERCASE \/ code d = DEPRECATED_MAINTAINER)))
                   /\ (code d = DEFAULT -> isUnexpectedToken d))
                  (snd (parseDirective dockerfile []))).
    { destruct (parseDirective_problems dockerfile [])
        as [->|(directive & _ & [-> | ->])]; [apply Forall_nil| |];
        (apply Forall_cons; [|apply Forall_nil]);
        (split; [reflexivity|split; [left; reflexivity|discriminate]]). }
    unfold checkSourceImage.
    destruct (getInstructions dockerfile) as [|first rest].
    + apply Forall_app. split; [exact H0|].
      apply Forall_cons; [|apply Forall_nil].
      split; [reflexivity|split; [left; reflexivity|discriminate]].
    + destruct (negb (String.eqb (getKeyword first) "FROM")); [|exact H0].
      apply Forall_app. split; [exact H0|].
      apply Forall_cons; [|apply Forall_nil].
      split; [reflexivity|split; [left; reflexivity|discriminate]].
  - eapply Forall_impl; [|exact Hmodel].
    intros d (ins & _ & Hd).
    destruct Hd;
      try (split; [reflexivity|split; [left; reflexivity|discriminate]]).
    + split; [reflexivity|split; [|discriminate]].
      right. split; [reflexivity|left; reflexivity].
    + unfold createMaintainerDeprecated in H.
      destruct (deprecatedMaintainer settings); try discriminate;
        injection H as <-; (split; [reflexivity|split; [|discriminate]]).
      * right. split; [reflexivity|right; reflexivity].
      * left. reflexivity.
  - eapply Forall_impl; [|exact Hscan].
    intros d Hd. split; [|split; [|intros _; exact Hd]];
      destruct Hd as (a & ->); [reflexivity|left; reflexivity].
Qed.

(** X6.  [parseDirective] pushes nothing exactly when there is no
    directive, or the directive is named "escape" and its value is the
    backslash, the backtick or empty; otherwise it pushes one diagnostic.
    Without a directive the scan starts at offset 0 with the backslash;
    with one, it starts at the end of the directive's range. *)
Theorem X6_parseDirective_silence
    (dockerfile : Dockerfile) (problems : list Diagnostic) :
  (snd (parseDirective dockerfile problems) = problems
   <-> match getDirective dockerfile with
       | None => True
       | Some directive =>
           getDirectiveName directive = DIRECTIVE_ESCAPE
           /\ (getValue directive = "\" \/ getValue directive = "`"
               \/ getValue directive = EmptyString)
       end)
  /\ (exists new, snd (parseDirective dockerfile problems) = problems ++ new
                  /\ (List.length new <= 1)%nat)
  /\ dc (fst (parseDirective dockerfile problems))
     = match getDirective dockerfile with
       | None => 0
       | Some directive => offsetAt (end_ (getRange directive))
       end
  /\ (getDirective dockerfile = None ->
      escape (fst (parseDirective dockerfile problems)) = BACKSLASH).
Proof.
  assert (Hne : forall (d : Diagnostic), problems ++ [d] <> problems).
  { intros d H. apply (f_equal (@List.length Diagnostic)) in H.
    rewrite length_app in H. simpl in H. lia. }
  unfold parseDirective.
  destruct (getDirective dockerfile) as [directive|]; cbn [fst snd dc escape].
  2:{ split; [split; auto|]. split; [exists []; rewrite app_nil_r; split; [reflexivity|simpl; lia]|].
      split; reflexivity. }
  split; [|split; [|split; [reflexivity|discriminate]]].
  - destruct (String.eqb_spec (getDirectiveName directive) DIRECTIVE_ESCAPE) as [Hn|Hn];
      cbn [negb].
    + destruct (String.eqb_spec (getValue directive) "\") as [H1|H1]; cbn [negb andb].
      { split; [intros _; split; [exact Hn|left; exact H1]|reflexivity]. }
      destruct (String.eqb_spec (getValue directive) "`") as [H2|H2]; cbn [negb andb].
      { split; [intros _; split; [exact Hn|right; left; exact H2]|reflexivity]. }
      destruct (String.eqb_spec (getValue directive) EmptyString) as [H3|H3]; cbn [negb andb].
      { split; [intros _; split; [exact Hn|right; right; exact H3]|reflexivity]. }
      split; [intros H; exfalso; eapply Hne, H|].
      intros [_ [H|[H|H]]]; contradiction.
    + split; [intros H; exfalso; eapply Hne, H|].
      intros [H _]. contradiction.
  - destruct (negb (String.eqb (getDirectiveName directive) DIRECTIVE_ESCAPE)).
    + eexists. split; [reflexivity|simpl; lia].
    + destruct (_ && _).
      * eexists. split; [reflexivity|simpl; lia].
      * exists []. rewrite app_nil_r. split; [reflexivity|simpl; lia].
Qed.

(* ================================================================== *)
(** ** Further properties of the structural scanner *)

(** X7.  A turn of the scanner changes the diagnostics only on a line
    whose first word, in upper case, is VOLUME: on whitespace, on a
    comment and on any other word the list is returned as it was.  On a
    VOLUME line at most one diagnostic is added, and this does not depend
    on the whitelist. *)
Theorem X7_scanner_reports_on_volume_lines_only
    (keywords : list string) (escape : ascii) (text : string) (i : Z)
    (problems : list Diagnostic) :
  ((forall j, scanWord escape text i <> Word j "VOLUME") ->
   problemsOf (lineStep keywords escape text i problems) = problems)
  /\ addsAtMostOne problems (problemsOf (lineStep keywords escape text i problems))
  /\ (forall j, isWhitespaceAt text i = false -> JS.charIs text i "#"%char = false ->
        scanWord escape text i = Word j "VOLUME" ->
        lineStep keywords escape text i problems
        = Resume (fst (parseVOLUME escape i j text problems))
            (snd (parseVOLUME escape i j text problems))).
Proof.
  split; [|split; [apply lineStep_adds|]].
  - intros Hno. unfold lineStep.
    destruct (isWhitespaceAt text i); [reflexivity|].
    destruct (JS.charIs text i "#"%char); [apply skipComment_problems|].
    destruct (scanWord escape text i) as [j word| |] eqn:Hw; [|reflexivity|reflexivity].
    unfold dispatch.
    destruct (existsb (String.eqb word) plainKeywords); [apply skipInstruction_problems|].
    destruct (String.eqb_spec word "VOLUME") as [->|Hne].
    { exfalso. apply (Hno j). reflexivity. }
    destruct (JS.notIn word keywords);
      [apply skipInstruction_problems|apply checkInstructionLine_problems].
  - intros j Hws Hhash Hw. unfold lineStep, dispatch.
    rewrite Hws, Hhash, Hw. cbn.
    destruct (parseVOLUME escape i j text problems); reflexivity.
Qed.

(** The scan does not end when a turn that starts at [i] always resumes
    one offset earlier. *)
Lemma lineCheck_loops (keywords : list string) (escape : ascii) (text : string) (i : Z) :
  i < JS.length text ->
  (forall problems, exists problems',
      lineStep keywords escape text i problems = Resume (i - 1) problems') ->
  forall fuel problems, lineCheck fuel keywords escape text i problems = None.
Proof.
  intros Hi Hloop fuel.
  induction fuel as [|fuel IH]; intros problems; [reflexivity|].
  cbn [lineCheck]. destruct (Z.ltb_spec i (JS.length text)); [|lia].
  destruct (Hloop problems) as [ps ->].
  replace (i - 1 + 1) with i by lia. apply IH.
Qed.

(** X8.  The scanner can run forever.  If the turn that starts at offset
    [i] resumes one offset earlier, whatever the diagnostics so far (as
    the VOLUME case does when the array validator returns [last + 1 = 0]
    for a VOLUME that starts at offset 1), and the scan starts at [i] or
    at whitespace that leads to [i], then the scan is not finished after
    any number of turns, and [validate] does not return. *)
Theorem X8_scanner_can_run_forever
    (keywords : list string) (dockerfile : Dockerfile) (i : Z) :
  let parsed := fst (parseDirective dockerfile []) in
  i < JS.length document ->
  dc parsed <= i ->
  (forall k, dc parsed <= k < i -> isWhitespaceAt document k = true) ->
  (forall problems, exists problems',
      lineStep keywords (escape parsed) document i problems = Resume (i - 1) problems') ->
  forall fuel, validate fuel keywords dockerfile = OutOfFuel.
Proof.
  intros parsed Hi Hdc Hws Hloop fuel. unfold validate. subst parsed.
  destruct (parseDirective dockerfile []) as [parsed ps0]. cbn [fst] in *.
  destruct (checkInstructions_defined keywords (escape parsed)
              (getInstructions dockerfile)
              (checkSourceImage (getInstructions dockerfile) ps0)) as [ps1 ->].
  assert (Hnone : forall fuel a problems,
             a <= i -> (forall k, a <= k < i -> isWhitespaceAt document k = true) ->
             lineCheck fuel keywords (escape parsed) document a problems = None).
  { clear fuel. induction fuel as [|fuel IH]; intros a problems Ha Hk; [reflexivity|].
    destruct (Z.eq_dec a i) as [->|Hne].
    - apply (lineCheck_loops keywords (escape parsed) document i Hi Hloop).
    - cbn [lineCheck]. destruct (Z.ltb_spec a (JS.length document)); [|lia].
      unfold lineStep. rewrite (Hk a) by lia.
      apply IH; [lia|]. intros k Hk'. apply Hk. lia. }
  rewrite (Hnone fuel (dc parsed) ps1 Hdc Hws). reflexivity.
Qed.

(** X9.  [validate] never throws: the optional diagnostic constructor
    is only missing where the predicate cannot fail.  And it returns, with
    fuel above the length of the document, whenever no turn of the
    scanner resumes before the offset it started from. *)
Theorem X9_validate_never_throws
    (fuel : nat) (keywords : list string) (dockerfile : Dockerfile) :
  validate fuel keywords dockerfile <> Thrown
  /\ (progresses keywords (escape (fst (parseDirective dockerfile []))) document ->
      (String.length document < fuel)%nat ->
      exists ds, validate fuel keywords dockerfile = Returned ds).
Proof.
  split; [apply validate_returns|].
  intros Hprog Hfuel. unfold validate.
  destruct (parseDirective dockerfile []) as [parsed ps0] eqn:Hp. cbn [fst] in Hprog.
  destruct (checkInstructions_defined keywords (escape parsed)
              (getInstructions dockerfile)
              (checkSourceImage (getInstructions dockerfile) ps0)) as [ps1 ->].
  destruct (lineCheck_returns keywords (escape parsed) document Hprog
              fuel (dc parsed) ps1) as [ps2 ->]; [|eexists; reflexivity].
  assert (Hdc : 0 <= dc parsed).
  { replace parsed with (fst (parseDirective dockerfile [])) by (rewrite Hp; reflexivity).
    unfold parseDirective. destruct (getDirective dockerfile); cbn [fst dc];
      [apply offsetAt_nonneg|lia]. }
  unfold loopFuel, JS.length. lia.
Qed.

Lemma blank_not_continuation (escape : ascii) (text : string) (k : Z) :
  isEscapeChar escape ->
  JS.charIs text k SPACE = true \/ JS.charIs text k TAB = true ->
  shouldSkipNewline text k escape = false
  /\ JS.charIs text k QUOTE = false
  /\ JS.charIs text k "["%char = false
  /\ JS.charIs text k CR = false /\ JS.charIs text k LF = false
  /\ (JS.charIs text k SPACE || JS.charIs text k TAB) = true
  /\ k < JS.length text.
Proof.
  intros Hesc Hb. unfold shouldSkipNewline.
  destruct Hb as [H|H]; pose proof (charIs_range _ _ _ H) as Hr;
    rewrite !(charIs_other _ _ _ _ H);
    destruct Hesc as [-> | ->];
    (split; [reflexivity|]); (split; [reflexivity|]); (split; [reflexivity|]);
    (split; [reflexivity|]); (split; [reflexivity|]); (split; [reflexivity|]);
    apply Hr.
Qed.

(** The array loop passes over spaces and tabs without a change of
    state. *)
Lemma parseJSONFrom_blank (escape : ascii) (text : string) (st : JSONState) :
  isEscapeChar escape ->
  forall n i,
    (forall k, i <= k < i + Z.of_nat n ->
       JS.charIs text k SPACE = true \/ JS.charIs text k TAB = true) ->
    parseJSONFrom escape text st i = parseJSONFrom escape text st (i + Z.of_nat n).
Proof.
  intros Hesc. induction n as [|n IH]; intros i Hb.
  - f_equal. lia.
  - destruct (blank_not_continuation escape text i Hesc (Hb i ltac:(lia)))
      as (Hs & Hq & _ & _ & _ & Hbl & Hlt).
    unfold parseJSONFrom at 1.
    rewrite forLoop_step by (try apply parseJSONBody_advancing; lia).
    unfold parseJSONBody at 1. rewrite Hs, Hq, Hbl, andb_false_r.
    fold (parseJSONFrom escape text st (i + 1)).
    rewrite (IH (i + 1)) by (intros k Hk; apply Hb; lia).
    f_equal. lia.
Qed.

(** X10.  When only spaces and tabs follow the opening bracket up to the
    end of the text, the array validator has recorded no character:
    it reports at [last = -1], which is the range (0,0)-(0,0) wherever the
    array stands, and returns [last + 1 = 0], an offset before the
    array. *)
Theorem X10_blank_array_reports_at_the_start
    (escape : ascii) (offset : Z) (text : string) (problems : list Diagnostic) :
  isEscapeChar escape ->
  (forall k, offset < k < JS.length text ->
     JS.charIs text k SPACE = true \/ JS.charIs text k TAB = true) ->
  parseJSON escape offset text problems
  = (0, problems ++ [createUnexpectedToken (-1) 0])
  /\ range (createUnexpectedToken (-1) 0)
     = {| start := {| line := 0; character := 0 |};
          end_ := {| line := 0; character := 0 |} |}.
Proof.
  intros Hesc Hb. split.
  - unfold parseJSON.
    rewrite (parseJSONFrom_blank escape text _ Hesc
               (Z.to_nat (JS.length text - (offset + 1))) (offset + 1))
      by (intros k Hk; apply Hb; lia).
    unfold parseJSONFrom. rewrite forLoop_done by lia. reflexivity.
  - cbn [range createUnexpectedToken createError createDiagnostic].
    unfold positionAt.
    rewrite <- (positionAt_clamp document (-1)).
    pose proof (JS_length_nonneg document).
    replace (Z.max (Z.min (-1) (JS.length document)) 0) with 0 by lia.
    rewrite positionAt_zero. reflexivity.
Qed.

(** Once [json] is cleared, the loop of [parseVOLUME] reports nothing and
    stops at a line break or at the end of the text. *)
Lemma parseVOLUME_shell (escape : ascii) (text : string) (problems : list Diagnostic)
    (fuel : nat) (k : Z) :
  let r := forLoop fuel (JS.length text) (parseVOLUMEBody escape text problems)
             (fun _ _ => (JS.length text, problems)) false k in
  snd r = problems /\ (fst r = JS.length text \/ isLineBreakAt text (fst r) = true).
Proof.
  apply (forLoop_invariant (fun (json : bool) _ => json = false)
           (fun r => snd r = problems
                     /\ (fst r = JS.length text \/ isLineBreakAt text (fst r) = true)));
    [| |reflexivity].
  - intros json i -> _. unfold parseVOLUMEBody. rewrite andb_false_r.
    destruct (shouldSkipNewline text i escape); [reflexivity|].
    destruct (JS.charIs text i CR || JS.charIs text i LF) eqn:Hnl.
    + split; [reflexivity|right; exact Hnl].
    + destruct (negb (JS.charIs text i SPACE) && negb (JS.charIs text i TAB)); reflexivity.
  - intros json i _. split; [reflexivity|left; reflexivity].
Qed.

Lemma parseVOLUMEBody_advancing (escape : ascii) (text : string)
    (problems : list Diagnostic) :
  advancing (parseVOLUMEBody escape text problems).
Proof.
  intros s k s' k'. pose proof (skipContinuation_bounds text k).
  unfold parseVOLUMEBody. split_ifs; intros H'; inversion H'; subst; lia.
Qed.

Lemma parseVOLUME_blank (escape : ascii) (text : string) (problems : list Diagnostic) :
  isEscapeChar escape ->
  forall n i,
    (forall k, i <= k < i + Z.of_nat n ->
       JS.charIs text k SPACE = true \/ JS.charIs text k TAB = true) ->
    forLoop (loopFuel (JS.length text) i) (JS.length text)
      (parseVOLUMEBody escape text problems) (fun _ _ => (JS.length text, problems)) true i
    = forLoop (loopFuel (JS.length text) (i + Z.of_nat n)) (JS.length text)
        (parseVOLUMEBody escape text problems) (fun _ _ => (JS.length text, problems))
        true (i + Z.of_nat n).
Proof.
  intros Hesc. induction n as [|n IH]; intros i Hb.
  - replace (i + Z.of_nat 0) with i by lia. reflexivity.
  - destruct (blank_not_continuation escape text i Hesc (Hb i ltac:(lia)))
      as (Hs & _ & Hbr & Hcr & Hlf & Hbl & Hlt).
    rewrite forLoop_step by (try apply parseVOLUMEBody_advancing; lia).
    unfold parseVOLUMEBody at 1. rewrite Hs, Hcr, Hlf, Hbr.
    apply orb_prop in Hbl.
    replace (negb (JS.charIs text i SPACE) && negb (JS.charIs text i TAB)) with false
      by (destruct Hbl as [-> | ->]; rewrite ?andb_false_r; reflexivity).
    cbn [orb andb].
    rewrite IH by (intros k Hk; apply Hb; lia).
    replace (i + 1 + Z.of_nat n) with (i + Z.of_nat (S n)) by lia. reflexivity.
Qed.

(** X11.  Shell form is never reported.  After the keyword and any
    spaces and tabs, when the first other character is not an opening
    bracket (and does not start a continuation), [parseVOLUME] leaves
    the diagnostics as they are, even if a bracket follows later on the
    line, and returns the offset of a line break or the length of the
    text. *)
Theorem X11_volume_shell_form_is_silent
    (escape : ascii) (lineStart offset m : Z) (text : string)
    (problems : list Diagnostic) :
  isEscapeChar escape ->
  offset < m < JS.length text ->
  (forall k, offset < k < m ->
     JS.charIs text k SPACE = true \/ JS.charIs text k TAB = true) ->
  JS.charIs text m SPACE = false ->
  JS.charIs text m TAB = false ->
  JS.charIs text m "["%char = false ->
  shouldSkipNewline text m escape = false ->
  snd (parseVOLUME escape lineStart offset text problems) = problems
  /\ (fst (parseVOLUME escape lineStart offset text problems) = JS.length text
      \/ isLineBreakAt text (fst (parseVOLUME escape lineStart offset text problems)) = true).
Proof.
  intros Hesc Hm Hb Hsp Htab Hbr Hskip. unfold parseVOLUME.
  rewrite (parseVOLUME_blank escape text problems Hesc
             (Z.to_nat (m - (offset + 1))) (offset + 1))
    by (intros k Hk; apply Hb; lia).
  replace (offset + 1 + Z.of_nat (Z.to_nat (m - (offset + 1)))) with m by lia.
  rewrite forLoop_step by (try apply parseVOLUMEBody_advancing; lia).
  assert (Hbody : parseVOLUMEBody escape text problems true m
                  = if JS.charIs text m CR || JS.charIs text m LF
                    then Leave (m, problems) else Next false m).
  { unfold parseVOLUMEBody. rewrite Hskip, Hbr, Hsp, Htab. reflexivity. }
  rewrite Hbody.
  destruct (JS.charIs text m CR || JS.charIs text m LF) eqn:Hnl.
  { cbn [fst snd]. split; [reflexivity|right; exact Hnl]. }
  apply parseVOLUME_shell.
Qed.

(* ================================================================== *)
(** ** The passes do not read the diagnostics they extend *)

(** Two loops whose bodies keep a relation between their states leave
    with related results. *)
Lemma forLoop_related {S1 S2 R1 R2 : Type}
    (Rs : S1 -> S2 -> Prop) (Rr : R1 -> R2 -> Prop) (len : Z)
    (body1 : S1 -> Z -> LoopStep S1 R1) (body2 : S2 -> Z -> LoopStep S2 R2)
    (after1 : S1 -> Z -> R1) (after2 : S2 -> Z -> R2) :
  (forall s1 s2 k, Rs s1 s2 ->
     match body1 s1 k, body2 s2 k with
     | Next a k1, Next b k2 => k1 = k2 /\ Rs a b
     | Leave r1, Leave r2 => Rr r1 r2
     | _, _ => False
     end) ->
  (forall s1 s2 k, Rs s1 s2 -> Rr (after1 s1 k) (after2 s2 k)) ->
  forall fuel s1 s2 k, Rs s1 s2 ->
    Rr (forLoop fuel len body1 after1 s1 k) (forLoop fuel len body2 after2 s2 k).
Proof.
  intros Hbody Hafter fuel.
  induction fuel as [|fuel IH]; intros s1 s2 k Hs; simpl; [apply Hafter, Hs|].
  destruct (k <? len); [|apply Hafter, Hs].
  specialize (Hbody s1 s2 k Hs).
  destruct (body1 s1 k) as [a k1|r1], (body2 s2 k) as [b k2|r2];
    try contradiction; [|exact Hbody].
  destruct Hbody as [-> Hab]. apply IH, Hab.
Qed.

Lemma parseJSONBody_framed (pre : list Diagnostic) (escape : ascii) (text : string)
    (st st' : JSONState) (i : Z) :
  framedState pre st st' ->
  match parseJSONBody escape text st i, parseJSONBody escape text st' i with
  | Next a k1, Next b k2 => k1 = k2 /\ framedState pre a b
  | Leave r1, Leave r2 => framedResult pre r1 r2
  | _, _ => False
  end.
Proof.
  intros (H1 & H2 & H3 & H4 & H5 & H6). unfold parseJSONBody.
  rewrite H1, H2, H3, H4, H5, H6.
  unfold framedState, framedResult.
  split_ifs; cbn [fst snd inString end_seen last expectComma flagged reported];
    rewrite <- ?app_assoc; repeat split; assumption.
Qed.

Lemma parseJSON_framed (pre : list Diagnostic) (escape : ascii) (offset : Z)
    (text : string) (problems : list Diagnostic) :
  framedResult pre (parseJSON escape offset text (pre ++ problems))
    (parseJSON escape offset text problems).
Proof.
  unfold parseJSON, parseJSONFrom.
  apply (forLoop_related (framedState pre) (framedResult pre)).
  - intros s1 s2 k. apply parseJSONBody_framed.
  - intros s1 s2 k (H1 & H2 & H3 & H4 & H5 & H6). unfold parseJSONAfter, framedResult.
    rewrite H1, H2, H3, H5, H6. cbn [fst snd].
    split; [reflexivity|]. split_ifs; rewrite <- ?app_assoc; reflexivity.
  - repeat split.
Qed.

Lemma parseVOLUME_framed (pre : list Diagnostic) (escape : ascii) (lineStart offset : Z)
    (text : string) (problems : list Diagnostic) :
  framedResult pre (parseVOLUME escape lineStart offset text (pre ++ problems))
    (parseVOLUME escape lineStart offset text problems).
Proof.
  unfold parseVOLUME.
  apply (forLoop_related eq (framedResult pre)); [| |reflexivity].
  - intros json ? k <-. unfold parseVOLUMEBody.
    pose proof (parseJSON_framed pre escape k text problems).
    split_ifs; try (split; reflexivity); try assumption.
  - intros json ? k <-. split; reflexivity.
Qed.

Lemma skipComment_framed (pre : list Diagnostic) (text : string) (i : Z)
    (problems : list Diagnostic) :
  framedOutcome pre (skipComment text i (pre ++ problems)) (skipComment text i problems).
Proof.
  unfold skipComment.
  apply (forLoop_related eq (framedOutcome pre)); [| |reflexivity].
  - intros [] ? k <-. unfold skipCommentBody. split_ifs; cbn; split; reflexivity.
  - intros; reflexivity.
Qed.

Lemma skipInstruction_framed (pre : list Diagnostic) (escape : ascii) (text : string)
    (j : Z) (problems : list Diagnostic) :
  framedOutcome pre (skipInstruction escape text j (pre ++ problems))
    (skipInstruction escape text j problems).
Proof.
  unfold skipInstruction.
  apply (forLoop_related eq (framedOutcome pre)); [| |reflexivity].
  - intros [] ? k <-. unfold skipInstructionBody. split_ifs; cbn; split; reflexivity.
  - intros; reflexivity.
Qed.

Lemma checkInstructionLine_framed (pre : list Diagnostic) (escape : ascii) (text : string)
    (j : Z) (problems : list Diagnostic) :
  framedOutcome pre (checkInstructionLine escape text j (pre ++ problems))
    (checkInstructionLine escape text j problems).
Proof.
  unfold checkInstructionLine.
  apply (forLoop_related eq (framedOutcome pre)); [| |reflexivity].
  - intros check ? k <-. unfold checkInstructionLineBody.
    split_ifs; cbn; split; reflexivity.
  - intros; reflexivity.
Qed.

Lemma lineStep_framed (pre : list Diagnostic) (keywords : list string) (escape : ascii)
    (text : string) (i : Z) (problems : list Diagnostic) :
  framedOutcome pre (lineStep keywords escape text i (pre ++ problems))
    (lineStep keywords escape text i problems).
Proof.
  unfold lineStep.
  destruct (isWhitespaceAt text i); [split; reflexivity|].
  destruct (JS.charIs text i "#"%char); [apply skipComment_framed|].
  destruct (scanWord escape text i) as [j word| |]; [|reflexivity|split; reflexivity].
  unfold dispatch.
  destruct (existsb (String.eqb word) plainKeywords); [apply skipInstruction_framed|].
  destruct (String.eqb word "VOLUME").
  { pose proof (parseVOLUME_framed pre escape i j text problems) as [H1 H2].
    destruct (parseVOLUME escape i j text (pre ++ problems)),
      (parseVOLUME escape i j text problems). split; assumption. }
  destruct (JS.notIn word keywords);
    [apply skipInstruction_framed|apply checkInstructionLine_framed].
Qed.

(** The scan of a text appends what it reports to the list it is given,
    and what it reports does not depend on that list. *)
Lemma lineCheck_framed (pre : list Diagnostic) (keywords : list string) (escape : ascii)
    (text : string) :
  forall fuel i problems,
    lineCheck fuel keywords escape text i (pre ++ problems)
    = option_map (app pre) (lineCheck fuel keywords escape text i problems).
Proof.
  induction fuel as [|fuel IH]; intros i problems; [reflexivity|].
  cbn [lineCheck]. destruct (i <? JS.length text); [|reflexivity].
  pose proof (lineStep_framed pre keywords escape text i problems) as H.
  destruct (lineStep keywords escape text i (pre ++ problems)) as [i1 ps1|ps1],
    (lineStep keywords escape text i problems) as [i2 ps2|ps2]; try contradiction.
  - destruct H as [-> ->]. apply IH.
  - cbn in H. subst ps1. reflexivity.
Qed.

Lemma checkEachArgument_framed (pre : list Diagnostic) (validate : string -> bool)
    (create : option (Z -> Z -> option string -> Diagnostic)) :
  forall args problems,
    checkEachArgument args (pre ++ problems) validate create
    = option_map (app pre) (checkEachArgument args problems validate create).
Proof.
  induction args as [|arg rest IH]; intros problems; [reflexivity|].
  simpl. destruct (negb (validate (argValue arg))); [|apply IH].
  destruct create as [f|]; [|reflexivity].
  rewrite <- app_assoc. apply IH.
Qed.

Lemma checkInstruction_framed (pre : list Diagnostic) (keywords : list string)
    (escape : ascii) (instruction : Instruction) (problems : list Diagnostic) :
  checkInstruction keywords escape instruction (pre ++ problems)
  = option_map (app pre) (checkInstruction keywords escape instruction problems).
Proof.
  unfold checkInstruction.
  destruct (JS.notIn _ keywords); [cbn; rewrite <- app_assoc; reflexivity|].
  destruct (negb (String.eqb _ _)); [cbn; rewrite <- app_assoc; reflexivity|].
  set (ps := if String.eqb (getKeyword instruction) "MAINTAINER" then _ else _).
  set (ps' := if String.eqb (getKeyword instruction) "MAINTAINER" then _ else _).
  assert (Hps : ps = pre ++ ps').
  { subst ps ps'. destruct (String.eqb _ "MAINTAINER"); [|reflexivity].
    destruct (createMaintainerDeprecated _ _); [rewrite <- app_assoc|]; reflexivity. }
  rewrite Hps. clearbody ps'. clear ps Hps.
  unfold checkArguments.
  destruct (argumentsMissing _ escape); [cbn; rewrite <- app_assoc; reflexivity|].
  assert (Hsingle : forall single validate create,
             checkSingleArgument escape instruction (pre ++ ps') single validate create
             = option_map (app pre)
                 (checkSingleArgument escape instruction ps' single validate create)).
  { intros single validate create. unfold checkSingleArgument.
    destruct (getArgments instruction escape) as [|arg0 others]; [reflexivity|].
    destruct single; [|apply checkEachArgument_framed].
    destruct (negb (validate (argValue arg0))).
    - destruct create as [f|]; [|reflexivity].
      destruct others; cbn; rewrite <- ?app_assoc; reflexivity.
    - destruct others; cbn; rewrite <- ?app_assoc; reflexivity. }
  destruct (isSingleKeyword _); [apply Hsingle|].
  destruct (String.eqb _ "STOPSIGNAL"); [apply Hsingle|].
  destruct (String.eqb _ "EXPOSE"); [apply Hsingle|reflexivity].
Qed.

Lemma checkInstructions_concat (keywords : list string) (escape : ascii) :
  forall instructions problems problems',
    checkInstructions keywords escape instructions problems = Some problems'
    <-> exists news,
          Forall2 (fun instruction new =>
                     checkInstruction keywords escape instruction [] = Some new)
            instructions news
          /\ problems' = problems ++ List.concat news.
Proof.
  induction instructions as [|instruction rest IH]; intros problems problems'; simpl.
  - split.
    + intros [= <-]. exists []. split; [constructor|]. simpl. rewrite app_nil_r. reflexivity.
    + intros (news & Hn & ->). inversion Hn; subst. simpl. rewrite app_nil_r. reflexivity.
  - pose proof (checkInstruction_framed problems keywords escape instruction []) as Hf.
    rewrite app_nil_r in Hf. rewrite Hf.
    destruct (checkInstruction keywords escape instruction []) as [new|] eqn:Hnew; cbn.
    + rewrite IH. split.
      * intros (news & Hn & ->). exists (new :: news).
        split; [constructor; assumption|]. simpl. rewrite app_assoc. reflexivity.
      * intros (news & Hn & ->). inversion Hn as [|? new' ? news' Hh Ht]; subst.
        exists news'. split; [exact Ht|].
        rewrite Hnew in Hh. injection Hh as <-. simpl. rewrite app_assoc. reflexivity.
    + split; [discriminate|].
      intros (news & Hn & _). inversion Hn; subst. congruence.
Qed.

Lemma checkSourceImage_framed (instructions : list Instruction) (problems : list Diagnostic) :
  checkSourceImage instructions problems = problems ++ checkSourceImage instructions [].
Proof.
  unfold checkSourceImage. destruct instructions as [|first rest]; [reflexivity|].
  destruct (negb (String.eqb (getKeyword first) "FROM")); [reflexivity|].
  rewrite app_nil_r. reflexivity.
Qed.

(** X12.  The list [validate] returns is a concatenation, in this order:
    what the directive pushed, the NO_SOURCE_IMAGE check, the diagnostics
    of each instruction in the order of the instructions, and the
    diagnostics of the scanner.  Each part is what its pass reports when
    started on the empty list: no pass reads the diagnostics that are
    already there. *)
Theorem X12_validate_concatenates_its_passes
    (fuel : nat) (keywords : list string) (dockerfile : Dockerfile)
    (ds : list Diagnostic) :
  let parsed := fst (parseDirective dockerfile []) in
  validate fuel keywords dockerfile = Returned ds
  <-> exists news scan,
        Forall2 (fun instruction new =>
                   checkInstruction keywords (escape parsed) instruction [] = Some new)
          (getInstructions dockerfile) news
        /\ lineCheck fuel keywords (escape parsed) document (dc parsed) [] = Some scan
        /\ ds = snd (parseDirective dockerfile [])
                ++ checkSourceImage (getInstructions dockerfile) []
                ++ List.concat news ++ scan.
Proof.
  intros parsed. subst parsed. unfold validate.
  destruct (parseDirective dockerfile []) as [parsed ps0]. cbn [fst snd].
  rewrite (checkSourceImage_framed _ ps0).
  set (ps1 := ps0 ++ checkSourceImage (getInstructions dockerfile) []).
  destruct (checkInstructions keywords (escape parsed) (getInstructions dockerfile) ps1)
    as [ps2|] eqn:H2.
  - apply checkInstructions_concat in H2. destruct H2 as (news & Hnews & ->).
    pose proof (lineCheck_framed (ps1 ++ List.concat news) keywords (escape parsed) document
                  fuel (dc parsed) []) as Hf.
    rewrite app_nil_r in Hf. rewrite Hf.
    assert (Huniq : forall news', Forall2 (fun instruction new =>
                       checkInstruction keywords (escape parsed) instruction [] = Some new)
                      (getInstructions dockerfile) news' -> news' = news).
    { clear -Hnews. revert Hnews. generalize (getInstructions dockerfile).
      intros l Hl. induction Hl as [|i n l ns Hh Ht IH]; intros news' H';
        inversion H'; subst; [reflexivity|].
      f_equal; [congruence|apply IH; assumption]. }
    destruct (lineCheck fuel keywords (escape parsed) document (dc parsed) []) as [scan|];
      cbn [option_map].
    + split.
      * intros [= <-]. exists news, scan. split; [exact Hnews|]. split; [reflexivity|].
        subst ps1. rewrite <- !app_assoc. reflexivity.
      * intros (news' & scan' & Hn' & [= <-] & ->). rewrite (Huniq _ Hn').
        subst ps1. rewrite <- !app_assoc. reflexivity.
    + split; [discriminate|]. intros (news' & scan' & _ & Hs & _). discriminate.
  - split; [discriminate|]. intros (news & scan & Hn & _ & _).
    assert (Hsome : checkInstructions keywords (escape parsed)
                      (getInstructions dockerfile) ps1 = Some (ps1 ++ List.concat news))
      by (apply checkInstructions_concat; exists news; split; [exact Hn|reflexivity]).
    congruence.
Qed.

(* ================================================================== *)
(** ** Arrays that the validator accepts *)

Lemma string_app_assoc (a b c : string) : ((a ++ b) ++ c = a ++ (b ++ c))%string.
Proof. induction a as [|x a IH]; simpl; [reflexivity|]. rewrite IH. reflexivity. Qed.

Lemma JS_length_append (a b : string) :
  JS.length (a ++ b) = JS.length a + JS.length b.
Proof.
  induction a as [|x a IH]; [unfold JS.length; simpl; lia|].
  simpl append. rewrite !JS_length_String, IH. lia.
Qed.

Lemma charAt_here (pre : string) (c : ascii) (s : string) :
  JS.charAt (pre ++ String c s) (JS.length pre) = Some c.
Proof.
  induction pre as [|x pre IH]; [reflexivity|].
  simpl append. rewrite JS_length_String, charAt_String by apply JS_length_nonneg.
  exact IH.
Qed.

Lemma charIs_here (text pre : string) (c : ascii) (s : string) (x : ascii) :
  text = (pre ++ String c s)%string ->
  JS.charIs text (JS.length pre) x = Ascii.eqb c x.
Proof. intros ->. unfold JS.charIs. rewrite charAt_here. reflexivity. Qed.

Lemma here_in_range (text pre : string) (c : ascii) (s : string) :
  text = (pre ++ String c s)%string -> JS.length pre < JS.length text.
Proof.
  intros ->. rewrite JS_length_append, JS_length_String.
  pose proof (JS_length_nonneg s). lia.
Qed.

Lemma parseJSONFrom_turn (escape : ascii) (text : string) (st : JSONState) (i : Z) :
  i < JS.length text ->
  parseJSONFrom escape text st i
  = match parseJSONBody escape text st i with
    | Next st' k' => parseJSONFrom escape text st' (k' + 1)
    | Leave r => r
    end.
Proof.
  intros Hi. unfold parseJSONFrom. apply forLoop_step; [apply parseJSONBody_advancing|exact Hi].
Qed.

(** Inside a string, the loop runs to the closing quote. *)
Lemma parseJSONFrom_string_body (escape : ascii) :
  forall s text pre rest st,
    stringBody s ->
    text = (pre ++ s ++ quote ++ rest)%string ->
    inString st = true -> expectComma st = false ->
    parseJSONFrom escape text st (JS.length pre)
    = parseJSONFrom escape text (closedAt st (JS.length pre + JS.length s))
        (JS.length pre + JS.length s + 1).
Proof.
  induction s as [|c s IH]; intros text pre rest st Hbody Htext Hin Hec.
  - change (JS.length EmptyString) with 0. rewrite Z.add_0_r.
    simpl append in Htext.
    rewrite parseJSONFrom_turn by (eapply here_in_range, Htext).
    unfold parseJSONBody.
    rewrite Hin, (charIs_here _ _ _ _ QUOTE Htext), Hec. cbn [negb andb Ascii.eqb Bool.eqb].
    reflexivity.
  - unfold stringBody in Hbody. simpl characters in Hbody.
    apply Forall_cons_iff in Hbody. destruct Hbody as [(Hq & Hcr & Hlf) Hrest].
    simpl append in Htext.
    rewrite parseJSONFrom_turn by (eapply here_in_range, Htext).
    assert (Htext' : text = ((pre ++ String c EmptyString) ++ s ++ quote ++ rest)%string)
      by (rewrite string_app_assoc; exact Htext).
    assert (Hlen : JS.length (pre ++ String c EmptyString) = JS.length pre + 1)
      by (rewrite JS_length_append; reflexivity).
    assert (Hnext : forall st1, inString st1 = true -> expectComma st1 = false ->
               end_seen st1 = end_seen st -> flagged st1 = flagged st ->
               reported st1 = reported st ->
               parseJSONFrom escape text st1 (JS.length pre + 1)
               = parseJSONFrom escape text
                   (closedAt st (JS.length pre + JS.length (String c s)))
                   (JS.length pre + JS.length (String c s) + 1)).
    { intros st1 H1 H2 H3 H4 H5. rewrite <- Hlen.
      rewrite (IH text _ rest st1 Hrest Htext' H1 H2).
      rewrite Hlen, JS_length_String. unfold closedAt. rewrite H3, H4, H5.
      f_equal; [f_equal|]; lia. }
    unfold parseJSONBody.
    rewrite Hin, !(charIs_here _ _ _ _ _ Htext), Hec.
    apply Ascii.eqb_neq in Hq, Hcr, Hlf. rewrite Hq, Hcr, Hlf.
    cbn [negb andb orb].
    destruct (Ascii.eqb c SPACE || Ascii.eqb c TAB);
      [apply Hnext; (assumption || reflexivity)|].
    destruct (Ascii.eqb c "]"%char); [apply Hnext; (assumption || reflexivity)|].
    destruct (Ascii.eqb c ","%char); apply Hnext; (assumption || reflexivity).
Qed.

(** A character met outside a string that is not the escape character
    does not start a continuation. *)
Lemma not_continuation_here (text pre : string) (c : ascii) (s : string) (escape : ascii) :
  text = (pre ++ String c s)%string -> Ascii.eqb c escape = false ->
  shouldSkipNewline text (JS.length pre) escape = false.
Proof.
  intros Htext Hne. unfold shouldSkipNewline.
  rewrite (charIs_here _ _ _ _ escape Htext), Hne. reflexivity.
Qed.

(** Outside a string, the loop runs over one quoted string. *)
Lemma parseJSONFrom_quoted (escape : ascii) (s text pre rest : string) (st : JSONState) :
  isEscapeChar escape -> stringBody s ->
  text = (pre ++ quote ++ s ++ quote ++ rest)%string ->
  inString st = false -> expectComma st = false ->
  parseJSONFrom escape text st (JS.length pre)
  = parseJSONFrom escape text (closedAt st (JS.length pre + JS.length s + 1))
      (JS.length pre + JS.length s + 2).
Proof.
  intros Hesc Hbody Htext Hin Hec.
  assert (Htext0 : text = (pre ++ String QUOTE (s ++ quote ++ rest))%string) by exact Htext.
  rewrite parseJSONFrom_turn by (eapply here_in_range, Htext0).
  unfold parseJSONBody.
  rewrite (not_continuation_here _ _ _ _ escape Htext0)
    by (destruct Hesc as [-> | ->]; reflexivity).
  rewrite (charIs_here _ _ _ _ QUOTE Htext0), Hin, Hec.
  unfold QUOTE, SPACE, TAB, CR, LF. cbn [negb andb Ascii.eqb Bool.eqb].
  assert (Htext' : text = ((pre ++ quote) ++ s ++ quote ++ rest)%string)
    by (rewrite string_app_assoc; exact Htext).
  assert (Hlen : JS.length (pre ++ quote) = JS.length pre + 1)
    by (rewrite JS_length_append; reflexivity).
  rewrite <- Hlen.
  rewrite (fun st1 H1 H2 =>
             parseJSONFrom_string_body escape s text _ rest st1 Hbody Htext' H1 H2)
    by reflexivity.
  rewrite Hlen. unfold closedAt. cbn [end_seen flagged reported].
  f_equal; [f_equal|]; lia.
Qed.

(** Outside a string, the loop runs over a list of quoted strings
    separated by a comma and a space. *)
Lemma parseJSONFrom_strings (escape : ascii) :
  isEscapeChar escape ->
  forall strings text pre rest st,
    Forall stringBody strings -> strings <> [] ->
    text = (pre ++ renderStrings strings ++ rest)%string ->
    inString st = false -> expectComma st = false ->
    parseJSONFrom escape text st (JS.length pre)
    = parseJSONFrom escape text
        (closedAt st (JS.length pre + JS.length (renderStrings strings) - 1))
        (JS.length pre + JS.length (renderStrings strings)).
Proof.
  intros Hesc. induction strings as [|s strings IH]; intros text pre rest st Hall Hne Htext Hin Hec;
    [contradiction|].
  apply Forall_cons_iff in Hall. destruct Hall as [Hs Hrest].
  destruct strings as [|s2 strings].
  - cbn [renderStrings] in *.
    rewrite !string_app_assoc in Htext.
    rewrite (parseJSONFrom_quoted escape s _ pre rest st Hesc Hs Htext Hin Hec).
    rewrite !JS_length_append. change (JS.length quote) with 1.
    f_equal; [f_equal|]; lia.
  - remember (s2 :: strings) as more eqn:Hmore.
    assert (Hrender : renderStrings (s :: more)
                      = (quote ++ s ++ quote ++ ", " ++ renderStrings more)%string)
      by (subst more; reflexivity).
    rewrite Hrender in *. clear Hrender.
    rewrite !string_app_assoc in Htext.
    rewrite (parseJSONFrom_quoted escape s _ pre _ st Hesc Hs Htext Hin Hec).
    set (i1 := JS.length pre + JS.length s + 2).
    set (pre1 := (pre ++ quote ++ s ++ quote)%string).
    assert (Hpre1 : JS.length pre1 = i1).
    { subst pre1 i1. rewrite !JS_length_append. change (JS.length quote) with 1. lia. }
    assert (Htext1 : text = (pre1 ++ String ","%char
                               (String SPACE (renderStrings more ++ rest)))%string).
    { subst pre1. rewrite !string_app_assoc. exact Htext. }
    (* the comma *)
    rewrite <- Hpre1.
    rewrite parseJSONFrom_turn by (eapply here_in_range, Htext1).
    unfold parseJSONBody at 1.
    rewrite (not_continuation_here _ _ _ _ escape Htext1)
      by (destruct Hesc as [-> | ->]; reflexivity).
    rewrite !(charIs_here _ _ _ _ _ Htext1).
    unfold QUOTE, SPACE, TAB, CR, LF.
    cbn [closedAt inString end_seen last expectComma flagged reported
         negb andb orb Ascii.eqb Bool.eqb].
    (* the space *)
    set (pre2 := (pre1 ++ String ","%char EmptyString)%string).
    assert (Hpre2 : JS.length pre2 = JS.length pre1 + 1)
      by (subst pre2; rewrite JS_length_append; reflexivity).
    assert (Htext2 : text = (pre2 ++ String SPACE (renderStrings more ++ rest))%string)
      by (subst pre2; rewrite string_app_assoc; exact Htext1).
    rewrite <- Hpre2.
    rewrite parseJSONFrom_turn by (eapply here_in_range, Htext2).
    unfold parseJSONBody at 1.
    rewrite (not_continuation_here _ _ _ _ escape Htext2)
      by (destruct Hesc as [-> | ->]; reflexivity).
    rewrite !(charIs_here _ _ _ _ _ Htext2).
    unfold QUOTE, SPACE, TAB, CR, LF.
    cbn [inString end_seen last expectComma flagged reported
         negb andb orb Ascii.eqb Bool.eqb].
    (* the other strings *)
    set (pre3 := (pre2 ++ String SPACE EmptyString)%string).
    assert (Hpre3 : JS.length pre3 = JS.length pre2 + 1)
      by (subst pre3; rewrite JS_length_append; reflexivity).
    assert (Htext3 : text = (pre3 ++ renderStrings more ++ rest)%string)
      by (subst pre3; rewrite string_app_assoc; exact Htext2).
    rewrite <- Hpre3.
    assert (Hne' : more <> []) by (subst more; discriminate).
    rewrite (fun st1 H1 H2 => IH text pre3 rest st1 Hrest Hne' Htext3 H1 H2)
      by reflexivity.
    unfold closedAt. cbn [end_seen flagged reported].
    rewrite Hpre3, Hpre2, Hpre1. subst i1.
    rewrite !JS_length_append.
    change (JS.length quote) with 1. change (JS.length ", ") with 2.
    f_equal; [f_equal|]; lia.
Qed.

(** X13.  An array written in the usual way, an opening bracket, strings
    in double quotes separated by a comma and a space, a closing
    bracket, at the end of the text, is accepted: the array validator
    reports nothing and returns the length of the text; and so does
    [parseVOLUME] when the array follows the keyword and one space.  The
    strings may hold any characters but the double quote and the line
    breaks; the array may be empty. *)
Theorem X13_rendered_arrays_are_accepted
    (escape : ascii) (lineStart : Z) (pre : string) (strings : list string)
    (problems : list Diagnostic) :
  isEscapeChar escape ->
  Forall stringBody strings ->
  parseJSON escape (JS.length pre) (pre ++ renderArray strings) problems
  = (JS.length (pre ++ renderArray strings), problems)
  /\ parseVOLUME escape lineStart (JS.length pre)
       (pre ++ String SPACE (renderArray strings)) problems
     = (JS.length (pre ++ String SPACE (renderArray strings)), problems).
Proof.
  intros Hesc Hall.
  assert (Harray : forall pre0 text,
             text = (pre0 ++ renderArray strings)%string ->
             parseJSON escape (JS.length pre0) text problems = (JS.length text, problems)).
  { intros pre0 text Htext. unfold parseJSON.
    set (pre1 := (pre0 ++ "[")%string).
    assert (Hpre1 : JS.length pre1 = JS.length pre0 + 1)
      by (subst pre1; rewrite JS_length_append; reflexivity).
    assert (Htext1 : text = (pre1 ++ renderStrings strings ++ "]")%string).
    { subst pre1. rewrite string_app_assoc. exact Htext. }
    rewrite <- Hpre1.
    assert (Hclose : forall st pre2,
               text = (pre2 ++ "]")%string -> inString st = false -> flagged st = false ->
               parseJSONFrom escape text st (JS.length pre2)
               = (JS.length text, reported st)).
    { intros st pre2 Htext2 Hin Hfl.
      rewrite parseJSONFrom_turn by (eapply here_in_range, Htext2).
      unfold parseJSONBody.
      rewrite (not_continuation_here _ _ _ _ escape Htext2)
        by (destruct Hesc as [-> | ->]; reflexivity).
      rewrite !(charIs_here _ _ _ _ _ Htext2), Hin.
      unfold QUOTE, SPACE, TAB, CR, LF. cbn [negb andb orb Ascii.eqb Bool.eqb].
      unfold parseJSONFrom.
      assert (Hlen2 : JS.length text = JS.length pre2 + 1)
        by (rewrite Htext2, JS_length_append; reflexivity).
      rewrite forLoop_done by lia.
      unfold parseJSONAfter. cbn [last flagged inString end_seen reported].
      rewrite Hfl, Hlen2. reflexivity. }
    destruct strings as [|s strings'] eqn:Hstr.
    - cbn [renderStrings] in Htext1. simpl append in Htext1.
      apply (Hclose (parseJSONInit problems) pre1); [exact Htext1|reflexivity|reflexivity].
    - rewrite <- Hstr in *.
      assert (Hne : strings <> []) by (rewrite Hstr; discriminate).
      rewrite (fun st1 H1 H2 =>
                 parseJSONFrom_strings escape Hesc strings text pre1 "]" st1 Hall
                   Hne Htext1 H1 H2) by reflexivity.
      rewrite <- JS_length_append.
      rewrite (Hclose _ (pre1 ++ renderStrings strings)%string);
        [reflexivity| |reflexivity|reflexivity].
      rewrite string_app_assoc. exact Htext1. }
  split; [apply Harray; reflexivity|].
  unfold parseVOLUME.
  set (text := (pre ++ String SPACE (renderArray strings))%string).
  set (pre1 := (pre ++ String SPACE EmptyString)%string).
  assert (Hpre1 : JS.length pre1 = JS.length pre + 1)
    by (subst pre1; rewrite JS_length_append; reflexivity).
  assert (Htext1 : text = (pre1 ++ renderArray strings)%string)
    by (subst text pre1; rewrite string_app_assoc; reflexivity).
  assert (Htext2 : text = (pre1 ++ String "["%char (renderStrings strings ++ "]"))%string)
    by exact Htext1.
  rewrite <- Hpre1.
  rewrite forLoop_step
    by (try apply parseVOLUMEBody_advancing; eapply here_in_range, Htext2).
  unfold parseVOLUMEBody at 1.
  rewrite (not_continuation_here _ _ _ _ escape Htext2)
    by (destruct Hesc as [-> | ->]; reflexivity).
  rewrite !(charIs_here _ _ _ _ _ Htext2).
  unfold QUOTE, SPACE, TAB, CR, LF. cbn [negb andb orb Ascii.eqb Bool.eqb].
  apply Harray. exact Htext1.
Qed.

End Validator.

(* ================================================================== *)
(** ** The theorems on the example documents *)


(** The scanner need not come to an end: on a line break followed by
    [VOLUME [ ], the array validator returns [last + 1 = 0], the scan
    resumes at offset 1 and meets the same VOLUME again. *)
Remark lineCheck_can_run_forever :
  forall fuel problems,
    lineCheck Util_isWhitespace asciiToUpperCase volumeUnclosedOnSecondLine fuel
      dockerKeywords BACKSLASH volumeUnclosedOnSecondLine 1 problems = None.
Proof.
  induction fuel as [|fuel IH]; intros problems; [reflexivity|].
  cbn [lineCheck].
  replace (1 <? JS.length volumeUnclosedOnSecondLine) with true by (vm_compute; reflexivity).
  replace (lineStep Util_isWhitespace asciiToUpperCase volumeUnclosedOnSecondLine
             dockerKeywords BACKSLASH volumeUnclosedOnSecondLine 1 problems)
    with (Resume 0 (problems ++ [createUnexpectedToken volumeUnclosedOnSecondLine (-1) 0]))
    by (vm_compute; reflexivity).
  apply IH.
Qed.

(** [# scape=`]: unknown directive, and the backtick is still the escape
    character; [# escape=x]: invalid escape, and the backslash is. *)
Lemma C2_witness :
  (escape (fst (parseDirective replaceFirst "# scape=`"
                  {| getDirective := Some misspeltDirective; getInstructions := [] |} []))
   = BACKTICK
   /\ exists d,
        snd (parseDirective replaceFirst "# scape=`"
               {| getDirective := Some misspeltDirective; getInstructions := [] |} [])
        = [] ++ [d]
        /\ code d = UNKNOWN_DIRECTIVE)
  /\ (escape (fst (parseDirective replaceFirst "# escape=x"
                     {| getDirective := Some invalidEscapeDirective; getInstructions := [] |} []))
      = BACKSLASH
      /\ exists d,
           snd (parseDirective replaceFirst "# escape=x"
                  {| getDirective := Some invalidEscapeDirective; getInstructions := [] |} [])
           = [] ++ [d]
           /\ code d = INVALID_ESCAPE_DIRECTIVE).
Proof.
  split.
  - destruct (C2_parseDirective_directive replaceFirst "# scape=`"
                {| getDirective := Some misspeltDirective; getInstructions := [] |}
                misspeltDirective [] eq_refl) as [H _].
    destruct (H ltac:(discriminate)) as ((d & Hd & Hc & _) & _ & Hbt & _).
    split; [apply Hbt; reflexivity|].
    exists d. split; assumption.
  - destruct (C2_parseDirective_directive replaceFirst "# escape=x"
                {| getDirective := Some invalidEscapeDirective; getInstructions := [] |}
                invalidEscapeDirective [] eq_refl) as [_ H].
    destruct (H eq_refl ltac:(discriminate) ltac:(discriminate) ltac:(discriminate))
      as ((d & Hd & Hc & _) & Hbs).
    split; [exact Hbs|].
    exists d. split; assumption.
Defined.


(** The empty document, and [RUN make], whose first keyword is not FROM:
    [validate] returns, with one NO_SOURCE_IMAGE. *)
Lemma no_source_image_examples :
  (exists ds,
     validate Util_isWhitespace asciiToUpperCase replaceFirst warnSettings
       EmptyString 1 dockerKeywords emptyModel = Returned ds
     /\ exists d, withCode NO_SOURCE_IMAGE ds = [d]
                  /\ severity d = Error /\ range d = rangeAt 0 0 0 0)
  /\ (exists ds,
        validate Util_isWhitespace asciiToUpperCase replaceFirst warnSettings
          runOnly 10 dockerKeywords runOnlyModel = Returned ds
        /\ exists d, withCode NO_SOURCE_IMAGE ds = [d]
                     /\ severity d = Error /\ range d = rangeAt 0 0 0 3).
Proof.
  split.
  - destruct (no_source_image_exactly_once Util_isWhitespace asciiToUpperCase
                replaceFirst warnSettings EmptyString 1 dockerKeywords emptyModel)
      as [Hone Hret].
    destruct Hret as [ds Hds]; [apply charIs_absent; reflexivity|simpl; lia|].
    exists ds. split; [exact Hds|].
    apply (Hone ds Hds). reflexivity.
  - destruct (no_source_image_exactly_once Util_isWhitespace asciiToUpperCase
                replaceFirst warnSettings runOnly 10 dockerKeywords runOnlyModel)
      as [Hone Hret].
    destruct Hret as [ds Hds]; [apply charIs_absent; reflexivity|simpl; lia|].
    exists ds. split; [exact Hds|].
    destruct (Hone ds Hds) as [_ H].
    destruct (H _ _ eq_refl ltac:(discriminate)) as (d & Hd & Hs & Hr).
    exists d. split; [exact Hd|]. split; [exact Hs|]. rewrite Hr.
    vm_compute. reflexivity.
Defined.





(** [EXPOSE 8080 -80 9090]: one INVALID_PORT, for [-80]. *)
Lemma C8_witness :
  checkInstruction Util_isWhitespace replaceFirst warnSettings "EXPOSE 8080 -80 9090"
    dockerKeywords BACKSLASH exposeThreePorts []
  = Some [createInvalidPort replaceFirst "EXPOSE 8080 -80 9090" 12 15 "-80"]
  /\ message (createInvalidPort replaceFirst "EXPOSE 8080 -80 9090" 12 15 "-80")
     = Some "Invalid containerPort: -80".
Proof.
  split; [|vm_compute; reflexivity].
  destruct (C8_expose_ports Util_isWhitespace replaceFirst warnSettings
              "EXPOSE 8080 -80 9090" dockerKeywords BACKSLASH exposeThreePorts []
              eq_refl eq_refl eq_refl ltac:(vm_compute; reflexivity)) as [H _].
  exact H.
Defined.

(** [VOLUME []: the array validator reports at [last = -1], and the
    range of that diagnostic is (0,0)-(0,0). *)
Lemma C9_witness :
  exists ds,
    validate Util_isWhitespace asciiToUpperCase replaceFirst warnSettings
      volumeUnclosed 10 dockerKeywords volumeUnclosedModel = Returned ds
    /\ In (createUnexpectedToken volumeUnclosed (-1) 0) ds
    /\ Forall (fun d => rangeOk volumeUnclosed (range d)) ds.
Proof.
  eexists. split; [vm_compute; reflexivity|].
  split; [right; left; vm_compute; reflexivity|].
  apply (C9_ranges_ordered_and_in_bounds Util_isWhitespace asciiToUpperCase
           replaceFirst warnSettings volumeUnclosed 10 dockerKeywords volumeUnclosedModel).
  - split; [exact I|].
    constructor; [|constructor].
    split.
    + right. cbn. split; [reflexivity|lia].
    + intros e. constructor; [|constructor].
      right. cbn. split; [reflexivity|lia].
  - vm_compute. reflexivity.
Defined.

(** [MAINTAINER me] under the Warning setting. *)
Lemma C10_witness :
  exists d rest,
    checkInstruction Util_isWhitespace replaceFirst warnSettings "MAINTAINER me"
      dockerKeywords BACKSLASH maintainerLine [] = Some ([] ++ d :: rest)
    /\ code d = DEPRECATED_MAINTAINER
    /\ severity d = Warning
    /\ start (range d) = {| line := 0; character := 0 |}
    /\ end_ (range d) = {| line := 0; character := 0 |}.
Proof.
  destruct (C10_maintainer_range_is_empty Util_isWhitespace replaceFirst warnSettings
              "MAINTAINER me" dockerKeywords BACKSLASH maintainerLine []
              eq_refl eq_refl eq_refl ltac:(discriminate))
    as (d & rest & Hc & Hcode & Hsev & Hstart & Hend & _ & Hround).
  exists d, rest.
  split; [exact Hc|]. split; [exact Hcode|]. split; [exact Hsev|].
  apply (Hround 0). vm_compute. reflexivity.
Defined.

(* ================================================================== *)
(** ** Flags of an instruction *)

Lemma clampIndex_cons (c : ascii) (s : string) (a : Z) :
  0 <= a -> JS.clampIndex (String c s) (a + 1) = S (JS.clampIndex s a).
Proof.
  intros Ha. unfold JS.clampIndex, JS.length. cbn [String.length]. lia.
Qed.

Lemma clampIndex_zero (s : string) : JS.clampIndex s 0 = O.
Proof. unfold JS.clampIndex, JS.length. lia. Qed.

Lemma clampIndex_length (s : string) : JS.clampIndex s (JS.length s) = String.length s.
Proof. unfold JS.clampIndex, JS.length. lia. Qed.

Lemma substring_cons (c : ascii) (s : string) (a b : Z) :
  0 <= a -> 0 <= b ->
  JS.substring (String c s) (a + 1) (b + 1) = JS.substring s a b.
Proof.
  intros Ha Hb. unfold JS.substring. rewrite !clampIndex_cons by assumption.
  cbn [Nat.min Nat.max Nat.sub String.substring]. reflexivity.
Qed.

Lemma substring_take_cons (c : ascii) (s : string) (b : Z) :
  0 <= b ->
  JS.substring (String c s) 0 (b + 1) = String c (JS.substring s 0 b).
Proof.
  intros Hb. unfold JS.substring.
  rewrite clampIndex_cons, !clampIndex_zero by assumption.
  cbn [Nat.min Nat.max Nat.sub String.substring]. rewrite Nat.sub_0_r. reflexivity.
Qed.

Lemma substring_take_zero (s : string) : JS.substring s 0 0 = EmptyString.
Proof.
  unfold JS.substring. rewrite clampIndex_zero. destruct s; reflexivity.
Qed.

Lemma substringFrom_cons (c : ascii) (s : string) (a : Z) :
  0 <= a -> JS.substringFrom (String c s) (a + 1) = JS.substringFrom s a.
Proof.
  intros Ha. unfold JS.substringFrom.
  replace (JS.length (String c s)) with (JS.length s + 1)
    by (unfold JS.length; cbn [String.length]; lia).
  apply substring_cons; [assumption|unfold JS.length; lia].
Qed.

Lemma substringFrom_zero (s : string) : JS.substringFrom s 0 = s.
Proof.
  unfold JS.substringFrom, JS.substring.
  rewrite clampIndex_zero, clampIndex_length.
  cbn [Nat.min Nat.max]. rewrite Nat.sub_0_r.
  induction s as [|c s IH]; [reflexivity|].
  cbn [String.length String.substring]. rewrite IH. reflexivity.
Qed.

Lemma indexOfFrom_range (c : ascii) (s : string) (k : Z) :
  0 <= k ->
  indexOfFrom c s k = -1 \/ k <= indexOfFrom c s k < k + JS.length s.
Proof.
  revert k. unfold JS.length.
  induction s as [|x s IH]; intros k Hk; cbn [indexOfFrom String.length];
    [left; reflexivity|].
  destruct (Ascii.eqb x c); [right; lia|].
  destruct (IH (k + 1) ltac:(lia)); [left; assumption|right; lia].
Qed.

Lemma indexOfFrom_shift (c : ascii) (s : string) (k : Z) :
  indexOfFrom c s k
  = if indexOfFrom c s 0 =? -1 then -1 else k + indexOfFrom c s 0.
Proof.
  revert k. induction s as [|x s IH]; intros k; cbn [indexOfFrom]; [reflexivity|].
  destruct (Ascii.eqb x c).
  - cbn. lia.
  - rewrite (IH (k + 1)), (IH (0 + 1)).
    destruct (indexOfFrom_range c s 0 ltac:(lia)) as [H | H].
    + rewrite H. reflexivity.
    + destruct (indexOfFrom c s 0 =? -1) eqn:E; [lia|].
      destruct (0 + 1 + indexOfFrom c s 0 =? -1) eqn:E'; lia.
Qed.

(** The first occurrence splits the string: nothing before it is the
    character. *)
Lemma indexOfChar_split (c : ascii) (s : string) :
  0 <= indexOfChar s c ->
  s = (JS.substring s 0 (indexOfChar s c)
       ++ String c (JS.substringFrom s (indexOfChar s c + 1)))%string
  /\ JS.length (JS.substring s 0 (indexOfChar s c)) = indexOfChar s c
  /\ indexOfChar (JS.substring s 0 (indexOfChar s c)) c = -1.
Proof.
  unfold indexOfChar. induction s as [|x s IH]; cbn [indexOfFrom]; [lia|].
  destruct (Ascii.eqb x c) eqn:Hx.
  - intros _. apply Ascii.eqb_eq in Hx. subst x.
    rewrite substring_take_zero.
    rewrite (substringFrom_cons c s 0), substringFrom_zero by lia.
    split; [reflexivity|split; reflexivity].
  - rewrite indexOfFrom_shift.
    destruct (indexOfFrom c s 0 =? -1) eqn:E; [lia|]. intros _.
    apply Z.eqb_neq in E.
    assert (H0 : 0 <= indexOfFrom c s 0).
    { destruct (indexOfFrom_range c s 0 ltac:(lia)); lia. }
    destruct (IH H0) as (Hs & Hl & Hn).
    replace (0 + 1 + indexOfFrom c s 0) with (indexOfFrom c s 0 + 1) by lia.
    rewrite substring_take_cons, substringFrom_cons by lia.
    split; [cbn [String.append]; f_equal; exact Hs|].
    split.
    + unfold JS.length in *. cbn [String.length]. lia.
    + cbn [indexOfFrom]. rewrite Hx, indexOfFrom_shift, Hn. reflexivity.
Qed.

Lemma startsWithDashes_inv (value : string) :
  String.prefix "--" value = true ->
  exists rest, value = String "-" (String "-" rest).
Proof.
  destruct value as [|a [|b rest]]; cbn [String.prefix]; try discriminate.
  - destruct (ascii_dec "-" a); discriminate.
  - destruct (ascii_dec "-" a) as [<-|]; [|discriminate].
    destruct (ascii_dec "-" b) as [<-|]; [|discriminate].
    intros _. exists rest. reflexivity.
Qed.

(** What [createFlag] cuts out of a value that starts with two dashes. *)
Lemma createFlag_parts (arg : Argument) :
  String.prefix "--" (argValue arg) = true ->
  let flag := createFlag arg in
  let index := indexOfChar (argValue arg) "=" in
  renderFlag flag = argValue arg
  /\ flagContent flag = argValue arg
  /\ flagRange flag = argRange arg
  /\ indexOfChar (flagName flag) "=" = -1
  /\ (flagValue flag = None <-> index = -1)
  /\ (flagValue flag = None <-> flagValueRange flag = None)
  /\ (index <> -1 -> index = 2 + JS.length (flagName flag)).
Proof.
  intros Hp. apply startsWithDashes_inv in Hp. destruct Hp as (rest & Hv).
  unfold createFlag, renderFlag. rewrite Hv.
  assert (Hidx : indexOfChar (String "-" (String "-" rest)) "="
                 = if indexOfChar rest "=" =? -1 then -1 else 2 + indexOfChar rest "=").
  { unfold indexOfChar. cbn [indexOfFrom Ascii.eqb Bool.eqb].
    cbn. rewrite indexOfFrom_shift. reflexivity. }
  rewrite Hidx.
  replace (JS.substringFrom (String "-" (String "-" rest)) 2) with rest
    by (change 2 with (0 + 1 + 1);
        rewrite !substringFrom_cons, substringFrom_zero by lia; reflexivity).
  destruct (indexOfChar rest "=" =? -1) eqn:E.
  - rewrite Z.eqb_refl.
    cbn [flagName flagValue flagContent flagRange flagValueRange].
    apply Z.eqb_eq in E.
    split; [|split; [reflexivity|split; [reflexivity|split; [exact E|
      split; [split; reflexivity|split; [split; reflexivity|intros H; contradiction H; reflexivity]]]]]].
    cbn [String.append]. f_equal. f_equal.
    clear. induction rest as [|c r IH]; cbn [String.append]; [reflexivity|f_equal; exact IH].
  - apply Z.eqb_neq in E.
    assert (H0 : 0 <= indexOfChar rest "=" < JS.length rest).
    { unfold indexOfChar in *. destruct (indexOfFrom_range "=" rest 0 ltac:(lia)); lia. }
    destruct (indexOfChar_split "=" rest ltac:(lia)) as (Hs & Hl & Hn).
    set (i := indexOfChar rest "=") in *.
    replace (2 + i =? -1) with false by lia.
    replace (JS.substring (String "-" (String "-" rest)) 2 (2 + i))
      with (JS.substring rest 0 i)
      by (replace (2 + i) with (i + 1 + 1) by lia; change 2 with (0 + 1 + 1);
          rewrite !substring_cons by lia; reflexivity).
    replace (JS.substringFrom (String "-" (String "-" rest)) (2 + i + 1))
      with (JS.substringFrom rest (i + 1))
      by (replace (2 + i + 1) with (i + 1 + 1 + 1) by lia;
          rewrite !substringFrom_cons by lia; reflexivity).
    assert (Hlen : JS.length (String "-" (String "-" rest)) = JS.length rest + 2)
      by (unfold JS.length; cbn [String.length]; lia).
    rewrite Hlen.
    assert (Htail : 2 + i = JS.length rest + 2 - 1 ->
                    JS.substringFrom rest (i + 1) = EmptyString).
    { intros Hi.
      pose proof (f_equal JS.length Hs) as Hl2.
      rewrite JS_length_append in Hl2.
      destruct (JS.substringFrom rest (i + 1)) as [|y t]; [reflexivity|].
      unfold JS.length in Hl2, Hl, Hi. cbn [String.length] in Hl2. lia. }
    destruct (2 + i =? JS.length rest + 2 - 1) eqn:E2;
      cbn [flagName flagValue flagContent flagRange flagValueRange].
    + apply Z.eqb_eq in E2. specialize (Htail E2).
      split; [|split; [reflexivity|split; [reflexivity|split; [exact Hn|
        split; [|split; [|intros _; lia]]]]]].
      * rewrite Htail in Hs. cbn [String.append]. f_equal. f_equal.
        symmetry. exact Hs.
      * split; intros; try discriminate; lia.
      * split; intros; discriminate.
    + split; [|split; [reflexivity|split; [reflexivity|split; [exact Hn|
        split; [|split; [|intros _; lia]]]]]].
      * cbn [String.append]. f_equal. f_equal. symmetry. exact Hs.
      * split; intros; try discriminate; lia.
      * split; intros; discriminate.
Qed.

Lemma collectFlags_searched (stopSearchingForFlags : string -> bool)
    (args : list Argument) (flags : list Flag) :
  collectFlags stopSearchingForFlags args flags
  = flags ++ map createFlag
               (filter startsWithDashes (searched stopSearchingForFlags args)).
Proof.
  revert flags. induction args as [|arg rest IH]; intros flags;
    cbn [collectFlags searched].
  - cbn. rewrite app_nil_r. reflexivity.
  - destruct (stopSearchingForFlags (argValue arg)).
    + cbn. rewrite app_nil_r. reflexivity.
    + cbn [filter]. unfold startsWithDashes at 1.
      destruct (String.prefix "--" (argValue arg)).
      * rewrite IH, <- app_assoc. reflexivity.
      * apply IH.
Qed.

Lemma shiftTimes_skipn {A : Type} (n : nat) (args : list A) :
  shiftTimes n args = skipn n args.
Proof.
  revert args. induction n as [|n IH]; intros args; [reflexivity|].
  cbn [shiftTimes]. rewrite IH. destruct args as [|a rest]; [|reflexivity].
  cbn [tl]. destruct n; reflexivity.
Qed.

Lemma getArguments_cached (depth : nat) (stopSearchingForFlags : string -> bool)
    (superArguments : list Argument) (cached : list Flag) :
  getArguments (2 + depth) stopSearchingForFlags superArguments (Some cached)
  = Some (skipn (List.length cached) superArguments, Some cached).
Proof.
  cbn [Nat.add getArguments getFlags].
  destruct (List.length cached =? 0)%nat eqn:E.
  - apply Nat.eqb_eq in E. rewrite E. reflexivity.
  - rewrite shiftTimes_skipn. reflexivity.
Qed.

Lemma getFlags_found (depth : nat) (stopSearchingForFlags : string -> bool)
    (superArguments : list Argument) :
  let found := map createFlag (filter startsWithDashes
                                 (searched stopSearchingForFlags superArguments)) in
  getFlags (3 + depth) stopSearchingForFlags superArguments None
  = Some (found, Some found).
Proof.
  intros found. change (3 + depth)%nat with (S (2 + depth)).
  cbn [getFlags]. rewrite getArguments_cached.
  cbn [List.length skipn]. rewrite collectFlags_searched. reflexivity.
Qed.

Lemma getArguments_found (depth : nat) (stopSearchingForFlags : string -> bool)
    (superArguments : list Argument) :
  let found := map createFlag (filter startsWithDashes
                                 (searched stopSearchingForFlags superArguments)) in
  getArguments (4 + depth) stopSearchingForFlags superArguments None
  = Some (skipn (List.length found) superArguments, Some found).
Proof.
  intros found. change (4 + depth)%nat with (S (3 + depth)).
  cbn [getArguments]. rewrite getFlags_found. fold found.
  destruct (List.length found =? 0)%nat eqn:E.
  - apply Nat.eqb_eq in E. rewrite E. reflexivity.
  - rewrite shiftTimes_skipn. reflexivity.
Qed.

(** X14.  A flag is cut up without loss.  For an argument that starts
    with two dashes, the name and the value that [getFlags] stores give
    back the argument when they are written as [--name] or
    [--name=value]; the name holds no equals sign, so the value starts
    after the first one; and the flag has no value, and no value range,
    exactly when the argument has no equals sign. *)
Theorem X14_flag_round_trip (arg : Argument) :
  String.prefix "--" (argValue arg) = true ->
  let flag := createFlag arg in
  renderFlag flag = argValue arg
  /\ flagContent flag = argValue arg
  /\ flagRange flag = argRange arg
  /\ indexOfChar (flagName flag) "=" = -1
  /\ (flagValue flag = None <-> indexOfChar (argValue arg) "=" = -1)
  /\ (flagValue flag = None <-> flagValueRange flag = None).
Proof.
  intros Hp. destruct (createFlag_parts arg Hp) as (H1 & H2 & H3 & H4 & H5 & H6 & _).
  split; [exact H1|]. split; [exact H2|]. split; [exact H3|].
  split; [exact H4|]. split; [exact H5|exact H6].
Qed.

(** X15.  The ranges of a flag on one line.  When the argument lies on
    one line and its range is as wide as its value, the name range
    starts two columns after the argument and is as wide as the name;
    the value range, when there is one, starts one column after the
    name range, is as wide as the value and ends where the argument
    ends; without a value the name range ends where the argument
    ends. *)
Theorem X15_flag_ranges_on_one_line (arg : Argument) :
  String.prefix "--" (argValue arg) = true ->
  line (start (argRange arg)) = line (end_ (argRange arg)) ->
  Z.of_nat (character (end_ (argRange arg)))
  = Z.of_nat (character (start (argRange arg))) + JS.length (argValue arg) ->
  let flag := createFlag arg in
  let name := flagNameRange flag in
  let l := Z.of_nat (line (start (argRange arg))) in
  startLine name = l /\ endLine name = l
  /\ startCharacter name = Z.of_nat (character (start (argRange arg))) + 2
  /\ endCharacter name = startCharacter name + JS.length (flagName flag)
  /\ match flagValue flag, flagValueRange flag with
     | Some value, Some range =>
         startLine range = l /\ endLine range = l
         /\ startCharacter range = endCharacter name + 1
         /\ endCharacter range = startCharacter range + JS.length value
         /\ endCharacter range = Z.of_nat (character (end_ (argRange arg)))
     | None, None =>
         endCharacter name = Z.of_nat (character (end_ (argRange arg)))
     | _, _ => False
     end.
Proof.
  intros Hp Hline Hwide.
  destruct (createFlag_parts arg Hp) as (Hr & _ & _ & _ & Hnone & _ & Hidx).
  pose proof (f_equal JS.length Hr) as Hlen.
  unfold renderFlag in Hlen. rewrite !JS_length_append in Hlen.
  change (JS.length "--") with 2 in Hlen.
  revert Hnone Hidx Hlen. unfold createFlag.
  set (index := indexOfChar (argValue arg) "=").
  destruct (index =? -1) eqn:E; [|destruct (index =? JS.length (argValue arg) - 1) eqn:E2];
    cbn [flagName flagValue flagNameRange flagValueRange startLine endLine
         startCharacter endCharacter];
    intros Hnone Hidx Hlen; rewrite <- ?Hline.
  - change (JS.length EmptyString) with 0 in Hlen.
    split; [reflexivity|split; [reflexivity|split; [reflexivity|split; lia]]].
  - apply Z.eqb_neq in E. apply Z.eqb_eq in E2. specialize (Hidx E).
    change (JS.length (String "=" EmptyString)) with 1 in Hlen.
    change (JS.length EmptyString) with 0.
    split; [reflexivity|split; [reflexivity|split; [reflexivity|split; [lia|]]]].
    split; [reflexivity|split; [reflexivity|split; [lia|split; [lia|reflexivity]]]].
  - apply Z.eqb_neq in E. specialize (Hidx E).
    replace (JS.length (String "=" (JS.substringFrom (argValue arg) (index + 1))))
      with (1 + JS.length (JS.substringFrom (argValue arg) (index + 1))) in Hlen
      by (unfold JS.length; cbn [String.length]; lia).
    split; [reflexivity|split; [reflexivity|split; [reflexivity|split; [lia|]]]].
    split; [reflexivity|split; [reflexivity|split; [lia|split; [lia|reflexivity]]]].
Qed.

(** X16.  What [getFlags] and [getArguments] compute.  The first call of
    [getFlags] returns, in order, one flag for each argument that starts
    with two dashes among the arguments before the first one that stops
    the search, and stores them; the nested call of [getArguments] sees
    the empty list that was stored before it.  [getArguments] returns
    the arguments of the superclass without as many leading ones as
    there are flags, and with flags already stored it uses them as they
    are. *)
Theorem X16_getFlags_collects (depth : nat)
    (stopSearchingForFlags : string -> bool) (superArguments : list Argument) :
  let found := map createFlag (filter startsWithDashes
                                 (searched stopSearchingForFlags superArguments)) in
  getFlags (3 + depth) stopSearchingForFlags superArguments None
  = Some (found, Some found)
  /\ getArguments (4 + depth) stopSearchingForFlags superArguments None
     = Some (skipn (List.length found) superArguments, Some found)
  /\ (forall cached,
        getFlags (1 + depth) stopSearchingForFlags superArguments (Some cached)
        = Some (cached, Some cached)
        /\ getArguments (2 + depth) stopSearchingForFlags superArguments (Some cached)
           = Some (skipn (List.length cached) superArguments, Some cached)).
Proof.
  intros found.
  split; [apply getFlags_found|]. split; [apply getArguments_found|].
  intros cached. split; [reflexivity|apply getArguments_cached].
Qed.

Lemma searched_leading (stopSearchingForFlags : string -> bool)
    (flags rest : list Argument) :
  Forall (fun arg => stopSearchingForFlags (argValue arg) = false) flags ->
  searched stopSearchingForFlags (flags ++ rest)
  = flags ++ searched stopSearchingForFlags rest.
Proof.
  induction 1 as [|arg flags Harg _ IH]; [reflexivity|].
  cbn [app searched]. rewrite Harg, IH. reflexivity.
Qed.

Lemma filter_all {A : Type} (f : A -> bool) (l : list A) :
  Forall (fun a => f a = true) l -> filter f l = l.
Proof.
  induction 1 as [|a l Ha _ IH]; [reflexivity|].
  cbn [filter]. rewrite Ha, IH. reflexivity.
Qed.

Lemma filter_none {A : Type} (f : A -> bool) (l : list A) :
  Forall (fun a => f a = false) l -> filter f l = [].
Proof.
  induction 1 as [|a l Ha _ IH]; [reflexivity|].
  cbn [filter]. rewrite Ha, IH. reflexivity.
Qed.

(** X17.  Flags are taken off the front, whatever stands there.  When
    the flags come first and what follows them holds no argument that
    starts with two dashes before the search stops, [getArguments]
    returns what follows them.  When an argument that neither stops the
    search nor starts with two dashes stands before a flag, the flag is
    found, but it is that first argument that is taken off, and the flag
    stays among the arguments. *)
Theorem X17_getArguments_drops_leading_arguments (depth : nat)
    (stopSearchingForFlags : string -> bool)
    (flags rest : list Argument) (other flag : Argument) :
  Forall (fun arg => stopSearchingForFlags (argValue arg) = false) flags ->
  Forall (fun arg => startsWithDashes arg = true) flags ->
  Forall (fun arg => startsWithDashes arg = false)
         (searched stopSearchingForFlags rest) ->
  getArguments (4 + depth) stopSearchingForFlags (flags ++ rest) None
  = Some (rest, Some (map createFlag flags))
  /\ (stopSearchingForFlags (argValue other) = false ->
      startsWithDashes other = false ->
      stopSearchingForFlags (argValue flag) = false ->
      startsWithDashes flag = true ->
      getArguments (4 + depth) stopSearchingForFlags (other :: flag :: rest) None
      = Some (flag :: rest, Some [createFlag flag])).
Proof.
  intros Hgo Hdash Hrest. split.
  - rewrite getArguments_found, searched_leading by exact Hgo.
    rewrite filter_app, (filter_all _ _ Hdash), (filter_none _ _ Hrest), app_nil_r.
    rewrite length_map, skipn_app, skipn_all, Nat.sub_diag. reflexivity.
  - intros Ho Hod Hf Hfd. rewrite getArguments_found.
    cbn [searched]. rewrite Ho, Hf. cbn [filter]. rewrite Hod, Hfd.
    rewrite (filter_none _ _ Hrest). reflexivity.
Qed.

(* ================================================================== *)
(** ** Signature help *)

Ltac from_cases isBefore isInsideRange from :=
  destruct from as [args tagRange digestRange];
  destruct args as [|arg0 [|arg1 [|arg2 rest]]];
  unfold getFromSignatureHelp, getFromActiveParameter, withArgument,
    getFromSignatures;
  cbn [fromArguments getImageTagRange getImageDigestRange List.length
       nth_error Nat.eqb Nat.leb Nat.ltb];
  repeat match goal with
    | |- context [isBefore ?a ?p] => destruct (isBefore a p) eqn:?
    | |- context [isInsideRange ?p ?r] => destruct (isInsideRange p r) eqn:?
    | |- context [indexOfChar ?s ?c =? -1] => destruct (indexOfChar s c =? -1) eqn:?
    end;
  cbn [negb andb orb].

Ltac offered :=
  repeat first
    [ apply Forall_nil
    | apply Forall_cons;
      [eexists; split; [reflexivity|split; [unfold fromSignatures; cbn [In]; auto 10|cbn; lia]]|] ].

(** X18.  The help for FROM always points at a parameter that exists.
    [getFromSignatureHelp] raises no [TypeError]; it returns [null]
    exactly when there is a third argument and it is before the
    position; otherwise the active signature is the first one, the list
    of signatures is not empty and holds no [undefined], every
    signature is one of the six FROM signatures, and the active
    parameter is an index into the parameters of each of them. *)
Theorem X18_from_signature_help_is_well_formed
    (getDocumentation : string -> string)
    (isBefore : Argument -> Position -> bool)
    (isInsideRange : Position -> option Range -> bool)
    (position : Position) (from : FromInstruction) :
  let passed :=
    match nth_error (fromArguments from) 2 with
    | Some arg => isBefore arg position
    | None => false
    end in
  match getFromSignatureHelp getDocumentation isBefore isInsideRange position from with
  | None => False
  | Some None => passed = true
  | Some (Some help) =>
      passed = false
      /\ activeSignature help = 0
      /\ signatures help <> []
      /\ Forall (fun entry =>
                   exists signature,
                     entry = Some signature
                     /\ In signature (fromSignatures getDocumentation)
                     /\ 0 <= activeParameter help
                        < Z.of_nat (List.length (parameters signature)))
                (signatures help)
  end.
Proof.
  cbv zeta.
  from_cases isBefore isInsideRange from; try reflexivity;
    (split; [first [reflexivity|assumption]|
     split; [reflexivity|split; [discriminate|]]]);
    cbn [signatures activeParameter map fromSignatures nth_error]; offered.
Qed.

(** X19.  Which parameter of FROM is the active one.  The active
    parameter always has one of the five labels; without arguments it is
    the image; once the first argument is before the position it is
    [AS] or the stage, never a part of the image; it is the tag only
    when the image has a colon and no at sign and the position is inside
    the tag range, and the digest only when the image has an at sign and
    the position is inside the digest range. *)
Theorem X19_active_parameter_label
    (getDocumentation : string -> string)
    (isBefore : Argument -> Position -> bool)
    (isInsideRange : Position -> option Range -> bool)
    (position : Position) (from : FromInstruction) (help : SignatureHelp) :
  getFromSignatureHelp getDocumentation isBefore isInsideRange position from
  = Some (Some help) ->
  (exists name, activeLabel help = Some name
                /\ In name ["baseImage"; "tag"; "digest"; "AS"; "stage"])
  /\ match nth_error (fromArguments from) 0 with
     | None => activeLabel help = Some "baseImage"
     | Some arg0 =>
         (isBefore arg0 position = true ->
          activeLabel help = Some "AS" \/ activeLabel help = Some "stage")
         /\ (activeLabel help = Some "tag" ->
             indexOfChar (argValue arg0) "@" = -1
             /\ indexOfChar (argValue arg0) ":" <> -1
             /\ isInsideRange position (getImageTagRange from) = true)
         /\ (activeLabel help = Some "digest" ->
             indexOfChar (argValue arg0) "@" <> -1
             /\ isInsideRange position (getImageDigestRange from) = true)
     end.
Proof.
  from_cases isBefore isInsideRange from; intros [= <-];
    cbn [nth_error];
    repeat match goal with
      | H : (_ =? _) = true |- _ => apply Z.eqb_eq in H
      | H : (_ =? _) = false |- _ => apply Z.eqb_neq in H
      end;
    (split; [eexists; split; [reflexivity|cbn; auto 10]|]);
    try reflexivity;
    (split; [intros; first [discriminate|left; reflexivity|right; reflexivity]|
     split; intros Hl; first [discriminate Hl|
       repeat split; first [assumption|reflexivity]]]).
Qed.

Lemma firstn_snoc {A : Type} (args : list A) (i : nat) (arg : A) :
  nth_error args i = Some arg -> firstn (S i) args = firstn i args ++ [arg].
Proof.
  revert args. induction i as [|i IH]; intros [|a args] Harg;
    try discriminate; cbn in Harg |- *.
  - injection Harg as ->. reflexivity.
  - f_equal. apply IH, Harg.
Qed.

Lemma repeatedArgument_outcome
    (isBefore : Argument -> Position -> bool)
    (isInsideRange : Position -> option Range -> bool)
    (position : Position) (max flagsOffset : Z) (args : list Argument) (n : nat) :
  0 <= max -> (n <= List.length args)%nat ->
  match repeatedArgument isBefore isInsideRange position max flagsOffset args n with
  | Some (Some result) =>
      flagsOffset <= result <= flagsOffset + max
      /\ Exists (fun arg => reached isBefore isInsideRange position arg = true)
                (firstn n args)
  | Some None =>
      Forall (fun arg => reached isBefore isInsideRange position arg = false)
             (firstn n args)
  | None => False
  end.
Proof.
  intros Hmax. induction n as [|i IH]; intros Hn; cbn [repeatedArgument].
  - apply Forall_nil.
  - unfold withArgument.
    destruct (nth_error args i) as [arg|] eqn:Harg;
      [|apply nth_error_None in Harg; lia].
    rewrite (firstn_snoc args i arg Harg).
    destruct (isBefore arg position) eqn:Hb.
    { split; [lia|]. apply Exists_app. right. apply Exists_cons_hd.
      unfold reached. rewrite Hb. reflexivity. }
    destruct (isInsideRange position (Some (argRange arg))) eqn:Hi.
    { split; [lia|]. apply Exists_app. right. apply Exists_cons_hd.
      unfold reached. rewrite Hb, Hi. reflexivity. }
    specialize (IH ltac:(lia)).
    destruct (repeatedArgument isBefore isInsideRange position max flagsOffset args i)
      as [[result|]|]; [| |exact IH].
    + destruct IH as (Hr & He). split; [exact Hr|]. apply Exists_app. left. exact He.
    + apply Forall_app. split; [exact IH|]. apply Forall_cons; [|apply Forall_nil].
      unfold reached. rewrite Hb, Hi. reflexivity.
Qed.

(** The [switch] of [getSignatureActiveParameter], which is all of it
    when the final parameter does not repeat. *)
Lemma getSignatureActiveParameter_switch
    (isBefore : Argument -> Position -> bool)
    (isInsideRange : Position -> option Range -> bool)
    (arg0 : Argument) (rest : list Argument) (position : Position)
    (hasFlags : bool) (max : Z) :
  let flagsOffset := if hasFlags then 1 else 0 in
  exists n,
    getSignatureActiveParameter isBefore isInsideRange (arg0 :: rest) position
      hasFlags max false = Some n
    /\ flagsOffset <= n <= flagsOffset + 2
    /\ (Forall (fun arg => reached isBefore isInsideRange position arg = false)
               (arg0 :: rest) -> n = flagsOffset).
Proof.
  intros flagsOffset. unfold getSignatureActiveParameter. fold flagsOffset.
  assert (H0 : reached isBefore isInsideRange position arg0 = false ->
                isBefore arg0 position = false).
  { intros Hr. apply orb_false_elim in Hr. apply Hr. }
  destruct rest as [|arg1 rest].
  - cbn [List.length Nat.eqb withArgument nth_error].
    destruct (isBefore arg0 position) eqn:Hb; eexists; (split; [reflexivity|]);
      (split; [lia|]); intros Hall; apply Forall_inv in Hall;
      [discriminate (H0 Hall)|lia].
  - cbn [List.length Nat.eqb]. unfold withArgumentAt.
    replace (Z.of_nat (S (S (List.length rest))) - 1 <? 0) with false
      by (symmetry; apply Z.ltb_ge; lia).
    replace (Z.to_nat (Z.of_nat (S (S (List.length rest))) - 1))
      with (S (List.length rest)) by lia.
    unfold withArgument at 1.
    destruct (nth_error (arg0 :: arg1 :: rest) (S (List.length rest)))
      as [final|] eqn:Hfinal;
      [|apply nth_error_None in Hfinal; cbn [List.length] in Hfinal; lia].
    apply nth_error_In in Hfinal.
    fold (reached isBefore isInsideRange position final).
    destruct (reached isBefore isInsideRange position final) eqn:Hr.
    + eexists. split; [reflexivity|]. split; [lia|]. intros Hall.
      rewrite Forall_forall in Hall. rewrite (Hall final Hfinal) in Hr. discriminate.
    + cbn [withArgument nth_error].
      destruct (isBefore arg0 position) eqn:Hb; eexists; (split; [reflexivity|]);
        (split; [lia|]); intros Hall; apply Forall_inv in Hall;
        [discriminate (H0 Hall)|lia].
Qed.

(** X20.  The active parameter of a shell-form signature.
    [getSignatureActiveParameter] raises a [TypeError] exactly when the
    instruction has no arguments.  Otherwise the result is at least the
    flags offset and at most the offset plus [max] when the final
    parameter repeats, plus two when it does not; and it is the offset
    itself when the position is neither after nor inside any
    argument. *)
Theorem X20_active_parameter_of_the_shell_form
    (isBefore : Argument -> Position -> bool)
    (isInsideRange : Position -> option Range -> bool)
    (args : list Argument) (position : Position)
    (hasFlags : bool) (max : Z) (finalRepeats : bool) :
  0 <= max ->
  let flagsOffset := if hasFlags then 1 else 0 in
  let result :=
    getSignatureActiveParameter isBefore isInsideRange args position
      hasFlags max finalRepeats in
  (result = None <-> args = [])
  /\ (forall n, result = Some n ->
        flagsOffset <= n <= flagsOffset + (if finalRepeats then max else 2)
        /\ (Forall (fun arg => reached isBefore isInsideRange position arg = false)
                   args -> n = flagsOffset)).
Proof.
  intros Hmax flagsOffset result. subst result.
  destruct args as [|arg0 rest].
  { split; [split; [reflexivity|]|].
    - intros _. unfold getSignatureActiveParameter. destruct finalRepeats; reflexivity.
    - intros n. unfold getSignatureActiveParameter.
      destruct finalRepeats; discriminate. }
  destruct (getSignatureActiveParameter_switch isBefore isInsideRange arg0 rest
              position hasFlags max) as (m & Hm & Hrange & Hnone).
  fold flagsOffset in Hrange, Hnone.
  destruct finalRepeats.
  - pose proof (repeatedArgument_outcome isBefore isInsideRange position max
                  flagsOffset (arg0 :: rest) (List.length (arg0 :: rest)) Hmax
                  (Nat.le_refl _)) as Hloop.
    rewrite firstn_all in Hloop.
    unfold getSignatureActiveParameter in Hm |- *. fold flagsOffset in Hm |- *.
    destruct (repeatedArgument isBefore isInsideRange position max flagsOffset
                (arg0 :: rest) (List.length (arg0 :: rest))) as [[found|]|];
      [| |contradiction].
    + destruct Hloop as (Hfound & Hex).
      split; [split; discriminate|]. intros n [= <-]. split; [exact Hfound|].
      intros Hall. apply Exists_exists in Hex. destruct Hex as (arg & Hin & Hr).
      rewrite Forall_forall in Hall. rewrite (Hall arg Hin) in Hr. discriminate.
    + rewrite Hm. split; [split; discriminate|]. intros n [= <-].
      split; [rewrite (Hnone Hloop); lia|exact Hnone].
  - rewrite Hm. split; [split; discriminate|]. intros n [= <-].
    split; [exact Hrange|exact Hnone].
Qed.

(* ================================================================== *)
(** ** Further theorems on the example inputs *)

(** [STOPSIGNAL abc]: the diagnostic has no message. *)
Lemma X3_witness :
  exists problems' new,
    checkInstruction Util_isWhitespace replaceFirst warnSettings "STOPSIGNAL abc"
      dockerKeywords BACKSLASH stopsignalWord [] = Some problems'
    /\ problems' = [] ++ new
    /\ Forall (fun d => message d = None <-> code d = INVALID_STOPSIGNAL) new.
Proof.
  destruct (checkInstruction Util_isWhitespace replaceFirst warnSettings "STOPSIGNAL abc"
              dockerKeywords BACKSLASH stopsignalWord []) as [problems'|] eqn:H;
    [|vm_compute in H; discriminate H].
  destruct (X3_invalid_stop_signal_has_no_message Util_isWhitespace replaceFirst
              warnSettings "STOPSIGNAL abc" dockerKeywords BACKSLASH stopsignalWord
              [] problems' H) as (new & Hnew & Hall & _).
  exists problems', new. split; [reflexivity|]. split; assumption.
Defined.

(** [FROM node / MAINTAINER me] with the setting on ignore. *)
Lemma X4_witness :
  exists ds,
    validate Util_isWhitespace asciiToUpperCase replaceFirst ignoreSettings
      fromThenMaintainer 30 dockerKeywords fromThenMaintainerModel = Returned ds
    /\ withCode DEPRECATED_MAINTAINER ds = [].
Proof.
  eexists. split; [vm_compute; reflexivity|].
  apply (X4_ignore_silences_maintainer Util_isWhitespace asciiToUpperCase replaceFirst
           ignoreSettings fromThenMaintainer 30 dockerKeywords fromThenMaintainerModel);
    [reflexivity|vm_compute; reflexivity].
Defined.

(** The three diagnostics of [FOO x / VOLUME [a]]. *)
Lemma X5_witness :
  exists ds,
    validate Util_isWhitespace asciiToUpperCase replaceFirst warnSettings
      unknownThenVolume 20 dockerKeywords unknownThenVolumeModel = Returned ds
    /\ Forall (fun d =>
                 source d = "dockerfile-lsp"
                 /\ (severity d = Error
                     \/ severity d = Warning
                        /\ (code d = LOWERCASE \/ code d = DEPRECATED_MAINTAINER))
                 /\ (code d = DEFAULT -> isUnexpectedToken unknownThenVolume d)) ds.
Proof.
  eexists. split; [vm_compute; reflexivity|].
  apply (X5_diagnostics_are_tagged Util_isWhitespace asciiToUpperCase replaceFirst
           warnSettings unknownThenVolume 20 dockerKeywords unknownThenVolumeModel).
  vm_compute. reflexivity.
Defined.

(** Without a directive nothing is pushed. *)
Lemma X6_witness :
  snd (parseDirective replaceFirst EmptyString emptyModel []) = [].
Proof.
  apply (X6_parseDirective_silence replaceFirst EmptyString emptyModel []).
  exact I.
Defined.

(** The line of FOO in [FOO x / VOLUME [a]] adds nothing. *)
Lemma X7_witness :
  problemsOf (lineStep Util_isWhitespace asciiToUpperCase unknownThenVolume
                dockerKeywords BACKSLASH unknownThenVolume 0 []) = [].
Proof.
  apply (X7_scanner_reports_on_volume_lines_only Util_isWhitespace asciiToUpperCase
           unknownThenVolume dockerKeywords BACKSLASH unknownThenVolume 0 []).
  intros j. vm_compute. discriminate.
Defined.

(** A line break, then [VOLUME [ ]: a thousand turns are not enough. *)
Lemma X8_witness :
  validate Util_isWhitespace asciiToUpperCase replaceFirst warnSettings
    volumeUnclosedOnSecondLine 1000 dockerKeywords emptyModel = OutOfFuel.
Proof.
  apply (X8_scanner_can_run_forever Util_isWhitespace asciiToUpperCase replaceFirst
           warnSettings volumeUnclosedOnSecondLine dockerKeywords emptyModel 1).
  - vm_compute. reflexivity.
  - vm_compute. discriminate.
  - intros k Hk. replace k with 0 by (cbn in Hk; lia). vm_compute. reflexivity.
  - intros problems. eexists. vm_compute. reflexivity.
Defined.

(** [RUN make] is validated. *)
Lemma X9_witness :
  exists ds,
    validate Util_isWhitespace asciiToUpperCase replaceFirst warnSettings
      runOnly 10 dockerKeywords runOnlyModel = Returned ds.
Proof.
  apply (X9_validate_never_throws Util_isWhitespace asciiToUpperCase replaceFirst
           warnSettings runOnly 10 dockerKeywords runOnlyModel).
  - apply no_bracket_progresses, charIs_absent. reflexivity.
  - simpl. lia.
Defined.

(** [VOLUME [  ]: reported at the start of the document. *)
Lemma X10_witness :
  parseJSON volumeBlankArray BACKSLASH 7 volumeBlankArray []
  = (0, [] ++ [createUnexpectedToken volumeBlankArray (-1) 0])
  /\ range (createUnexpectedToken volumeBlankArray (-1) 0) = rangeAt 0 0 0 0.
Proof.
  apply (X10_blank_array_reports_at_the_start volumeBlankArray BACKSLASH 7
           volumeBlankArray []).
  - left. reflexivity.
  - intros k Hk. change (JS.length volumeBlankArray) with 10 in Hk.
    assert (Hc : k = 8 \/ k = 9) by lia.
    destruct Hc as [-> | ->]; left; reflexivity.
Defined.

(** [VOLUME  /data [x]: nothing is reported. *)
Lemma X11_witness :
  snd (parseVOLUME volumeShellForm BACKSLASH 0 6 volumeShellForm []) = [].
Proof.
  apply (X11_volume_shell_form_is_silent volumeShellForm BACKSLASH 0 6 8
           volumeShellForm []).
  - left. reflexivity.
  - vm_compute. split; reflexivity.
  - intros k Hk. replace k with 7 by lia. left. reflexivity.
  - reflexivity.
  - reflexivity.
  - reflexivity.
  - reflexivity.
Defined.

(** The diagnostics of [FOO x / VOLUME [a]], pass by pass. *)
Lemma X12_witness :
  exists ds news scan,
    validate Util_isWhitespace asciiToUpperCase replaceFirst warnSettings
      unknownThenVolume 20 dockerKeywords unknownThenVolumeModel = Returned ds
    /\ ds = snd (parseDirective replaceFirst unknownThenVolume unknownThenVolumeModel [])
            ++ checkSourceImage unknownThenVolume
                 (getInstructions unknownThenVolumeModel) []
            ++ List.concat news ++ scan.
Proof.
  destruct (validate Util_isWhitespace asciiToUpperCase replaceFirst warnSettings
              unknownThenVolume 20 dockerKeywords unknownThenVolumeModel)
    as [ds| |] eqn:H; [|vm_compute in H; discriminate H..].
  destruct (proj1 (X12_validate_concatenates_its_passes Util_isWhitespace
                     asciiToUpperCase replaceFirst warnSettings unknownThenVolume 20
                     dockerKeywords unknownThenVolumeModel ds) H)
    as (news & scan & _ & _ & Hds).
  exists ds, news, scan. split; [reflexivity|exact Hds].
Defined.

(** [VOLUME ["/data", "/logs"]] is accepted. *)
Lemma X13_witness :
  parseJSON ("VOLUME " ++ renderArray ["/data"; "/logs"]) BACKSLASH 7
    ("VOLUME " ++ renderArray ["/data"; "/logs"]) []
  = (JS.length ("VOLUME " ++ renderArray ["/data"; "/logs"]), []).
Proof.
  apply (X13_rendered_arrays_are_accepted
           ("VOLUME " ++ renderArray ["/data"; "/logs"]) BACKSLASH 0 "VOLUME "
           ["/data"; "/logs"] []).
  - left. reflexivity.
  - repeat apply Forall_cons; try apply Forall_nil;
      unfold stringBody; cbn [characters];
      repeat apply Forall_cons; try apply Forall_nil;
      (split; [|split]); vm_compute; discriminate.
Defined.

(** [--interval=30s] *)
Lemma X14_witness :
  renderFlag (createFlag (argumentAt "--interval=30s" 12)) = "--interval=30s".
Proof.
  apply (X14_flag_round_trip (argumentAt "--interval=30s" 12)). reflexivity.
Defined.

(** [--interval=30s] at column 12. *)
Lemma X15_witness :
  endCharacter (flagNameRange (createFlag (argumentAt "--interval=30s" 12)))
  = startCharacter (flagNameRange (createFlag (argumentAt "--interval=30s" 12)))
    + JS.length (flagName (createFlag (argumentAt "--interval=30s" 12))).
Proof.
  apply (X15_flag_ranges_on_one_line (argumentAt "--interval=30s" 12));
    reflexivity.
Defined.

(** [--interval=30s --timeout=5s CMD ls]: the arguments are [CMD ls];
    [extra --timeout=5s CMD ls]: the flag stays. *)
Lemma X17_witness :
  getArguments 4 stopAtCommand
    ([argumentAt "--interval=30s" 12; argumentAt "--timeout=5s" 27]
     ++ [argumentAt "CMD" 40; argumentAt "ls" 44]) None
  = Some ([argumentAt "CMD" 40; argumentAt "ls" 44],
          Some (map createFlag [argumentAt "--interval=30s" 12;
                                argumentAt "--timeout=5s" 27]))
  /\ getArguments 4 stopAtCommand
       (argumentAt "extra" 12 :: argumentAt "--timeout=5s" 27
        :: [argumentAt "CMD" 40; argumentAt "ls" 44]) None
     = Some (argumentAt "--timeout=5s" 27 :: [argumentAt "CMD" 40; argumentAt "ls" 44],
             Some [createFlag (argumentAt "--timeout=5s" 27)]).
Proof.
  destruct (X17_getArguments_drops_leading_arguments 0 stopAtCommand
              [argumentAt "--interval=30s" 12; argumentAt "--timeout=5s" 27]
              [argumentAt "CMD" 40; argumentAt "ls" 44]
              (argumentAt "extra" 12) (argumentAt "--timeout=5s" 27)) as [H1 H2].
  - repeat apply Forall_cons; try apply Forall_nil; reflexivity.
  - repeat apply Forall_cons; try apply Forall_nil; reflexivity.
  - apply Forall_nil.
  - split; [exact H1|]. apply H2; reflexivity.
Defined.

(** [FROM node:8] with the position at the end of the tag. *)
Lemma X19_witness :
  exists help,
    getFromSignatureHelp (fun key => key) endsBefore insideRange
      {| line := 0; character := 11 |} fromTagged = Some (Some help)
    /\ exists name, activeLabel help = Some name
                    /\ In name ["baseImage"; "tag"; "digest"; "AS"; "stage"].
Proof.
  eexists. split; [vm_compute; reflexivity|].
  apply (X19_active_parameter_label (fun key => key) endsBefore insideRange
           {| line := 0; character := 11 |} fromTagged).
  vm_compute. reflexivity.
Defined.

(** Two arguments, the position inside the second one. *)
Lemma X20_witness :
  exists n,
    getSignatureActiveParameter endsBefore insideRange
      [argumentAt "a" 4; argumentAt "bc" 6] {| line := 0; character := 7 |}
      false 2 true = Some n
    /\ 0 <= n <= 0 + 2.
Proof.
  pose proof (X20_active_parameter_of_the_shell_form endsBefore insideRange
                [argumentAt "a" 4; argumentAt "bc" 6] {| line := 0; character := 7 |}
                false 2 true ltac:(lia)) as H.
  cbv zeta in H. destruct H as [_ H].
  eexists. split; [vm_compute; reflexivity|].
  apply (H 1). vm_compute. reflexivity.
Defined.

(* ================================================================== *)
(** ** The first word of a line *)

Lemma string_app_nil_r (s : string) : (s ++ EmptyString)%string = s.
Proof. induction s as [|c s IH]; [reflexivity|]. cbn [String.append]. rewrite IH. reflexivity. Qed.

Lemma substring_middle (p u t : string) :
  JS.substring (p ++ u ++ t) (JS.length p) (JS.length p + JS.length u) = u.
Proof.
  induction p as [|x p IH].
  - cbn [String.append]. change (JS.length EmptyString) with 0. rewrite Z.add_0_l.
    induction u as [|y u IHu].
    + apply substring_take_zero.
    + cbn [String.append]. rewrite JS_length_String.
      rewrite substring_take_cons by apply JS_length_nonneg. rewrite IHu. reflexivity.
  - cbn [String.append]. rewrite JS_length_String.
    replace (JS.length p + 1 + JS.length u) with (JS.length p + JS.length u + 1) by lia.
    pose proof (JS_length_nonneg p). pose proof (JS_length_nonneg u).
    rewrite substring_cons by lia. exact IH.
Qed.

Section Word.

Variable isWhitespace : ascii -> bool.
Variable toUpperCase : string -> string.
Variable escape : ascii.
Variable text : string.

Lemma isWhitespaceAt_here (q : string) (x : ascii) (s : string) :
  text = (q ++ String x s)%string ->
  isWhitespaceAt isWhitespace text (JS.length q) = isWhitespace x.
Proof. intros ->. unfold isWhitespaceAt. rewrite charAt_here. reflexivity. Qed.

Lemma word_turn (st : string * Z) (j : Z) :
  j < JS.length text ->
  forLoop (loopFuel (JS.length text) j) (JS.length text)
    (wordBody isWhitespace toUpperCase escape text) (fun _ _ => NoWord) st j
  = match wordBody isWhitespace toUpperCase escape text st j with
    | Next st' j' =>
        forLoop (loopFuel (JS.length text) (j' + 1)) (JS.length text)
          (wordBody isWhitespace toUpperCase escape text) (fun _ _ => NoWord)
          st' (j' + 1)
    | Leave r => r
    end.
Proof.
  intros Hj. apply forLoop_step; [|exact Hj].
  apply (loop_bodies_advancing isWhitespace toUpperCase EmptyString escape text []).
Qed.

Lemma wordBody_plain (q : string) (x : ascii) (s : string) (st : string * Z) :
  text = (q ++ String x s)%string -> 0 < JS.length s ->
  isWhitespace x = false -> x <> escape ->
  wordBody isWhitespace toUpperCase escape text st (JS.length q)
  = Next st (JS.length q).
Proof.
  intros Htext Hs Hw He. destruct st as [instruction start]. unfold wordBody.
  rewrite (not_continuation_here _ _ _ _ escape Htext)
    by (apply Ascii.eqb_neq; exact He).
  rewrite (isWhitespaceAt_here _ _ _ Htext), Hw.
  replace (JS.length q =? JS.length text - 1) with false; [reflexivity|].
  symmetry. apply Z.eqb_neq. rewrite Htext, JS_length_append, JS_length_String. lia.
Qed.

Lemma wordBody_end (q : string) (c : ascii) (s instruction : string) (start : Z) :
  text = (q ++ String c s)%string -> 0 < JS.length s ->
  isWhitespace c = true -> c <> escape ->
  wordBody isWhitespace toUpperCase escape text (instruction, start) (JS.length q)
  = Leave (Word (JS.length q)
             (toUpperCase (instruction ++ JS.substring text start (JS.length q)))).
Proof.
  intros Htext Hs Hw He. unfold wordBody.
  rewrite (not_continuation_here _ _ _ _ escape Htext)
    by (apply Ascii.eqb_neq; exact He).
  rewrite (isWhitespaceAt_here _ _ _ Htext), Hw.
  replace (JS.length q =? JS.length text - 1) with false; [reflexivity|].
  symmetry. apply Z.eqb_neq. rewrite Htext, JS_length_append, JS_length_String. lia.
Qed.

Lemma continuation_length (carriageReturn : bool) :
  JS.length (continuation escape carriageReturn) = if carriageReturn then 3 else 2.
Proof. destruct carriageReturn; reflexivity. Qed.

Lemma wordBody_continuation (q : string) (carriageReturn : bool) (s instruction : string)
    (start : Z) :
  text = (q ++ continuation escape carriageReturn ++ s)%string -> 0 < JS.length s ->
  wordBody isWhitespace toUpperCase escape text (instruction, start) (JS.length q)
  = Next ((instruction ++ JS.substring text start (JS.length q))%string,
          JS.length (q ++ continuation escape carriageReturn))
         (JS.length (q ++ continuation escape carriageReturn) - 1).
Proof.
  intros Htext Hs. unfold wordBody.
  pose proof (JS_length_nonneg q) as Hq.
  assert (Hlen : JS.length text
                 = JS.length q + (if carriageReturn then 3 else 2) + JS.length s)
    by (rewrite Htext, !JS_length_append, continuation_length; lia).
  assert (H0 : text = (q ++ String escape
                         ((if carriageReturn then String CR (String LF EmptyString)
                           else String LF EmptyString) ++ s))%string) by exact Htext.
  assert (Hq1 : JS.length (q ++ String escape EmptyString) = JS.length q + 1)
    by (rewrite JS_length_append, JS_length_String; reflexivity).
  assert (Hnext : JS.charIs text (JS.length q + 1) CR = carriageReturn
                  /\ JS.charIs text (JS.length q + 1) LF = negb carriageReturn
                  /\ (carriageReturn = true -> JS.charIs text (JS.length q + 1 + 1) LF = true)).
  { rewrite <- Hq1. destruct carriageReturn.
    - rewrite !(charIs_here text (q ++ String escape EmptyString) CR (String LF s))
        by (rewrite string_app_assoc; exact H0).
      split; [reflexivity|split; [reflexivity|intros _]].
      assert (Hq2 : JS.length (q ++ String escape (String CR EmptyString))
                    = JS.length (q ++ String escape EmptyString) + 1)
        by (rewrite !JS_length_append, !JS_length_String; lia).
      rewrite <- Hq2.
      rewrite (charIs_here text (q ++ String escape (String CR EmptyString)) LF s LF)
        by (rewrite string_app_assoc; exact H0).
      reflexivity.
    - rewrite !(charIs_here text (q ++ String escape EmptyString) LF s)
        by (rewrite string_app_assoc; exact H0).
      split; [reflexivity|split; [reflexivity|discriminate]]. }
  destruct Hnext as (Hcr & Hlf & Hlf2).
  assert (Hskip : shouldSkipNewline text (JS.length q) escape = true).
  { unfold shouldSkipNewline.
    rewrite (charIs_here _ _ _ _ escape H0), Ascii.eqb_refl, Hcr, Hlf.
    replace (JS.length q =? JS.length text - 1) with false
      by (symmetry; apply Z.eqb_neq; destruct carriageReturn; lia).
    destruct carriageReturn; reflexivity. }
  rewrite Hskip.
  assert (Hjump : skipContinuation text (JS.length q)
                  = JS.length (q ++ continuation escape carriageReturn) - 1).
  { unfold skipContinuation. rewrite Hcr, JS_length_append, continuation_length.
    destruct carriageReturn; [rewrite (Hlf2 eq_refl)|]; cbn [andb]; lia. }
  rewrite Hjump.
  replace (_ - 1 =? JS.length text - 1) with false.
  - f_equal. f_equal. lia.
  - symmetry. apply Z.eqb_neq. rewrite JS_length_append, continuation_length.
    destruct carriageReturn; lia.
Qed.

Lemma scan_pieces (c r : ascii) (rest : string) :
  isWhitespace c = true -> c <> escape ->
  forall pieces w u p0 instruction,
    text = (p0 ++ u ++ w ++ continuedWord escape pieces
               ++ String c (String r rest))%string ->
    plainWord isWhitespace escape w ->
    Forall (fun piece => plainWord isWhitespace escape (snd piece)) pieces ->
    forLoop (loopFuel (JS.length text) (JS.length p0 + JS.length u)) (JS.length text)
      (wordBody isWhitespace toUpperCase escape text) (fun _ _ => NoWord)
      (instruction, JS.length p0) (JS.length p0 + JS.length u)
    = Word (JS.length p0 + JS.length u + JS.length w
            + JS.length (continuedWord escape pieces))
        (toUpperCase (instruction ++ u ++ w ++ joinedWord pieces)).
Proof.
  intros Hc Hce.
  assert (Htail : forall t, 0 < JS.length (t ++ String c (String r rest))).
  { intros t. rewrite JS_length_append, !JS_length_String.
    pose proof (JS_length_nonneg t). pose proof (JS_length_nonneg rest). lia. }
  induction pieces as [|[carriageReturn w1] pieces IHp];
    induction w as [|x w IHw]; intros u p0 instruction Htext Hw Hpieces.
  - (* the whitespace that ends the word *)
    cbn [continuedWord joinedWord String.append] in *.
    assert (Hsub : JS.substring text (JS.length p0) (JS.length p0 + JS.length u) = u)
      by (rewrite Htext; apply substring_middle).
    rewrite <- string_app_assoc in Htext.
    rewrite <- JS_length_append.
    rewrite word_turn by (eapply here_in_range, Htext).
    rewrite (wordBody_end _ _ _ _ _ Htext)
      by (try assumption; rewrite JS_length_String; pose proof (JS_length_nonneg rest); lia).
    rewrite JS_length_append, Hsub.
    rewrite !string_app_nil_r. change (JS.length EmptyString) with 0.
    f_equal. lia.
  - (* a character of the first run *)
    apply Forall_cons_iff in Hw. destruct Hw as [[Hx Hxe] Hw].
    cbn [String.append] in Htext.
    assert (Htext1 : text = ((p0 ++ u) ++ String x
                               (w ++ continuedWord escape []
                                  ++ String c (String r rest)))%string)
      by (rewrite string_app_assoc; exact Htext).
    rewrite <- JS_length_append.
    rewrite word_turn by (eapply here_in_range, Htext1).
    rewrite (wordBody_plain _ _ _ _ Htext1) by (try assumption; rewrite JS_length_append;
      pose proof (JS_length_nonneg w); pose proof (Htail (continuedWord escape [])); lia).
    assert (Hu : JS.length (p0 ++ u) + 1 = JS.length p0 + JS.length (u ++ String x EmptyString))
      by (rewrite !JS_length_append, JS_length_String; change (JS.length EmptyString) with 0; lia).
    rewrite Hu.
    rewrite (IHw (u ++ String x EmptyString)%string p0 instruction)
      by (try assumption; rewrite Htext, !string_app_assoc; reflexivity).
    rewrite !string_app_assoc. cbn [String.append].
    rewrite !JS_length_append, !JS_length_String. change (JS.length EmptyString) with 0.
    f_equal. lia.
  - (* a continuation *)
    apply Forall_cons_iff in Hpieces. destruct Hpieces as [Hw1 Hpieces].
    cbn [snd] in Hw1.
    cbn [continuedWord joinedWord String.append] in *.
    assert (Hsub : JS.substring text (JS.length p0) (JS.length p0 + JS.length u) = u)
      by (rewrite Htext; apply substring_middle).
    assert (Htext1 : text = ((p0 ++ u) ++ continuation escape carriageReturn
                               ++ (w1 ++ continuedWord escape pieces
                                      ++ String c (String r rest)))%string)
      by (rewrite Htext, !string_app_assoc; reflexivity).
    rewrite <- JS_length_append.
    assert (Hin : JS.length (p0 ++ u) < JS.length text).
    { rewrite Htext1. rewrite (JS_length_append (p0 ++ u)), (JS_length_append (continuation _ _)).
      rewrite continuation_length. pose proof (JS_length_nonneg (w1 ++ continuedWord escape pieces
                                      ++ String c (String r rest))).
      destruct carriageReturn; lia. }
    rewrite word_turn by exact Hin.
    rewrite (wordBody_continuation _ _ _ _ _ Htext1)
      by (rewrite JS_length_append; pose proof (JS_length_nonneg w1);
          pose proof (Htail (continuedWord escape pieces)); lia).
    rewrite (JS_length_append p0 u), Hsub, <- (JS_length_append p0 u).
    replace (JS.length ((p0 ++ u) ++ continuation escape carriageReturn) - 1 + 1)
      with (JS.length ((p0 ++ u) ++ continuation escape carriageReturn)
            + JS.length EmptyString)
      by (change (JS.length EmptyString) with 0; lia).
    rewrite (IHp w1 EmptyString ((p0 ++ u) ++ continuation escape carriageReturn)%string
               (instruction ++ u)%string)
      by (try assumption; rewrite Htext, !string_app_assoc; reflexivity).
    cbn [String.append]. rewrite !string_app_assoc.
    rewrite !JS_length_append. change (JS.length EmptyString) with 0.
    f_equal. lia.
  - (* a character of a later run *)
    apply Forall_cons_iff in Hw. destruct Hw as [[Hx Hxe] Hw].
    cbn [String.append] in Htext.
    assert (Htext1 : text = ((p0 ++ u) ++ String x
                               (w ++ continuedWord escape ((carriageReturn, w1) :: pieces)
                                  ++ String c (String r rest)))%string)
      by (rewrite string_app_assoc; exact Htext).
    rewrite <- JS_length_append.
    rewrite word_turn by (eapply here_in_range, Htext1).
    rewrite (wordBody_plain _ _ _ _ Htext1) by (try assumption; rewrite JS_length_append;
      pose proof (JS_length_nonneg w);
      pose proof (Htail (continuedWord escape ((carriageReturn, w1) :: pieces))); lia).
    assert (Hu : JS.length (p0 ++ u) + 1 = JS.length p0 + JS.length (u ++ String x EmptyString))
      by (rewrite !JS_length_append, JS_length_String; change (JS.length EmptyString) with 0; lia).
    rewrite Hu.
    rewrite (IHw (u ++ String x EmptyString)%string p0 instruction)
      by (try assumption; rewrite Htext, !string_app_assoc; reflexivity).
    rewrite !string_app_assoc. cbn [String.append].
    rewrite !JS_length_append, !JS_length_String. change (JS.length EmptyString) with 0.
    f_equal. lia.
Qed.

(** X21.  Continuations splice the first word of a line.  When the
    word is written in pieces, each after an escape character and a line
    break (with or without a carriage return), and the pieces hold no
    whitespace and no escape character, the scanner leaves the word loop
    at the whitespace after the last piece with the pieces joined and in
    upper case, however many continuations there are.  The first
    character of the word is taken as it is. *)
Theorem X21_continuations_splice_the_first_word
    (pre : string) (c0 : ascii) (w0 : string) (pieces : list (bool * string))
    (c r : ascii) (rest : string) :
  plainWord isWhitespace escape w0 ->
  Forall (fun piece => plainWord isWhitespace escape (snd piece)) pieces ->
  isWhitespace c = true -> c <> escape ->
  text = (pre ++ String c0 (w0 ++ continuedWord escape pieces
                               ++ String c (String r rest)))%string ->
  scanWord isWhitespace toUpperCase escape text (JS.length pre)
  = Word (JS.length pre + 1 + JS.length w0 + JS.length (continuedWord escape pieces))
      (toUpperCase (String c0 (w0 ++ joinedWord pieces))).
Proof.
  intros Hw0 Hpieces Hc Hce Htext. unfold scanWord.
  change 1 with (JS.length (String c0 EmptyString)).
  apply (scan_pieces c r rest Hc Hce pieces w0 (String c0 EmptyString) pre EmptyString);
    assumption.
Qed.

End Word.

(** [RU], a continuation, [N make]: the word is RUN. *)
Lemma X21_witness :
  scanWord Util_isWhitespace asciiToUpperCase BACKSLASH
    ("RU" ++ continuedWord BACKSLASH [(false, "N")] ++ " make") 0
  = Word 5 "RUN".
Proof.
  apply (X21_continuations_splice_the_first_word Util_isWhitespace asciiToUpperCase
           BACKSLASH ("RU" ++ continuedWord BACKSLASH [(false, "N")] ++ " make")
           EmptyString "R" "U" [(false, "N")] " " "m" "ake").
  - apply Forall_cons; [split; [reflexivity|discriminate]|apply Forall_nil].
  - apply Forall_cons; [|apply Forall_nil].
    apply Forall_cons; [split; [reflexivity|discriminate]|apply Forall_nil].
  - reflexivity.
  - discriminate.
  - reflexivity.
Defined.

(* ================================================================== *)
(** ** The array validator, from the bracket on *)

Section ArrayValidator.

Variable document : string.
Variable escape : ascii.
Hypothesis escape_char : isEscapeChar escape.












End ArrayValidator.



(* ================================================================== *)
(** ** The line of a word that is not a keyword *)




Section SkipInstruction.

Variable escape : ascii.
Hypothesis escape_char : isEscapeChar escape.
Variable text : string.
Variable problems : list Diagnostic.





End SkipInstruction.



(* ================================================================== *)
(** ** A document on which the scanner does not end *)

(** C5 (where the code fails it).  On the document that is a line break
    followed by [VOLUME [ ], [validate] never returns, whatever the
    settings, the whitelist and the instructions the parser finds: the
    array validator has recorded no character and returns
    [last + 1 = 0], the scan resumes at offset 1 and meets the same
    VOLUME again.  There is no output, and so none with one
    NO_SOURCE_IMAGE diagnostic. *)
Theorem C5_no_output_on_unclosed_volume
    (settings : ValidatorSettings) (keywords : list string)
    (instructions : list Instruction) (fuel : nat) :
  validate Util_isWhitespace asciiToUpperCase replaceFirst settings
    volumeUnclosedOnSecondLine fuel keywords
    {| getDirective := None; getInstructions := instructions |}
  = OutOfFuel.
Proof.
  unfold validate. cbn [parseDirective getDirective getInstructions escape dc].
  destruct (checkInstructions_defined Util_isWhitespace replaceFirst settings
              volumeUnclosedOnSecondLine keywords BACKSLASH instructions
              (checkSourceImage volumeUnclosedOnSecondLine instructions []))
    as [problems ->].
  destruct fuel as [|fuel]; [reflexivity|].
  cbn [lineCheck].
  replace (0 <? JS.length volumeUnclosedOnSecondLine) with true by reflexivity.
  replace (lineStep Util_isWhitespace asciiToUpperCase volumeUnclosedOnSecondLine
             keywords BACKSLASH volumeUnclosedOnSecondLine 0 problems)
    with (Resume 0 problems) by reflexivity.
  rewrite (lineCheck_loops Util_isWhitespace asciiToUpperCase
             volumeUnclosedOnSecondLine keywords BACKSLASH
             volumeUnclosedOnSecondLine 1); [reflexivity|reflexivity|].
  intros ps. eexists. vm_compute. reflexivity.
Qed.

(* ================================================================== *)
(** ** The keyword checks in the list that is returned *)

Section Keywords.

Variable isWhitespace : ascii -> bool.
Variable toUpperCase : string -> string.
Variable replace : string -> string -> string -> string.
Variable settings : ValidatorSettings.
Variable document : string.
Variable keywords : list string.






End Keywords.

